(** * Sva-Sthit 50@50 dashboard: goal statistics and the two ingestion paths

    A shallow embedding of the logic of the component [App] (both revisions:
    the one with the pasted-text update [handleUpdate] and the one with the
    spreadsheet sync [fetchFromGoogleSheets]), of [constants.ts] and of the
    [Goal] interface, followed by the properties of the specification.

    Modelling conventions.
    - A JavaScript [number] is an exact rational or one of the three IEEE
      special values [Infinity], [-Infinity], [NaN].  Division by zero, the
      propagation of [NaN] and the comparisons with [NaN] are as in
      ECMAScript; rounding to binary64 and the sign of zero are not modelled
      (a zero divisor counts as [+0]).
    - A JavaScript string is the list of its UTF-16 code units.
    - The React state is an explicit record: goal objects live in a heap and
      the [goals] array holds references to them, so that [[...goals]] copies
      references, not objects.
    - Handlers run in a state monad with exceptions; effects on the heap
      performed before an exception persist, as in JavaScript.  The [alert]
      calls are recorded in the state; [console.error] is not.
    - The asynchronous handler is run to completion: the outcome of [fetch]
      (a response, a rejection, or the abort by the 15 second timer) is an
      argument of the model. *)

From Stdlib Require Import ZArith QArith Qround Qpower Lia Lqa.
From Stdlib Require Import Ascii String DecimalString DecimalNat.
From stdpp Require Import base tactics option list.

Local Open Scope Z_scope.

(** ** JavaScript numbers *)

Module Num.

Inductive number : Type :=
| Fin (q : Q)
| PosInf
| NegInf
| NaN.

Definition of_Z (z : Z) : number := Fin (inject_Z z).
Definition of_nat (n : nat) : number := of_Z (Z.of_nat n).

Definition isNaN (x : number) : bool :=
  match x with NaN => true | _ => false end.

Definition isFinite (x : number) : bool :=
  match x with Fin _ => true | _ => false end.

(** Unary minus. *)
Definition neg (x : number) : number :=
  match x with
  | Fin q => Fin (- q)
  | PosInf => NegInf
  | NegInf => PosInf
  | NaN => NaN
  end.

(** [x + y] *)
Definition add (x y : number) : number :=
  match x, y with
  | NaN, _ | _, NaN => NaN
  | Fin a, Fin b => Fin (a + b)
  | PosInf, NegInf | NegInf, PosInf => NaN
  | PosInf, _ | _, PosInf => PosInf
  | NegInf, _ | _, NegInf => NegInf
  end.

(** [x - y] *)
Definition sub (x y : number) : number := add x (neg y).

(** The product of an infinity, positive or negative, and the finite [q]:
    the signs multiply, and the product with zero is [NaN]. *)
Definition inf_times (positive : bool) (q : Q) : number :=
  match (q ?= 0)%Q with
  | Eq => NaN
  | Gt => if positive then PosInf else NegInf
  | Lt => if positive then NegInf else PosInf
  end.

(** [x * y] *)
Definition mul (x y : number) : number :=
  match x, y with
  | NaN, _ | _, NaN => NaN
  | Fin a, Fin b => Fin (a * b)
  | Fin a, PosInf | PosInf, Fin a => inf_times true a
  | Fin a, NegInf | NegInf, Fin a => inf_times false a
  | PosInf, PosInf | NegInf, NegInf => PosInf
  | PosInf, NegInf | NegInf, PosInf => NegInf
  end.

(** [x / y].  A finite non-zero number over zero is an infinity, zero over
    zero is [NaN]. *)
Definition div (x y : number) : number :=
  match x, y with
  | NaN, _ | _, NaN => NaN
  | Fin a, Fin b =>
      if Qeq_bool b 0 then inf_times true a else Fin (a / b)
  | Fin _, PosInf | Fin _, NegInf => Fin 0
  | PosInf, Fin b => if Qle_bool 0 b then PosInf else NegInf
  | NegInf, Fin b => if Qle_bool 0 b then NegInf else PosInf
  | _, _ => NaN
  end.

(** [x <= y], [x < y], [x >= y], [x === y]: all false on [NaN]. *)
Definition leb (x y : number) : bool :=
  match x, y with
  | NaN, _ | _, NaN => false
  | Fin a, Fin b => Qle_bool a b
  | NegInf, _ | _, PosInf => true
  | _, _ => false
  end.

Definition ltb (x y : number) : bool :=
  match x, y with
  | NaN, _ | _, NaN => false
  | Fin a, Fin b => negb (Qle_bool b a)
  | PosInf, _ | _, NegInf => false
  | _, _ => true
  end.

Definition geb (x y : number) : bool := leb y x.

Definition strict_eq (x y : number) : bool :=
  match x, y with
  | Fin a, Fin b => Qeq_bool a b
  | PosInf, PosInf | NegInf, NegInf => true
  | _, _ => false
  end.

(** [Math.min(x, y)] and [Math.max(x, y)]: [NaN] if either is. *)
Definition min (x y : number) : number :=
  match x, y with
  | NaN, _ | _, NaN => NaN
  | _, _ => if leb x y then x else y
  end.

Definition max (x y : number) : number :=
  match x, y with
  | NaN, _ | _, NaN => NaN
  | _, _ => if leb x y then y else x
  end.

(** [Math.ceil] and [Math.floor]. *)
Definition ceil (x : number) : number :=
  match x with Fin q => of_Z (Qceiling q) | _ => x end.

Definition floor (x : number) : number :=
  match x with Fin q => of_Z (Qfloor q) | _ => x end.

(** Numeric equality of the model: rationals up to [Qeq]. *)
Definition eqv (x y : number) : Prop :=
  match x, y with
  | Fin a, Fin b => (a == b)%Q
  | PosInf, PosInf | NegInf, NegInf | NaN, NaN => True
  | _, _ => False
  end.

Definition le (x y : number) : Prop := leb x y = true.
Definition lt (x y : number) : Prop := ltb x y = true.

End Num.

Export Num(number, Fin, PosInf, NegInf, NaN).

#[global] Instance number_equiv : Equiv number := Num.eqv.

Declare Scope num_scope.
Delimit Scope num_scope with num.
Bind Scope num_scope with number.
Infix "+" := Num.add : num_scope.
Infix "-" := Num.sub : num_scope.
Infix "*" := Num.mul : num_scope.
Infix "/" := Num.div : num_scope.
Infix "<=" := Num.le : num_scope.
Infix "<" := Num.lt : num_scope.
Infix ">=?" := Num.geb (at level 70) : num_scope.

(** ** JavaScript strings *)

(** A string is the sequence of its UTF-16 code units. *)
Abbreviation jsstring := (list N).

Module Str.

(** The string of an ASCII literal. *)
Definition u (s : string) : jsstring :=
  List.map N_of_ascii (list_ascii_of_string s).

Definition eqb (s t : jsstring) : bool := bool_decide (s = t).

(** ECMAScript [WhiteSpace] and [LineTerminator] code units: what
    [String.prototype.trim] strips and what [\s] matches. *)
Definition isWhiteSpace (c : N) : bool :=
  ((9 <=? c) && (c <=? 13) || (c =? 0x20) || (c =? 0xA0) || (c =? 0x1680)
   || (0x2000 <=? c) && (c <=? 0x200A)
   || (c =? 0x2028) || (c =? 0x2029) || (c =? 0x202F) || (c =? 0x205F)
   || (c =? 0x3000) || (c =? 0xFEFF))%N.

(** [\d] is the ASCII digits only. *)
Definition isDigit (c : N) : bool := ((48 <=? c) && (c <=? 57))%N.

Fixpoint trimStart (s : jsstring) : jsstring :=
  match s with
  | c :: s' => if isWhiteSpace c then trimStart s' else s
  | [] => []
  end.

Definition trimEnd (s : jsstring) : jsstring :=
  rev (trimStart (rev s)).

(** [s.trim()] *)
Definition trim (s : jsstring) : jsstring := trimEnd (trimStart s).

(** [s.toLowerCase()], on the ASCII letters.  Other code units are kept:
    the capitals beyond ASCII, which JavaScript lowers too, are not
    modelled, and no property below depends on the lowered form of a string
    that has one. *)
Definition lowerUnit (c : N) : N :=
  if ((65 <=? c) && (c <=? 90))%N then (c + 32)%N else c.

Definition toLowerCase (s : jsstring) : jsstring := List.map lowerUnit s.

(** [s.startsWith(p)], returning the rest of [s] after [p]. *)
Fixpoint stripPrefix (p s : jsstring) : option jsstring :=
  match p, s with
  | [], _ => Some s
  | a :: p', b :: s' => if (a =? b)%N then stripPrefix p' s' else None
  | _ :: _, [] => None
  end.

(** [s.includes(p)] *)
Fixpoint includes (s p : jsstring) : bool :=
  match stripPrefix p s with
  | Some _ => true
  | None => match s with
            | _ :: s' => includes s' p
            | [] => false
            end
  end.

(** [s.split('\n')]: never empty, the empty string gives one empty line. *)
Fixpoint splitLines (s : jsstring) : list jsstring :=
  match s with
  | [] => [[]]
  | c :: s' =>
      if (c =? 10)%N then [] :: splitLines s'
      else match splitLines s' with
           | l :: ls => (c :: l) :: ls
           | [] => [[c]]
           end
  end.

(** [s.replace(/,/g, '')] *)
Definition removeCommas (s : jsstring) : jsstring :=
  List.filter (fun c => negb (c =? 44)%N) s.

(** [s.replace(/\s+/g, '-')]: every maximal run of white space becomes one
    hyphen. *)
Fixpoint hyphenateFrom (inRun : bool) (s : jsstring) : jsstring :=
  match s with
  | [] => []
  | c :: s' =>
      if isWhiteSpace c
      then (if inRun then hyphenateFrom true s'
            else 45%N :: hyphenateFrom true s')
      else c :: hyphenateFrom false s'
  end.

Definition hyphenate (s : jsstring) : jsstring := hyphenateFrom false s.

End Str.

(** ** The regular expressions of the text parser

    Every pattern of [handleUpdate] is a sequence of greedy repetitions of a
    character class and of literals, and only the first group is read.  A
    pattern is a list of atoms; matching backtracks over the repetitions from
    the longest to the shortest, at the leftmost position that matches, as
    [String.prototype.match] does without the [g] flag. *)

Module Regex.

Inductive atom : Type :=
| Rep (cls : N -> bool) (least : nat)   (* [c*] with least 0, [c+] with 1 *)
| Lit (s : jsstring).

(** Match the atoms at the start of [s]; the result is the text consumed by
    each atom. *)
Fixpoint matchHere (atoms : list atom) (s : jsstring) : option (list jsstring) :=
  match atoms with
  | [] => Some []
  | Lit l :: rest =>
      match Str.stripPrefix l s with
      | Some s' => cons l <$> matchHere rest s'
      | None => None
      end
  | Rep cls least :: rest =>
      (fix rep (taken : jsstring) (s : jsstring) {struct s}
         : option (list jsstring) :=
         let stop :=
           if (least <=? length taken)%nat
           then cons (rev taken) <$> matchHere rest s
           else None in
         match s with
         | c :: s' =>
             if cls c
             then match rep (c :: taken) s' with
                  | Some r => Some r
                  | None => stop
                  end
             else stop
         | [] => stop
         end) [] s
  end.

(** [s.match(re)]: the first position of [s] where the atoms match. *)
Fixpoint exec (atoms : list atom) (s : jsstring) : option (list jsstring) :=
  match matchHere atoms s with
  | Some r => Some r
  | None => match s with
            | _ :: s' => exec atoms s'
            | [] => None
            end
  end.

(** [match[1]] when group 1 encloses the first atom. *)
Definition group1 (m : list jsstring) : jsstring := hd [] m.

Definition digit : N -> bool := Str.isDigit.
Definition digitOrComma (c : N) : bool := Str.isDigit c || (c =? 44)%N.
Definition digitOrDot (c : N) : bool := Str.isDigit c || (c =? 46)%N.
Definition space : N -> bool := Str.isWhiteSpace.

(** [/(\d+)\/(\d+)/] *)
Definition reFraction : list atom :=
  [Rep digit 1; Lit (Str.u "/"); Rep digit 1].

(** [/([\d,]+)\s*\/\s*([\d,]+)/] *)
Definition reCommaFraction : list atom :=
  [Rep digitOrComma 1; Rep space 0; Lit (Str.u "/"); Rep space 0;
   Rep digitOrComma 1].

(** [/(\d+)\s*\/\s*([\d,]+)/] *)
Definition reSitUps : list atom :=
  [Rep digit 1; Rep space 0; Lit (Str.u "/"); Rep space 0;
   Rep digitOrComma 1].

(** The Marathi word for minutes,
    U+092E U+093F U+0928 U+093F U+091F U+0947. *)
Definition minite : jsstring :=
  [0x092E; 0x093F; 0x0928; 0x093F; 0x091F; 0x0947]%N.

(** The Marathi word for completed, U+092A U+0942 U+0930 U+094D U+0923. *)
Definition purna : jsstring :=
  [0x092A; 0x0942; 0x0930; 0x094D; 0x0923]%N.

(** [/([\d.]+)\s*minite/] *)
Definition reMinutes : list atom :=
  [Rep digitOrDot 1; Rep space 0; Lit minite].

(** [/(\d+)\s*purna/] *)
Definition reCompleted : list atom :=
  [Rep digit 1; Rep space 0; Lit purna].

End Regex.

(** ** [parseInt], [parseFloat] and number formatting *)

Module Parse.

(** The longest prefix of [s] in the class, and the rest. *)
Fixpoint span (cls : N -> bool) (s : jsstring) : jsstring * jsstring :=
  match s with
  | c :: s' =>
      if cls c then let '(a, b) := span cls s' in (c :: a, b) else ([], s)
  | [] => ([], [])
  end.

(** The value of a digit in radix 16 (the decimal digits included). *)
Definition hexValue (c : N) : option Z :=
  if ((48 <=? c) && (c <=? 57))%N then Some (Z.of_N c - 48)
  else if ((97 <=? c) && (c <=? 102))%N then Some (Z.of_N c - 87)
  else if ((65 <=? c) && (c <=? 70))%N then Some (Z.of_N c - 55)
  else None.

Definition isHexDigit (c : N) : bool := bool_decide (is_Some (hexValue c)).

(** The integer written by the digits [ds] in the radix. *)
Definition digitsValue (radix : Z) (ds : jsstring) : Z :=
  fold_left (fun acc c => acc * radix + default 0 (hexValue c)) ds 0.

(** An optional sign: [true] for a minus. *)
Definition sign (s : jsstring) : bool * jsstring :=
  match s with
  | 45%N :: s' => (true, s')
  | 43%N :: s' => (false, s')
  | _ => (false, s)
  end.

Definition signed (minus : bool) (z : Z) : Z := if minus then - z else z.

(** [parseInt(s)] with no radix argument: leading white space, a sign, an
    optional [0x] prefix selecting radix 16, then the longest run of digits;
    [NaN] when there is none.  The value is the exact integer: it is the
    value of JavaScript below [2 ^ 53]; beyond, JavaScript rounds it to
    binary64, and to [Infinity] when it is out of range. *)
Definition parseInt (s : jsstring) : number :=
  let '(minus, s1) := sign (Str.trimStart s) in
  let '(radix, cls, s2) :=
    match s1 with
    | 48%N :: 120%N :: t | 48%N :: 88%N :: t => (16, isHexDigit, t)
    | _ => (10, Str.isDigit, s1)
    end in
  let '(ds, _) := span cls s2 in
  match ds with
  | [] => NaN
  | _ => Num.of_Z (signed minus (digitsValue radix ds))
  end.

(** The exponent part [e], [e+] or [e-] followed by digits; 0 when absent. *)
Definition exponent (s : jsstring) : Z :=
  match s with
  | c :: s' =>
      if ((c =? 101) || (c =? 69))%N then
        let '(minus, s1) := sign s' in
        let '(ds, _) := span Str.isDigit s1 in
        match ds with
        | [] => 0
        | _ => signed minus (digitsValue 10 ds)
        end
      else 0
  | [] => 0
  end.

(** [parseFloat(s)]: leading white space, then the longest prefix that is a
    decimal literal ([Infinity], digits with an optional fraction and
    exponent); [NaN] when there is none.  The value is the exact decimal: it
    is the value of JavaScript for the whole numbers below [2 ^ 53]; in
    general JavaScript rounds it to binary64, and to [Infinity] when it is
    out of range. *)
Definition parseFloat (s : jsstring) : number :=
  let '(minus, s1) := sign (Str.trimStart s) in
  match Str.stripPrefix (Str.u "Infinity") s1 with
  | Some _ => if minus then NegInf else PosInf
  | None =>
      let '(ip, s2) := span Str.isDigit s1 in
      let '(fp, s3) :=
        match s2 with
        | 46%N :: t => span Str.isDigit t
        | _ => ([], s2)
        end in
      match ip ++ fp with
      | [] => NaN
      | ds =>
          let e := exponent s3 - Z.of_nat (length fp) in
          Fin (Qred (inject_Z (signed minus (digitsValue 10 ds))
                     * Qpower (inject_Z 10) e))
      end
  end.

(** The decimal digits of an array index, as a template literal prints it. *)
Definition ofIndex (n : nat) : jsstring :=
  Str.u (NilZero.string_of_uint (Nat.to_uint n)).

End Parse.

(** ** The data model (the [Goal] interface, [constants.ts]) *)

Module Goal.

Record t : Type := mk {
  id : jsstring;
  name : jsstring;
  current : number;
  target : number;
  unit : jsstring;
  category : jsstring;
}.

(** [goal.current = v] on a goal value. *)
Definition setCurrent (v : number) (g : t) : t :=
  mk (id g) (name g) v (target g) (unit g) (category g).

End Goal.

Definition INITIAL_DATA : list Goal.t :=
  [ Goal.mk (Str.u "running") (Str.u "Running (1 Mile)")
      (Fin 3) (Fin 51) (Str.u "Miles") (Str.u "physical");
    Goal.mk (Str.u "gym") (Str.u "Gym Sessions")
      (Fin 2) (Fin 51) (Str.u "Sessions") (Str.u "physical");
    Goal.mk (Str.u "jump-ropes") (Str.u "Jump Ropes")
      (Fin 2028) (Fin 51000) (Str.u "Ropes") (Str.u "physical");
    Goal.mk (Str.u "sit-ups") (Str.u "Sit-ups")
      (Fin 65) (Fin 5000) (Str.u "Reps") (Str.u "physical");
    Goal.mk (Str.u "manache-shlok") (Str.u "Manache Shlok")
      (Fin 22) (Fin 51) (Str.u "Shloks") (Str.u "mental");
    Goal.mk (Str.u "shir-sasan") (Str.u "Shir-sasan")
      (Fin (3 # 2)) (Fin 100) (Str.u "Minutes") (Str.u "physical");
    Goal.mk (Str.u "surya-namaskar") (Str.u "Surya Namaskar")
      (Fin 12) (Fin 500) (Str.u "Reps") (Str.u "physical");
    Goal.mk (Str.u "push-ups") (Str.u "Push-ups")
      (Fin 11) (Fin 500) (Str.u "Reps") (Str.u "physical") ].

(** ** Derived values of the component (the [useMemo] computations) *)

Record Stats : Type := mkStats {
  averageProgress : number;
  completedGoals : nat;
  totalGoals : nat;
}.

(** [stats], the specification's [computeStats]. *)
Definition stats (goals : list Goal.t) : Stats :=
  let totalProgress :=
    (fold_left (fun acc goal => acc + Goal.current goal / Goal.target goal)
       goals (Fin 0) / Num.of_nat (length goals))%num in
  {| averageProgress := (totalProgress * Fin 100)%num;
     completedGoals :=
       length (List.filter
                 (fun g => (Goal.current g >=? Goal.target g)%num) goals);
     totalGoals := length goals |}.

Module Chart.

Record entry : Type := mk {
  name : jsstring;
  progress : number;
  remaining : number;
}.

End Chart.

(** [chartData], the specification's [computeChartData]. *)
Definition chartData (goals : list Goal.t) : list Chart.entry :=
  List.map
    (fun g =>
       {| Chart.name := Goal.name g;
          Chart.progress :=
            Num.min (Goal.current g / Goal.target g * Fin 100)%num (Fin 100);
          Chart.remaining :=
            Num.max
              (Fin 100 - Goal.current g / Goal.target g * Fin 100)%num
              (Fin 0) |})
    goals.

(** [filteredGoals]; [None] is the selection ['all']. *)
Definition filteredGoals (selectedCategory : option jsstring)
    (goals : list Goal.t) : list Goal.t :=
  match selectedCategory with
  | None => goals
  | Some c => List.filter (fun g => Str.eqb (Goal.category g) c) goals
  end.

Record TimeProgress : Type := mkTimeProgress {
  percentage : number;
  daysLeft : number;
  daysElapsed : number;
}.

(** Milliseconds in a day, [1000 * 60 * 60 * 24]. *)
Definition msPerDay : number := Num.of_Z (1000 * 60 * 60 * 24).

(** [timeProgress], the specification's [computeTimeProgress]; the three
    arguments are the results of [getTime()] on the start date, the target
    date and the current date. *)
Definition timeProgress (start end_ now : number) : TimeProgress :=
  let total := (end_ - start)%num in
  let elapsed := (now - start)%num in
  {| percentage :=
       Num.min (Num.max (elapsed / total * Fin 100)%num (Fin 0)) (Fin 100);
     daysLeft := Num.ceil ((end_ - now) / msPerDay)%num;
     daysElapsed := Num.floor ((now - start) / msPerDay)%num |}.

(** ** The component state and the handler monad *)

(** The messages shown with [alert]. *)
Inductive Alert : Type :=
| AlertParseError                  (* 'Error parsing data. Please check the format.' *)
| AlertConfigMissing               (* 'Google Sheets configuration missing. ...' *)
| AlertNoData                      (* 'No data found in the specified range ...' *)
| AlertSynced (matchCount : nat)   (* 'Successfully synced! Loaded n goals ...' *)
| AlertNoValidData                 (* 'No valid goal data found in the sheet.' *)
| AlertTimedOut                    (* 'Sync timed out after 15 seconds. ...' *)
| AlertSyncFailed (message : jsstring). (* 'Sync failed: ...' *)

(** What a [throw] or a rejected promise carries. *)
Inductive Exn : Type :=
| AbortError
| Error (message : jsstring).

Module App.

(** The address of a goal object. *)
Abbreviation ref := nat.

Record State : Type := mkState {
  heap : list Goal.t;        (* the goal objects, by address *)
  goals : list ref;          (* the array held by [useState<Goal[]>] *)
  rawText : jsstring;
  isUpdateModalOpen : bool;
  isSyncing : bool;
  alerts : list Alert;       (* the alerts shown so far, oldest first *)
}.

(** The goal list as the user observes it: the objects the array refers to.
    A reference outside the heap, which no state reached from [initial]
    holds, is skipped. *)
Definition deref (h : list Goal.t) (rs : list ref) : list Goal.t :=
  omap (fun r => h !! r) rs.

Definition view (st : State) : list Goal.t := deref (heap st) (goals st).

(** The state at start-up, [useState<Goal[]>(INITIAL_DATA)]. *)
Definition initial : State :=
  {| heap := INITIAL_DATA;
     goals := seq 0 (length INITIAL_DATA);
     rawText := [];
     isUpdateModalOpen := false;
     isSyncing := false;
     alerts := [] |}.

Inductive Result (A : Type) : Type :=
| Ret (a : A)
| Throw (e : Exn).
Arguments Ret {A} a.
Arguments Throw {A} e.

(** A handler: it returns or throws, and leaves a state either way. *)
Definition M (A : Type) : Type := State -> Result A * State.

#[global] Instance M_ret : MRet M := fun A a st => (Ret a, st).

#[global] Instance M_bind : MBind M := fun A B f m st =>
  match m st with
  | (Ret a, st') => f a st'
  | (Throw e, st') => (Throw e, st')
  end.

#[global] Instance M_throw : MThrow Exn M := fun A e st => (Throw e, st).

(** [try { body } catch (error) { handler }] *)
Definition tryCatch {A} (body : M A) (handler : Exn -> M A) : M A :=
  fun st =>
    match body st with
    | (Ret a, st') => (Ret a, st')
    | (Throw e, st') => handler e st'
    end.

(** [try { body } finally { cleanup }] *)
Definition tryFinally {A} (body : M A) (cleanup : M unit) : M A :=
  fun st =>
    match body st with
    | (r, st') =>
        match cleanup st' with
        | (Ret _, st'') => (r, st'')
        | (Throw e, st'') => (Throw e, st'')
        end
    end.

Definition get : M State := fun st => (Ret st, st).
Definition modify (f : State -> State) : M unit := fun st => (Ret tt, f st).

Definition setGoals (rs : list ref) : M unit :=
  modify (fun st => mkState (heap st) rs (rawText st)
                      (isUpdateModalOpen st) (isSyncing st) (alerts st)).

Definition setRawText (s : jsstring) : M unit :=
  modify (fun st => mkState (heap st) (goals st) s
                      (isUpdateModalOpen st) (isSyncing st) (alerts st)).

Definition setIsUpdateModalOpen (b : bool) : M unit :=
  modify (fun st => mkState (heap st) (goals st) (rawText st)
                      b (isSyncing st) (alerts st)).

Definition setIsSyncing (b : bool) : M unit :=
  modify (fun st => mkState (heap st) (goals st) (rawText st)
                      (isUpdateModalOpen st) b (alerts st)).

Definition alert (a : Alert) : M unit :=
  modify (fun st => mkState (heap st) (goals st) (rawText st)
                      (isUpdateModalOpen st) (isSyncing st)
                      (alerts st ++ [a])).

Definition setHeap (h : list Goal.t) : M unit :=
  modify (fun st => mkState h (goals st) (rawText st)
                      (isUpdateModalOpen st) (isSyncing st) (alerts st)).

(** [goal.current = v] on the object at [r]: every array that holds [r]
    sees the new value. *)
Definition assignCurrent (r : ref) (v : number) : M unit :=
  st ← get;
  match heap st !! r with
  | Some g => setHeap (<[r := Goal.setCurrent v g]> (heap st))
  | None => mret tt
  end.

(** [arr.find(g => g.id === goalId)]: the first reference of [arr] whose
    object has the id. *)
Definition findById (arr : list ref) (goalId : jsstring) : M (option ref) :=
  st ← get;
  mret (List.find
          (fun r => match heap st !! r with
                    | Some g => Str.eqb (Goal.id g) goalId
                    | None => false
                    end)
          arr).

(** New objects for the goal values [gs], an array of references to them.
    The object literals of the sync loop are allocated here, when the array
    is committed: nothing reads them before. *)
Definition allocate (gs : list Goal.t) : M (list ref) :=
  st ← get;
  setHeap (heap st ++ gs);;
  mret (seq (length (heap st)) (length gs)).

(** [arr.forEach(f)] *)
Fixpoint forEach {A} (f : A -> M unit) (arr : list A) : M unit :=
  match arr with
  | [] => mret tt
  | x :: rest => f x;; forEach f rest
  end.

End App.

(** ** Text ingestion: [handleUpdate] *)

Module Text.
Import App.

(** One branch of the parser: when the pattern matches the line, the goal
    with the id is looked up in [newGoals] and, if found, its [current] is
    assigned the number parsed from the first group. *)
Definition update (newGoals : list ref) (line : jsstring)
    (re : list Regex.atom) (goalId : jsstring)
    (parse : jsstring -> number) : M unit :=
  match Regex.exec re line with
  | Some m =>
      goal ← findById newGoals goalId;
      match goal with
      | Some r => assignCurrent r (parse (Regex.group1 m))
      | None => mret tt
      end
  | None => mret tt
  end.

(** The anchors, in the order of the [if]/[else if] chain. *)
Definition anchors : list jsstring :=
  [ Str.u "Running"; Str.u "Jump Ropes"; Str.u "Sit-ups";
    Str.u "Manache Shlok"; Str.u "Shir-sasan"; Str.u "Mom's Progress";
    Str.u "Surya Namaskar"; Str.u "Push-ups" ].

(** The body of [lines.forEach(line => ...)]. *)
Definition processLine (newGoals : list ref) (line : jsstring) : M unit :=
  if Str.includes line (Str.u "Running") then
    update newGoals line Regex.reFraction (Str.u "running") Parse.parseInt
  else if Str.includes line (Str.u "Jump Ropes") then
    update newGoals line Regex.reCommaFraction (Str.u "jump-ropes")
      (fun g => Parse.parseInt (Str.removeCommas g))
  else if Str.includes line (Str.u "Sit-ups") then
    update newGoals line Regex.reSitUps (Str.u "sit-ups") Parse.parseInt
  else if Str.includes line (Str.u "Manache Shlok") then
    update newGoals line Regex.reFraction (Str.u "manache-shlok")
      Parse.parseInt
  else if Str.includes line (Str.u "Shir-sasan") then
    update newGoals line Regex.reMinutes (Str.u "shir-sasan")
      Parse.parseFloat
  else if Str.includes line (Str.u "Mom's Progress") then
    update newGoals line Regex.reFraction (Str.u "moms-progress")
      Parse.parseInt
  else if Str.includes line (Str.u "Surya Namaskar") then
    update newGoals line Regex.reCompleted (Str.u "surya-namaskar")
      Parse.parseInt
  else if Str.includes line (Str.u "Push-ups") then
    update newGoals line Regex.reCompleted (Str.u "push-ups") Parse.parseInt
  else mret tt.

(** The statements of the [try] block up to and including the loop:
    [newGoals] is a copy of the array, holding the same references. *)
Definition parseLines : M (list ref) :=
  st ← get;
  let newGoals := goals st in
  let lines := Str.splitLines (rawText st) in
  forEach (processLine newGoals) lines;;
  mret newGoals.

Definition handleUpdate : M unit :=
  tryCatch
    (newGoals ← parseLines;
     setGoals newGoals;;
     setIsUpdateModalOpen false;;
     setRawText [])
    (fun _ => alert AlertParseError).

(** The user pastes [text] in the dialog and presses the update button. *)
Definition paste (text : jsstring) (st : State) : State :=
  mkState (heap st) (goals st) text true (isSyncing st) (alerts st).

Definition ingest (text : jsstring) (st : State) : Result unit * State :=
  handleUpdate (paste text st).

End Text.

(** ** Tabular ingestion: [fetchFromGoogleSheets] *)

Module Sheet.
Import App.

(** A row of the [values] grid: the cells are strings, as the range-read
    endpoint renders them; a short row has fewer cells. *)
Abbreviation row := (list jsstring).

(** The truth value of a cell [row[i]]: [undefined] and the empty string are
    false. *)
Definition truthy (cell : option jsstring) : bool :=
  match cell with
  | Some (_ :: _) => true
  | _ => false
  end.

Definition knownCategories : list jsstring :=
  [Str.u "physical"; Str.u "mental"; Str.u "other"].

(** The body of [rows.forEach((row, index) => ...)] on the accumulator
    [(syncedGoals, matchCount)]. *)
Definition syncRow (index : nat) (r : row) (acc : list Goal.t * nat)
    : list Goal.t * nat :=
  let '(syncedGoals, matchCount) := acc in
  if negb (truthy (r !! 0%nat))
     || Str.eqb (Str.trim (default [] (r !! 0%nat))) []
  then acc
  else
    let nameFromSheet := Str.trim (default [] (r !! 0%nat)) in
    let currentVal :=
      if truthy (r !! 1%nat)
      then Parse.parseFloat (Str.removeCommas (default [] (r !! 1%nat)))
      else Fin 0 in
    let targetVal :=
      if truthy (r !! 2%nat)
      then Parse.parseFloat (Str.removeCommas (default [] (r !! 2%nat)))
      else Fin 100 in
    let unitVal :=
      if truthy (r !! 3%nat) then Str.trim (default [] (r !! 3%nat))
      else Str.u "Units" in
    let rawCategory :=
      if truthy (r !! 4%nat)
      then Str.toLowerCase (Str.trim (default [] (r !! 4%nat)))
      else Str.u "physical" in
    let categoryVal :=
      if existsb (Str.eqb rawCategory) knownCategories then rawCategory
      else Str.u "physical" in
    (syncedGoals ++
       [ {| Goal.id :=
              Str.u "sheet-" ++ Parse.ofIndex index ++ Str.u "-"
              ++ Str.toLowerCase (Str.hyphenate nameFromSheet);
            Goal.name := nameFromSheet;
            Goal.current := if Num.isNaN currentVal then Fin 0 else currentVal;
            Goal.target := if Num.isNaN targetVal then Fin 100 else targetVal;
            Goal.unit := unitVal;
            Goal.category := categoryVal |} ],
     S matchCount).

Fixpoint forEachRow (index : nat) (rows : list row)
    (acc : list Goal.t * nat) : list Goal.t * nat :=
  match rows with
  | [] => acc
  | r :: rest => forEachRow (S index) rest (syncRow index r acc)
  end.

(** [syncedGoals] and [matchCount] after the loop over the rows. *)
Definition syncRows (rows : list row) : list Goal.t * nat :=
  forEachRow 0 rows ([], 0%nat).

(** The environment and the network, as the handler sees them. *)
Record Env : Type := mkEnv {
  VITE_GOOGLE_SHEET_ID : option jsstring;
  VITE_GOOGLE_API_KEY : option jsstring;
}.

(** The body of a response as [response.json()] gives it: a rejection on a
    malformed body, else the object's [values] field and its
    [error.message] field. *)
Inductive Body : Type :=
| Malformed (message : jsstring)
| Json (values : option (list row)) (errorMessage : option jsstring).

(** The outcome of [fetch(url, { signal })]: aborted by the 15 second timer,
    rejected by the transport, or a response. *)
Inductive Fetched : Type :=
| Aborted
| Rejected (message : jsstring)
| Response (ok : bool) (status : nat) (body : Body).

Definition idChar (c : N) : bool :=
  ((97 <=? c) && (c <=? 122) || (65 <=? c) && (c <=? 90)
   || (48 <=? c) && (c <=? 57) || (c =? 45) || (c =? 95))%N.

(** [/\/d\/([a-zA-Z0-9-_]+)/]; the group is the second atom. *)
Definition reSheetId : list Regex.atom :=
  [Regex.Lit (Str.u "/d/"); Regex.Rep idChar 1].

(** The sheet id of the configuration: the id inside a pasted URL. *)
Definition sheetIdOf (env : Env) : jsstring :=
  let sheetId := default [] (VITE_GOOGLE_SHEET_ID env) in
  if Str.includes sheetId (Str.u "docs.google.com/spreadsheets/d/") then
    match Regex.exec reSheetId sheetId with
    | Some m => nth 1 m []
    | None => sheetId
    end
  else sheetId.

Definition range : jsstring := Str.u "Sheet1!A2:E50".

Definition urlOf (sheetId apiKey : jsstring) : jsstring :=
  Str.u "https://sheets.googleapis.com/v4/spreadsheets/" ++ sheetId
  ++ Str.u "/values/" ++ range ++ Str.u "?key=" ++ apiKey.

(** [await fetch(url, ...)] *)
Definition await (f : Fetched) : M (bool * nat * Body) :=
  match f with
  | Aborted => mthrow AbortError
  | Rejected message => mthrow (Error message)
  | Response ok status body => mret (ok, status, body)
  end.

Definition fetchFromGoogleSheets (env : Env) (fetch : jsstring -> Fetched)
    : M unit :=
  let sheetId := sheetIdOf env in
  let apiKey := VITE_GOOGLE_API_KEY env in
  if negb (truthy (Some sheetId)) || negb (truthy apiKey) then
    alert AlertConfigMissing
  else
    setIsSyncing true;;
    tryFinally
      (tryCatch
         ('(ok, status, body) ← await (fetch (urlOf sheetId (default [] apiKey)));
          (if negb ok then
             match body with
             | Json _ (Some (c :: message)) => mthrow (Error (c :: message))
             | _ => mthrow (Error (Str.u "HTTP error! status: "
                                   ++ Parse.ofIndex status))
             end
           else mret tt);;
          rows ← match body with
                 | Malformed message => mthrow (Error message)
                 | Json values _ => mret values
                 end;
          match rows with
          | None | Some [] => alert AlertNoData
          | Some rows =>
              let '(syncedGoals, matchCount) := syncRows rows in
              if (0 <? length syncedGoals)%nat then
                rs ← allocate syncedGoals;
                setGoals rs;;
                alert (AlertSynced matchCount)
              else alert AlertNoValidData
          end)
         (fun error =>
            match error with
            | AbortError => alert AlertTimedOut
            | Error message => alert (AlertSyncFailed message)
            end))
      (setIsSyncing false).

End Sheet.

(** ** The memoised values as readers of the state *)

(** The callback of [useMemo(() => ..., [goals])] that computes [stats]: it
    reads the array and the objects it refers to. *)
Definition useStats : App.M Stats :=
  st ← App.get; mret (stats (App.view st)).

(** ** Values computed while rendering *)

(** The data of the "Category Focus" pie: the number of goals of each
    category. *)
Definition categoryFocus (goals : list Goal.t) : list (jsstring * nat) :=
  [ (Str.u "Physical",
     length (List.filter
               (fun g => Str.eqb (Goal.category g) (Str.u "physical")) goals));
    (Str.u "Mental",
     length (List.filter
               (fun g => Str.eqb (Goal.category g) (Str.u "mental")) goals));
    (Str.u "Other",
     length (List.filter
               (fun g => Str.eqb (Goal.category g) (Str.u "other")) goals)) ].

Module Milestone.

Record item : Type := mk {
  label : jsstring;
  count : nat;
  color : jsstring;
}.

(** The tests of the five rows of the "Milestone Breakdown". *)
Definition completed (g : Goal.t) : bool :=
  (Goal.current g / Goal.target g >=? Fin 1)%num.

Definition advanced (g : Goal.t) : bool :=
  (Goal.current g / Goal.target g >=? Fin (3 # 4))%num
  && Num.ltb (Goal.current g / Goal.target g)%num (Fin 1).

Definition steady (g : Goal.t) : bool :=
  (Goal.current g / Goal.target g >=? Fin (1 # 2))%num
  && Num.ltb (Goal.current g / Goal.target g)%num (Fin (3 # 4)).

Definition starting (g : Goal.t) : bool :=
  Num.ltb (Fin 0) (Goal.current g / Goal.target g)%num
  && Num.ltb (Goal.current g / Goal.target g)%num (Fin (1 # 2)).

Definition notStarted (g : Goal.t) : bool :=
  Num.strict_eq (Goal.current g) (Fin 0).

End Milestone.

(** The rows of the "Milestone Breakdown". *)
Definition milestones (goals : list Goal.t) : list Milestone.item :=
  [ Milestone.mk (Str.u "Completed (100%)")
      (length (List.filter Milestone.completed goals))
      (Str.u "bg-emerald-500");
    Milestone.mk (Str.u "Advanced (75-99%)")
      (length (List.filter Milestone.advanced goals))
      (Str.u "bg-blue-500");
    Milestone.mk (Str.u "Steady (50-74%)")
      (length (List.filter Milestone.steady goals))
      (Str.u "bg-indigo-500");
    Milestone.mk (Str.u "Starting (1-49%)")
      (length (List.filter Milestone.starting goals))
      (Str.u "bg-orange-500");
    Milestone.mk (Str.u "Not Started (0%)")
      (length (List.filter Milestone.notStarted goals))
      (Str.u "bg-slate-300") ].

(** The width of the bar of a row, [(item.count / goals.length) * 100]. *)
Definition milestoneWidth (goals : list Goal.t) (item : Milestone.item)
    : number :=
  (Num.of_nat (Milestone.count item) / Num.of_nat (length goals)
   * Fin 100)%num.

Module Card.

(** The values of the card of a goal: [progress], the width of the bar
    [Math.min(progress, 100)], and whether the bar has the colour of a
    completed goal, [progress >= 100]. *)
Definition progress (g : Goal.t) : number :=
  (Goal.current g / Goal.target g * Fin 100)%num.

Definition width (g : Goal.t) : number := Num.min (progress g) (Fin 100).

Definition emerald500 (g : Goal.t) : bool := (progress g >=? Fin 100)%num.

End Card.

(** * Definitions of the specification *)

(** ** Statistics *)

(** The ratio current/target of a goal. *)
Definition ratio (g : Goal.t) : number :=
  (Goal.current g / Goal.target g)%num.

(** The sum of a list of numbers. *)
Fixpoint total (xs : list number) : number :=
  match xs with
  | [] => Fin 0
  | x :: rest => (x + total rest)%num
  end.

(** The mean over all goals of current/target, scaled to percent. *)
Definition meanPercent (goals : list Goal.t) : number :=
  (total (ratio <$> goals) / Num.of_nat (length goals) * Fin 100)%num.

(** The count of the goals with current >= target. *)
Fixpoint countCompleted (goals : list Goal.t) : nat :=
  match goals with
  | [] => 0
  | g :: rest =>
      ((if (Goal.current g >=? Goal.target g)%num then 1 else 0)
       + countCompleted rest)%nat
  end.

(** A goal with finite values and a positive target. *)
Definition wellFormed (g : Goal.t) : Prop :=
  ∃ c t : Q, Goal.current g = Fin c ∧ Goal.target g = Fin t ∧ (0 < t)%Q.

(** The ratio of a well-formed goal, as a rational. *)
Definition qratio (g : Goal.t) : Q :=
  match Goal.current g, Goal.target g with
  | Fin c, Fin t => (c / t)%Q
  | _, _ => 0%Q
  end.

Definition count (n : nat) : Q := inject_Z (Z.of_nat n).

Fixpoint Qsum (rs : list Q) : Q :=
  match rs with
  | [] => 0%Q
  | r :: rest => (r + Qsum rest)%Q
  end.

(** The average is 100 exactly when every goal has current == target. *)
Definition average100Claim (goals : list Goal.t) : Prop :=
  averageProgress (stats goals) ≡ Fin 100
  ↔ Forall (fun g => Goal.current g ≡ Goal.target g) goals.

(** ** Chart entries *)

(** The progress of an entry is in [0,100] and adds up to 100 with what
    remains. *)
Definition chartClaim (e : Chart.entry) : Prop :=
  (Fin 0 <= Chart.progress e)%num ∧ (Chart.progress e <= Fin 100)%num
  ∧ (Chart.progress e + Chart.remaining e)%num ≡ Fin 100.

(** The formulas of the specification for the entry of a goal. *)
Definition chartFormulas (g : Goal.t) (e : Chart.entry) : Prop :=
  Chart.name e = Goal.name g
  ∧ Chart.progress e = Num.min (ratio g * Fin 100)%num (Fin 100)
  ∧ Chart.remaining e ≡ Num.max (Fin 100 - Chart.progress e)%num (Fin 0).

(** ** The time window *)

(** [clamp(x, lo, hi)] *)
Definition clamp (x lo hi : number) : number :=
  if Num.ltb x lo then lo else if Num.ltb hi x then hi else x.

(** The elapsed part of the window from [s] to [e] at time [n]. *)
Definition elapsedRatio (s e n : Q) : Q := ((n - s) / (e - s))%Q.

(** ** Text ingestion *)

(** [p] is a substring of [s]. *)
Definition occursIn (p s : jsstring) : Prop :=
  ∃ pre post, s = pre ++ p ++ post.

(** The line contains none of the anchors. *)
Definition noAnchor (line : jsstring) : Prop :=
  Forall (fun a => ¬ occursIn a line) Text.anchors.

(** The goals of the seed with [v] as the current value of ['running']: the
    records of [constants.ts], written out field by field. *)
Definition seedWith (v : number) : list Goal.t :=
  [ Goal.mk (Str.u "running") (Str.u "Running (1 Mile)")
      v (Fin 51) (Str.u "Miles") (Str.u "physical");
    Goal.mk (Str.u "gym") (Str.u "Gym Sessions")
      (Fin 2) (Fin 51) (Str.u "Sessions") (Str.u "physical");
    Goal.mk (Str.u "jump-ropes") (Str.u "Jump Ropes")
      (Fin 2028) (Fin 51000) (Str.u "Ropes") (Str.u "physical");
    Goal.mk (Str.u "sit-ups") (Str.u "Sit-ups")
      (Fin 65) (Fin 5000) (Str.u "Reps") (Str.u "physical");
    Goal.mk (Str.u "manache-shlok") (Str.u "Manache Shlok")
      (Fin 22) (Fin 51) (Str.u "Shloks") (Str.u "mental");
    Goal.mk (Str.u "shir-sasan") (Str.u "Shir-sasan")
      (Fin (3 # 2)) (Fin 100) (Str.u "Minutes") (Str.u "physical");
    Goal.mk (Str.u "surya-namaskar") (Str.u "Surya Namaskar")
      (Fin 12) (Fin 500) (Str.u "Reps") (Str.u "physical");
    Goal.mk (Str.u "push-ups") (Str.u "Push-ups")
      (Fin 11) (Fin 500) (Str.u "Reps") (Str.u "physical") ].

(** The state at start-up with these goals: eight objects, and the array of
    the references to them. *)
Definition seedWithRunning (v : number) : App.State :=
  App.mkState (seedWith v) [0; 1; 2; 3; 4; 5; 6; 7]%nat [] false false [].

(** What is kept by the statements that only assign to goal objects. *)
Definition frame (st st' : App.State) : Prop :=
  App.goals st' = App.goals st ∧ App.rawText st' = App.rawText st
  ∧ App.isUpdateModalOpen st' = App.isUpdateModalOpen st
  ∧ App.isSyncing st' = App.isSyncing st ∧ App.alerts st' = App.alerts st.


(** ** Tabular ingestion *)

(** The name cell of the row is present and not blank after trimming. *)
Definition validRow (r : Sheet.row) : Prop :=
  ∃ name, r !! 0%nat = Some name ∧ Str.trim name ≠ [].

(** The id synthesised for the row at [index] with the slug of its name. *)
Definition sheetGoalId (index : nat) (slug : jsstring) : jsstring :=
  Str.u "sheet-" ++ Parse.ofIndex index ++ Str.u "-" ++ slug.

(** The sheet id and the API key are set. *)
Definition configured (env : Sheet.Env) : Prop :=
  Sheet.truthy (Some (Sheet.sheetIdOf env)) = true
  ∧ Sheet.truthy (Sheet.VITE_GOOGLE_API_KEY env) = true.

(** The URL the handler requests. *)
Definition requestOf (env : Sheet.Env) : jsstring :=
  Sheet.urlOf (Sheet.sheetIdOf env)
    (default [] (Sheet.VITE_GOOGLE_API_KEY env)).

(** Every alert but the success message reports a failure. *)
Definition isFailure (a : Alert) : Prop :=
  match a with AlertSynced _ => False | _ => True end.

(** Neither the array nor any goal object has changed. *)
Definition unchanged (st st' : App.State) : Prop :=
  App.heap st' = App.heap st ∧ App.goals st' = App.goals st.

(** ** Sample runs of the embedding *)

(** The current value of the goal at position [i] of the observed list. *)
Definition currentAt (i : nat) (st : App.State) : option number :=
  Goal.current <$> (App.view st !! i).

(** ** Text ingestion as a function of the lines *)

Section TextModel.
Import App.

(** [g'] is [g] up to its current value: the id, the name, the target, the
    unit and the category are those of [g]. *)
Definition sameButCurrent (g g' : Goal.t) : Prop :=
  g' = Goal.setCurrent (Goal.current g') g.

(** The state with the heap [h]. *)
Definition withHeap (h : list Goal.t) (st : State) : State :=
  mkState h (goals st) (rawText st) (isUpdateModalOpen st) (isSyncing st)
    (alerts st).

(** The goal id and the number that a line assigns, if any: the chain of
    tests of [processLine], without the search for the goal. *)
Definition lineUpdate (line : jsstring) : option (jsstring * number) :=
  let branch (re : list Regex.atom) (goalId : jsstring)
             (parse : jsstring → number) :=
    (fun m => (goalId, parse (Regex.group1 m))) <$> Regex.exec re line in
  if Str.includes line (Str.u "Running") then
    branch Regex.reFraction (Str.u "running") Parse.parseInt
  else if Str.includes line (Str.u "Jump Ropes") then
    branch Regex.reCommaFraction (Str.u "jump-ropes")
      (fun g => Parse.parseInt (Str.removeCommas g))
  else if Str.includes line (Str.u "Sit-ups") then
    branch Regex.reSitUps (Str.u "sit-ups") Parse.parseInt
  else if Str.includes line (Str.u "Manache Shlok") then
    branch Regex.reFraction (Str.u "manache-shlok") Parse.parseInt
  else if Str.includes line (Str.u "Shir-sasan") then
    branch Regex.reMinutes (Str.u "shir-sasan") Parse.parseFloat
  else if Str.includes line (Str.u "Mom's Progress") then
    branch Regex.reFraction (Str.u "moms-progress") Parse.parseInt
  else if Str.includes line (Str.u "Surya Namaskar") then
    branch Regex.reCompleted (Str.u "surya-namaskar") Parse.parseInt
  else if Str.includes line (Str.u "Push-ups") then
    branch Regex.reCompleted (Str.u "push-ups") Parse.parseInt
  else None.

(** The first reference of the array whose object has the id. *)
Definition refOf (arr : list ref) (h : list Goal.t) (goalId : jsstring)
    : option ref :=
  List.find (fun r => match h !! r with
                      | Some g => Str.eqb (Goal.id g) goalId
                      | None => false
                      end) arr.

(** The assignment a line makes on the heap: the object and the number. *)
Definition resolve (arr : list ref) (h : list Goal.t) (line : jsstring)
    : option (ref * number) :=
  '(goalId, v) ← lineUpdate line;
  r ← refOf arr h goalId;
  Some (r, v).

(** The heap after an assignment. *)
Definition applyOp (op : option (ref * number)) (h : list Goal.t)
    : list Goal.t :=
  match op with
  | Some (r, v) => alter (Goal.setCurrent v) r h
  | None => h
  end.

(** The heap after the loop over the lines. *)
Fixpoint runLines (arr : list ref) (lines : list jsstring)
    (h : list Goal.t) : list Goal.t :=
  match lines with
  | [] => h
  | line :: rest => runLines arr rest (applyOp (resolve arr h line) h)
  end.

(** The heap after a list of assignments. *)
Definition applyOps (ops : list (option (ref * number))) (h : list Goal.t)
    : list Goal.t :=
  fold_left (fun h op => applyOp op h) ops h.

(** The number of the last assignment to the object at [r]. *)
Fixpoint lastFor (r : ref) (ops : list (option (ref * number)))
    : option number :=
  match ops with
  | [] => None
  | op :: rest =>
      match lastFor r rest with
      | Some v => Some v
      | None => match op with
                | Some (r', v) => if decide (r' = r) then Some v else None
                | None => None
                end
      end
  end.

(** The object after its last assignment, if it has one. *)
Definition setLast (last : option number) (g : Goal.t) : Goal.t :=
  match last with Some v => Goal.setCurrent v g | None => g end.

(** The repetition [c*] or [c+] of [Regex.matchHere] in front of the
    continuation [k]. *)
Definition repFrom (k : jsstring → option (list jsstring)) (cls : N → bool)
    (least : nat) : jsstring → jsstring → option (list jsstring) :=
  fix rep (taken s : jsstring) {struct s} : option (list jsstring) :=
    let stop :=
      if (least <=? length taken)%nat
      then cons (rev taken) <$> k s
      else None in
    match s with
    | c :: s' =>
        if cls c
        then match rep (c :: taken) s' with
             | Some r => Some r
             | None => stop
             end
        else stop
    | [] => stop
    end.

(** What the text parser can write: [NaN], [Infinity], or a finite number
    that is not negative.  ([Infinity] is what JavaScript reads from digits
    beyond the range of a number; [Parse.parseInt] and [Parse.parseFloat]
    keep the exact value there.) *)
Definition written (v : number) : Prop :=
  v = NaN ∨ v = PosInf ∨ ∃ q : Q, v = Fin q ∧ (0 <= q)%Q.

(** [Infinity], or a whole number that is not negative. *)
Definition wholeOrInfinite (v : number) : Prop :=
  v = PosInf ∨ ∃ n : Z, 0 <= n ∧ v = Num.of_Z n.

(** The ids that [processLine] looks for. *)
Definition updatableIds : list jsstring :=
  [ Str.u "running"; Str.u "jump-ropes"; Str.u "sit-ups";
    Str.u "manache-shlok"; Str.u "shir-sasan"; Str.u "moms-progress";
    Str.u "surya-namaskar"; Str.u "push-ups" ].

(** A line in the format that the dialog documents,
    [Running (1 Mile): 3/51], with the numbers [n] and [m]. *)
Definition runningLine (n m : nat) : jsstring :=
  Str.u "Running (1 Mile): " ++ Parse.ofIndex n ++ Str.u "/" ++ Parse.ofIndex m.

(** The events of the revision with the pasted-text update: the dialog is
    opened or closed, the text is edited, the update button is pressed. *)
Inductive textStep : State → State → Prop :=
| textStep_open (b : bool) (st : State) :
    textStep st (setIsUpdateModalOpen b st).2
| textStep_type (text : jsstring) (st : State) :
    textStep st (setRawText text st).2
| textStep_update (st : State) :
    textStep st (Text.handleUpdate st).2.

(** The states of that revision. *)
Inductive textReachable : State → Prop :=
| textReachable_initial : textReachable initial
| textReachable_step (st st' : State) :
    textReachable st → textStep st st' → textReachable st'.

End TextModel.

(** ** Tabular ingestion by rows *)

Section SheetModel.
Import App.

(** The goal of the row at [index], when the row has a name. *)
Definition rowGoal (index : nat) (r : Sheet.row) : option Goal.t :=
  match Sheet.syncRow index r ([], 0%nat) with
  | ([g], _) => Some g
  | _ => None
  end.

(** The trimmed name of a row, when it is not blank. *)
Definition rowName (r : Sheet.row) : option jsstring :=
  name ← r !! 0%nat;
  if decide (Str.trim name = []) then None else Some (Str.trim name).

(** The string does not start with white space. *)
Definition startsNonBlank (s : jsstring) : Prop :=
  match s with
  | [] => True
  | c :: _ => Str.isWhiteSpace c = false
  end.

(** What holds of every goal of the seed and of every goal read from a
    sheet: the name is not empty and is trimmed, the category is one of the
    three, and neither number is [NaN]. *)
Definition ingestedGoal (g : Goal.t) : Prop :=
  Goal.name g ≠ [] ∧ Str.trim (Goal.name g) = Goal.name g
  ∧ Goal.category g ∈ Sheet.knownCategories
  ∧ Num.isNaN (Goal.current g) = false
  ∧ Num.isNaN (Goal.target g) = false.

(** The message of the alert after a response that is not ok. *)
Definition httpErrorMessage (status : nat) (body : Sheet.Body) : jsstring :=
  match body with
  | Sheet.Json _ (Some (c :: message)) => c :: message
  | _ => Str.u "HTTP error! status: " ++ Parse.ofIndex status
  end.

(** The part of a pasted URL that [sheetIdOf] looks for. *)
Definition sheetUrlMark : jsstring := Str.u "docs.google.com/spreadsheets/d/".

(** The states that the revision with the spreadsheet sync renders; the
    flag tells whether a request is pending.  The button is disabled while
    [isSyncing] is set, so a run of the handler starts in a state without a
    pending request.  With a configuration the run sets [isSyncing] and
    awaits the response: the component renders that state while the
    request is pending.  The run then ends in the state that
    [fetchFromGoogleSheets] gives, whatever the configuration and the
    response.  (The state of a run between its alert and its [finally]
    block, where the new list is set and the flag still is, is the state
    of a request made at the end of that run.) *)
Inductive syncReachable : bool → State → Prop :=
| syncReachable_initial : syncReachable false initial
| syncReachable_request (env : Sheet.Env) (st : State) :
    syncReachable false st → configured env →
    syncReachable true (setIsSyncing true st).2
| syncReachable_settle (env : Sheet.Env) (fetch : jsstring → Sheet.Fetched)
    (st : State) :
    syncReachable false st →
    syncReachable false (Sheet.fetchFromGoogleSheets env fetch st).2.

End SheetModel.

(** ** Rendering *)

(** [1] for [true], [0] for [false]. *)
Definition b2n (b : bool) : nat := if b then 1%nat else 0%nat.

(** The number of rows of the "Milestone Breakdown" that count the goal. *)
Definition rowsHolding (g : Goal.t) : nat :=
  (b2n (Milestone.completed g) + b2n (Milestone.advanced g)
   + b2n (Milestone.steady g) + b2n (Milestone.starting g)
   + b2n (Milestone.notStarted g))%nat.

(** The goal is one that the rows count: its current value is 0, or its
    ratio current/target, as the rows compute it, is above 0. *)
Definition counted (g : Goal.t) : bool :=
  Num.strict_eq (Goal.current g) (Fin 0)
  || Num.ltb (Fin 0) (Goal.current g / Goal.target g)%num.

(** The sum of the counts of the rows. *)
Definition milestoneTotal (goals : list Goal.t) : nat :=
  foldr (fun item n => (Milestone.count item + n)%nat) 0%nat (milestones goals).

(** A goal with a finite current value that is not negative and a finite
    positive target. *)
Definition progressing (g : Goal.t) : Prop :=
  ∃ c t : Q, Goal.current g = Fin c ∧ Goal.target g = Fin t
             ∧ (0 <= c)%Q ∧ (0 < t)%Q.

(** A goal with a finite positive target. *)
Definition positiveTarget (g : Goal.t) : Prop :=
  ∃ t : Q, Goal.target g = Fin t ∧ (0 < t)%Q.

(** The milliseconds of a day, as a rational. *)
Definition dayLength : Q := inject_Z (1000 * 60 * 60 * 24).

(** * Tactics *)

Ltac qbool :=
  repeat match goal with
  | H : negb _ = true |- _ => apply negb_true_iff in H
  | H : negb _ = false |- _ => apply negb_false_iff in H
  | |- negb _ = true => apply negb_true_iff
  | |- negb _ = false => apply negb_false_iff
  | H : Qeq_bool _ _ = true |- _ => apply (proj1 (Qeq_bool_iff _ _)) in H
  | H : Qeq_bool _ _ = false |- _ =>
      apply (proj2 (not_true_iff_false _)) in H;
      rewrite Qeq_bool_iff in H
  | H : Qle_bool _ _ = true |- _ => apply (proj1 (Qle_bool_iff _ _)) in H
  | H : Qle_bool _ _ = false |- _ =>
      apply (proj2 (not_true_iff_false _)) in H;
      rewrite Qle_bool_iff in H; apply Qnot_le_lt in H
  | H : (_ ?= _)%Q = Eq |- _ => apply (proj2 (Qeq_alt _ _)) in H
  | H : (_ ?= _)%Q = Lt |- _ => apply (proj2 (Qlt_alt _ _)) in H
  | H : (_ ?= _)%Q = Gt |- _ => apply (proj2 (Qgt_alt _ _)) in H
  | |- Qeq_bool _ _ = true => apply (proj2 (Qeq_bool_iff _ _))
  | |- Qle_bool _ _ = true => apply (proj2 (Qle_bool_iff _ _))
  | |- Qeq_bool _ _ = false =>
      apply (proj1 (not_true_iff_false _)); rewrite Qeq_bool_iff
  | |- Qle_bool _ _ = false =>
      apply (proj1 (not_true_iff_false _)); rewrite Qle_bool_iff;
      apply Qlt_not_le
  end.

Ltac qcase_goal :=
  repeat match goal with
  | |- context [Qeq_bool ?a ?b] =>
      let E := fresh "E" in destruct (Qeq_bool a b) eqn:E
  | |- context [Qle_bool ?a ?b] =>
      let E := fresh "E" in destruct (Qle_bool a b) eqn:E
  | |- context [(?a ?= ?b)%Q] =>
      let E := fresh "E" in destruct (a ?= b)%Q eqn:E
  end.

Ltac qcase_hyp :=
  repeat match goal with
  | H : context [if Qeq_bool ?a ?b then _ else _] |- _ =>
      let E := fresh "E" in destruct (Qeq_bool a b) eqn:E
  | H : context [if Qle_bool ?a ?b then _ else _] |- _ =>
      let E := fresh "E" in destruct (Qle_bool a b) eqn:E
  | H : context [if negb (Qle_bool ?a ?b) then _ else _] |- _ =>
      let E := fresh "E" in destruct (Qle_bool a b) eqn:E
  | H : context [match (?a ?= ?b)%Q with _ => _ end] |- _ =>
      let E := fresh "E" in destruct (a ?= b)%Q eqn:E
  end.

Ltac num_simpl :=
  unfold equiv, number_equiv, Num.le, Num.lt, Num.geb, Num.sub in *;
  cbn [Num.eqv Num.add Num.neg Num.mul Num.div Num.leb Num.ltb Num.min
       Num.max Num.inf_times Num.isNaN negb] in *.

(** Case analysis on the comparisons of a goal about numbers, then linear
    arithmetic. *)
Ltac num_crush :=
  num_simpl; unfold Num.inf_times in *;
  repeat (progress (qcase_hyp; qcase_goal; num_simpl));
  repeat split; qbool; try done; try lra.

(** The ten cases of a digit. *)
Ltac split_digit H :=
  destruct H as [-> | [-> | [-> | [-> | [-> | [-> | [-> | [-> | [-> | ->]]]]]]]]].

Arguments Str.u : simpl never.
Arguments Parse.ofIndex : simpl never.
Arguments Sheet.urlOf : simpl never.
Arguments Sheet.syncRows : simpl never.

(** * Properties *)

(** ** Sample runs *)

Example parseFloat_prefix : Parse.parseFloat (Str.u " -12.50e1kg") = Fin (-125).
Proof. reflexivity. Qed.

Example parseInt_hex : Parse.parseInt (Str.u "0x1F") = Fin 31.
Proof. reflexivity. Qed.

Example ingest_jump_ropes :
  currentAt 2 (Text.ingest (Str.u "Jump Ropes: 2,500 / 51,000") App.initial).2
  = Some (Fin 2500).
Proof. reflexivity. Qed.

Example ingest_shir_sasan :
  currentAt 5
    (Text.ingest (Str.u "Shir-sasan: 2.5 " ++ Regex.minite) App.initial).2
  = Some (Fin (5 # 2)).
Proof. reflexivity. Qed.

(** The first anchor of the chain wins. *)
Example ingest_first_anchor :
  let st := (Text.ingest (Str.u "Push-ups after Running: 9/500")
               App.initial).2 in
  currentAt 0 st = Some (Fin 9) ∧ currentAt 7 st = Some (Fin 11).
Proof. split; reflexivity. Qed.

(** An anchor whose pattern does not match changes nothing. *)
Example ingest_no_match :
  App.view (Text.ingest (Str.u "Running: soon") App.initial).2 = INITIAL_DATA.
Proof. reflexivity. Qed.

Example ingest_two_lines :
  let st := (Text.ingest
               (Str.u "Running 5/51" ++ [10%N] ++ Str.u "Sit-ups 70 / 5,000")
               App.initial).2 in
  currentAt 0 st = Some (Fin 5) ∧ currentAt 3 st = Some (Fin 70).
Proof. split; reflexivity. Qed.

Example sheet_id_of_url :
  Sheet.sheetIdOf
    (Sheet.mkEnv
       (Some (Str.u "https://docs.google.com/spreadsheets/d/1AbC-dEf_42/edit"))
       None)
  = Str.u "1AbC-dEf_42".
Proof. reflexivity. Qed.

Example sync_defaults :
  Sheet.syncRows
    [[Str.u "  Morning  Walk "; Str.u "1,200"; Str.u ""; Str.u "";
      Str.u " Other "]]
  = ([ Goal.mk (Str.u "sheet-0-morning-walk") (Str.u "Morning  Walk")
         (Fin 1200) (Fin 100) (Str.u "Units") (Str.u "other") ], 1%nat).
Proof. reflexivity. Qed.

(** ** Arithmetic of numbers *)

#[global] Instance number_equivalence : Equivalence (≡@{number}).
Proof.
  split.
  - intros []; num_crush.
  - intros [] []; num_crush.
  - intros [] [] []; num_crush.
Qed.

#[global] Instance add_proper : Proper ((≡) ==> (≡) ==> (≡)) Num.add.
Proof. intros [] [] ? [] [] ?; num_crush. Qed.

#[global] Instance mul_proper : Proper ((≡) ==> (≡) ==> (≡)) Num.mul.
Proof. intros [] [] ? [] [] ?; num_crush; try nra. Qed.

#[global] Instance div_proper : Proper ((≡) ==> (≡) ==> (≡)) Num.div.
Proof.
  intros [a| | |] [a'| | |] Ha [b| | |] [b'| | |] Hb; num_crush.
  apply Qmult_comp; [done|]. by apply Qinv_comp.
Qed.

#[global] Instance ltb_proper : Proper ((≡) ==> (≡) ==> (=)) Num.ltb.
Proof. intros [] [] ? [] [] ?; num_crush. Qed.

Lemma add_assoc (x y z : number) : (x + (y + z) ≡ x + y + z)%num.
Proof. destruct x, y, z; num_crush. Qed.

Lemma add_0_l (x : number) : (Fin 0 + x ≡ x)%num.
Proof. destruct x; num_crush. Qed.

Lemma add_0_r (x : number) : (x + Fin 0 ≡ x)%num.
Proof. destruct x; num_crush. Qed.

(** ** Statistics *)

(** The left-to-right reduction adds up the ratios. *)
Lemma reduce_total (goals : list Goal.t) (acc : number) :
  fold_left (fun acc goal => acc + Goal.current goal / Goal.target goal)%num
    goals acc ≡ (acc + total (ratio <$> goals))%num.
Proof.
  revert acc. induction goals as [|g goals IH]; intros acc.
  - symmetry. apply add_0_r.
  - rewrite fmap_cons. cbn [fold_left total]. rewrite IH.
    symmetry. apply add_assoc.
Qed.

Lemma stats_mean (goals : list Goal.t) :
  averageProgress (stats goals) ≡ meanPercent goals.
Proof.
  unfold stats, meanPercent. cbn [averageProgress].
  by rewrite reduce_total, add_0_l.
Qed.

Lemma filter_countCompleted (goals : list Goal.t) :
  length (List.filter (fun g => (Goal.current g >=? Goal.target g)%num) goals)
  = countCompleted goals.
Proof.
  induction goals as [|g goals IH]; [done|].
  cbn [List.filter countCompleted].
  destruct (Goal.current g >=? Goal.target g)%num; cbn [length]; lia.
Qed.

(** ** Chart entries *)

Lemma chart_entry (g : Goal.t) :
  let e := {| Chart.name := Goal.name g;
              Chart.progress := Num.min (ratio g * Fin 100)%num (Fin 100);
              Chart.remaining :=
                Num.max (Fin 100 - ratio g * Fin 100)%num (Fin 0) |} in
  chartFormulas g e ∧ ((Fin 0 <= ratio g)%num → chartClaim e).
Proof.
  unfold chartFormulas, chartClaim, ratio. cbn [Chart.name Chart.progress
    Chart.remaining].
  split; [split; [done|]; split; [done|]|].
  all: destruct (Goal.current g) as [c| | |], (Goal.target g) as [t| | |];
    try intros H; num_simpl; unfold Num.inf_times in *;
    try (destruct (Qeq_bool t 0) eqn:Et; [num_crush|];
         generalize dependent (c / t)%Q; intros r; intros);
    num_crush.
Qed.

(** The counterexample of C2: the row [["X", "-1", "1"]] is ingested as a
    goal with current -1 and target 1, whose chart entry has progress -100. *)
Lemma chart_progress_negative :
  ¬ Forall chartClaim
      (chartData
         (Sheet.syncRows [[Str.u "X"; Str.u "-1"; Str.u "1"]]).1).
Proof.
  intros H. apply Forall_inv in H. destruct H as [H _].
  vm_compute in H. discriminate H.
Qed.

(** C2, amended. For every goal list, the entries of [chartData] are those
    of the goals, one entry per goal and in the order of the goals, with
    progress = min(current/target*100, 100) and
    remaining = max(100 - progress, 0); and for each goal whose ratio
    current/target is a number that is not negative, whatever the other
    goals of the list, the progress of its entry is in [0,100] and
    progress + remaining == 100. *)
Theorem chartData_amended (goals : list Goal.t) :
  Forall2
    (fun g e => chartFormulas g e ∧ ((Fin 0 <= ratio g)%num → chartClaim e))
    goals (chartData goals).
Proof.
  induction goals as [|g goals IH]; [constructor|].
  unfold chartData in *. cbn [List.map].
  constructor; [apply (chart_entry g) | exact IH].
Qed.

(** The chart of the seed: every ratio of the seed is positive. *)
Lemma chartData_amended_witness :
  Forall chartClaim (chartData INITIAL_DATA).
Proof.
  pose proof (chartData_amended INITIAL_DATA) as H.
  unfold INITIAL_DATA, chartData in *. cbn [List.map] in *.
  repeat (apply Forall2_cons_1 in H as [[_ Hc] H];
          constructor; [apply Hc; reflexivity|]; clear Hc).
  constructor.
Defined.

(** ** The average of well-formed goals *)

Section Averages.
Local Open Scope Q_scope.

Lemma count_S (n : nat) : count (S n) == 1 + count n.
Proof.
  unfold count.
  rewrite Nat2Z.inj_succ, <- Z.add_1_l, inject_Z_plus. reflexivity.
Qed.

Lemma count_pos (n : nat) : (0 < n)%nat → 0 < count n.
Proof.
  intros H. unfold count. change 0 with (inject_Z 0).
  rewrite <- Zlt_Qlt. lia.
Qed.

Lemma Qsum_le_count (rs : list Q) :
  Forall (fun r => r <= 1) rs →
  Qsum rs <= count (length rs)
  ∧ (Qsum rs == count (length rs) → Forall (fun r => r == 1) rs).
Proof.
  induction 1 as [|r rs Hr Hrs [IH1 IH2]]; simpl in *.
  - split; [by vm_compute | constructor].
  - rewrite count_S. split; [lra|].
    intros E. constructor; [lra|]. apply IH2. lra.
Qed.

Lemma Qsum_eq_count (rs : list Q) :
  Forall (fun r => r == 1) rs → Qsum rs == count (length rs).
Proof.
  induction 1 as [|r rs Hr Hrs IH]; simpl in *.
  - reflexivity.
  - rewrite count_S. lra.
Qed.

Lemma ratio_wellFormed (g : Goal.t) :
  wellFormed g → ratio g = Fin (qratio g).
Proof.
  intros (c & t & Hc & Ht & Hpos). unfold ratio, qratio. rewrite Hc, Ht.
  cbn [Num.div]. destruct (Qeq_bool t 0) eqn:E; [|done]. qbool. lra.
Qed.

Lemma qratio_le_1 (g : Goal.t) :
  wellFormed g → (qratio g <= 1 ↔ (Goal.current g <= Goal.target g)%num).
Proof.
  intros (c & t & Hc & Ht & Hpos). unfold qratio. rewrite Hc, Ht.
  unfold Num.le; cbn [Num.leb]. rewrite Qle_bool_iff. split; intros H.
  - apply Qmult_le_r with (z := / t); [by apply Qinv_lt_0_compat|].
    rewrite Qmult_inv_r by lra. exact H.
  - apply Qle_shift_div_r; lra.
Qed.

Lemma qratio_ge_1 (g : Goal.t) :
  wellFormed g → (1 <= qratio g ↔ (Goal.target g <= Goal.current g)%num).
Proof.
  intros (c & t & Hc & Ht & Hpos). unfold qratio. rewrite Hc, Ht.
  unfold Num.le; cbn [Num.leb]. rewrite Qle_bool_iff. split; intros H.
  - apply Qmult_le_r with (z := / t); [by apply Qinv_lt_0_compat|].
    rewrite Qmult_inv_r by lra. exact H.
  - apply Qle_shift_div_l; lra.
Qed.

Lemma qratio_eq_1 (g : Goal.t) :
  wellFormed g → (qratio g == 1 ↔ Goal.current g ≡ Goal.target g).
Proof.
  intros Hwf. pose proof (qratio_le_1 g Hwf) as H1.
  pose proof (qratio_ge_1 g Hwf) as H2.
  destruct Hwf as (c & t & Hc & Ht & Hpos).
  rewrite Hc, Ht in *. unfold Num.le in *; cbn [Num.leb] in *.
  rewrite Qle_bool_iff in *. unfold equiv, number_equiv; cbn [Num.eqv].
  split; intros H.
  - apply Qle_antisym; [apply H1 | apply H2]; lra.
  - apply Qle_antisym; [apply H1 | apply H2]; lra.
Qed.

Lemma total_wellFormed (goals : list Goal.t) :
  Forall wellFormed goals →
  total (ratio <$> goals) = Fin (Qsum (qratio <$> goals)).
Proof.
  induction 1 as [|g goals Hg Hgs IH]; [done|].
  rewrite !fmap_cons. cbn [total Qsum]. by rewrite IH, ratio_wellFormed.
Qed.

(** The average of well-formed goals, as a rational. *)
Lemma average_wellFormed (goals : list Goal.t) :
  goals ≠ [] → Forall wellFormed goals →
  averageProgress (stats goals)
  ≡ Fin (Qsum (qratio <$> goals) / count (length goals) * 100).
Proof.
  intros Hne Hwf. etrans; [apply stats_mean|]. unfold meanPercent.
  rewrite total_wellFormed by done. unfold Num.of_nat, Num.of_Z.
  fold (count (length goals)).
  assert (0 < count (length goals)) as Hpos.
  { apply count_pos. destruct goals; [done | simpl; lia]. }
  cbn [Num.div]. destruct (Qeq_bool (count (length goals)) 0) eqn:E;
    qbool; [lra|].
  reflexivity.
Qed.

Lemma scaled_mean_eq (s n : Q) : 0 < n → (s / n * 100 == 100 ↔ s == n).
Proof.
  intros Hn. assert (n * / n == 1) as Hi by (apply Qmult_inv_r; lra).
  unfold Qdiv. generalize dependent (/ n). intros i Hi. split; intros H.
  - assert (s == s * (n * i)) as E by (rewrite Hi; ring).
    assert (s * i == 1) as E1 by lra.
    assert (s * (n * i) == n * (s * i)) as E2 by ring.
    rewrite E, E2, E1. ring.
  - rewrite H, Hi. ring.
Qed.

Lemma Forall_qratio (P : Goal.t → Prop) (R : Q → Prop)
    (goals : list Goal.t) :
  (∀ g, wellFormed g → P g → R (qratio g)) →
  Forall wellFormed goals → Forall P goals → Forall R (qratio <$> goals).
Proof.
  intros HPR Hwf HP. apply Forall_fmap.
  induction Hwf; inversion HP; subst; constructor; auto.
Qed.

End Averages.

(** C1. For every goal list, the empty one included, [stats] returns the
    mean over all goals of current/target scaled to percent, the count of
    the goals with current >= target and the length of the list; for a
    non-empty list of goals with finite values and positive targets the mean
    is the rational (sum of current/target) / length * 100; computing the
    statistics reads the state and leaves it as it was; on the empty list
    the average is [NaN], zero divided by zero. *)
Theorem stats_spec :
  (∀ goals : list Goal.t,
     averageProgress (stats goals) ≡ meanPercent goals
     ∧ completedGoals (stats goals) = countCompleted goals
     ∧ totalGoals (stats goals) = length goals)
  ∧ (∀ goals : list Goal.t,
       goals ≠ [] → Forall wellFormed goals →
       averageProgress (stats goals)
       ≡ Fin (Qsum (qratio <$> goals) / count (length goals) * 100))
  ∧ (∀ st : App.State,
       useStats st = (App.Ret (stats (App.view st)), st))
  ∧ averageProgress (stats []) = NaN
  ∧ meanPercent [] = NaN.
Proof.
  split; [|split; [|split; [|split]]]; try reflexivity.
  - intros goals. split; [apply stats_mean|]. split; [|reflexivity].
    apply filter_countCompleted.
  - apply average_wellFormed.
Qed.

(** The seed list: its goals are well formed and the average is the
    rational mean. *)
Lemma stats_spec_witness :
  averageProgress (stats INITIAL_DATA)
  ≡ Fin (Qsum (qratio <$> INITIAL_DATA) / count (length INITIAL_DATA) * 100).
Proof.
  refine (proj1 (proj2 stats_spec) INITIAL_DATA _ _).
  - discriminate.
  - repeat (constructor;
            [eexists _, _; split; [reflexivity|]; split; reflexivity|]).
    constructor.
Defined.

(** The counterexample of C8: the rows ["A", "0", "1"] and ["B", "2", "1"]
    are ingested as one goal at 0 of 1 and one at 2 of 1; their average is
    100 and neither goal has current == target. *)
Lemma average_100_unequal :
  ¬ average100Claim
      (Sheet.syncRows [[Str.u "A"; Str.u "0"; Str.u "1"];
                       [Str.u "B"; Str.u "2"; Str.u "1"]]).1.
Proof.
  intros [H _]. specialize (H ltac:(by vm_compute)).
  apply Forall_inv in H. vm_compute in H. discriminate H.
Qed.

(** C8, amended. For every non-empty list of goals with finite values and
    positive targets, if every goal has current == target then the average
    is 100.  (The converse is what the counterexample refutes: the average
    is not clamped, so the overshoot of one goal offsets the shortfall of
    another.) *)
Theorem average_100_amended (goals : list Goal.t) :
  goals ≠ [] → Forall wellFormed goals →
  Forall (fun g => Goal.current g ≡ Goal.target g) goals →
  averageProgress (stats goals) ≡ Fin 100.
Proof.
  intros Hne Hwf Hall.
  pose proof (average_wellFormed goals Hne Hwf) as Havg.
  assert (0 < count (length goals))%Q as Hn.
  { apply count_pos. destruct goals; [done | simpl; lia]. }
  assert (length (qratio <$> goals) = length goals) as Hlen
    by apply length_fmap.
  rewrite Havg. unfold equiv, number_equiv; cbn [Num.eqv].
  apply (proj2 (scaled_mean_eq _ _ Hn)). rewrite <- Hlen.
  apply Qsum_eq_count.
  eapply Forall_qratio; [|done..].
  intros g Hg. apply (proj2 (qratio_eq_1 g Hg)).
Qed.

Lemma average_100_amended_witness :
  let goals :=
    [ Goal.mk (Str.u "running") (Str.u "Running (1 Mile)") (Fin 51) (Fin 51)
        (Str.u "Miles") (Str.u "physical");
      Goal.mk (Str.u "sit-ups") (Str.u "Sit-ups") (Fin 5000) (Fin 5000)
        (Str.u "Reps") (Str.u "physical") ] in
  averageProgress (stats goals) ≡ Fin 100.
Proof.
  intros goals.
  apply (average_100_amended goals).
  - discriminate.
  - repeat constructor.
    + exists 51%Q, 51%Q. repeat split; reflexivity.
    + exists 5000%Q, 5000%Q. repeat split; reflexivity.
  - repeat constructor; reflexivity.
Defined.

(** ** The time window *)

Lemma min_max_clamp (x : number) :
  Num.min (Num.max x (Fin 0)) (Fin 100) ≡ clamp x (Fin 0) (Fin 100).
Proof. unfold clamp. destruct x; num_crush. Qed.

Lemma Qceiling_bounds (x : Q) :
  (inject_Z (Qceiling x) - 1 < x <= inject_Z (Qceiling x))%Q.
Proof.
  split; [|apply Qle_ceiling].
  pose proof (Qceiling_lt x) as H.
  unfold Z.sub in H. rewrite inject_Z_plus in H. exact H.
Qed.

Section TimeWindow.
Local Open Scope Q_scope.
Variables s e : Q.
Hypothesis window : s < e.

Lemma elapsed_over_total (n : Q) :
  ((Fin n - Fin s) / (Fin e - Fin s))%num = Fin (elapsedRatio s e n).
Proof.
  unfold Num.sub; cbn [Num.neg Num.add Num.div].
  destruct (Qeq_bool (e + - s) 0) eqn:E; qbool; [lra|]. done.
Qed.

Lemma elapsedRatio_mono (n1 n2 : Q) :
  n1 <= n2 → elapsedRatio s e n1 <= elapsedRatio s e n2.
Proof.
  intros H. unfold elapsedRatio, Qdiv.
  apply Qmult_le_compat_r; [lra|].
  apply Qlt_le_weak, Qinv_lt_0_compat. lra.
Qed.

Lemma elapsedRatio_start : elapsedRatio s e s == 0.
Proof. unfold elapsedRatio, Qdiv. ring. Qed.

Lemma elapsedRatio_end : elapsedRatio s e e == 1.
Proof. unfold elapsedRatio. apply Qmult_inv_r. lra. Qed.

Lemma percentage_eq (n : Q) :
  percentage (timeProgress (Fin s) (Fin e) (Fin n))
  = Num.min (Num.max (Fin (elapsedRatio s e n * 100)) (Fin 0)) (Fin 100).
Proof.
  unfold timeProgress; cbn [percentage]. by rewrite elapsed_over_total.
Qed.

Lemma percentage_mono (n1 n2 : Q) :
  n1 <= n2 →
  (percentage (timeProgress (Fin s) (Fin e) (Fin n1))
   <= percentage (timeProgress (Fin s) (Fin e) (Fin n2)))%num.
Proof.
  intros H. rewrite !percentage_eq.
  pose proof (elapsedRatio_mono n1 n2 H).
  generalize dependent (elapsedRatio s e n1).
  generalize dependent (elapsedRatio s e n2).
  intros r2 r1 Hr. num_crush.
Qed.

Lemma percentage_before (n : Q) :
  n <= s → percentage (timeProgress (Fin s) (Fin e) (Fin n)) ≡ Fin 0.
Proof.
  intros H. rewrite percentage_eq.
  pose proof (elapsedRatio_mono n s H). pose proof elapsedRatio_start.
  generalize dependent (elapsedRatio s e n).
  generalize dependent (elapsedRatio s e s).
  intros r0 ? r ?. num_crush.
Qed.

Lemma percentage_after (n : Q) :
  e <= n → percentage (timeProgress (Fin s) (Fin e) (Fin n)) ≡ Fin 100.
Proof.
  intros H. rewrite percentage_eq.
  pose proof (elapsedRatio_mono e n H). pose proof elapsedRatio_end.
  generalize dependent (elapsedRatio s e n).
  generalize dependent (elapsedRatio s e e).
  intros r0 ? r ?. num_crush.
Qed.

End TimeWindow.

(** C3. For timestamps start < end, the percentage of [timeProgress] does
    not decrease as now increases, is 0 when now <= start and 100 when
    now >= end, equals clamp((now-start)/(end-start)*100, 0, 100), and
    daysLeft is the ceiling of (end-now)/day: the integer k with
    k - 1 < (end-now)/day <= k. *)
Theorem timeProgress_spec (s e : Q) :
  (s < e)%Q →
  (∀ n1 n2 : Q, (n1 <= n2)%Q →
     (percentage (timeProgress (Fin s) (Fin e) (Fin n1))
      <= percentage (timeProgress (Fin s) (Fin e) (Fin n2)))%num)
  ∧ (∀ n : Q, (n <= s)%Q →
       percentage (timeProgress (Fin s) (Fin e) (Fin n)) ≡ Fin 0)
  ∧ (∀ n : Q, (e <= n)%Q →
       percentage (timeProgress (Fin s) (Fin e) (Fin n)) ≡ Fin 100)
  ∧ (∀ n : Q,
       percentage (timeProgress (Fin s) (Fin e) (Fin n))
       ≡ clamp ((Fin n - Fin s) / (Fin e - Fin s) * Fin 100)%num
           (Fin 0) (Fin 100)
       ∧ ((Fin n - Fin s) / (Fin e - Fin s) * Fin 100)%num
         = Fin ((n - s) / (e - s) * 100))
  ∧ (∀ n : Q, ∃ k : Z,
       daysLeft (timeProgress (Fin s) (Fin e) (Fin n)) = Num.of_Z k
       ∧ (inject_Z k - 1 < (e - n) / 86400000 <= inject_Z k)%Q).
Proof.
  intros window. split; [|split; [|split; [|split]]].
  - intros n1 n2. by apply percentage_mono.
  - intros n. by apply percentage_before.
  - intros n. by apply percentage_after.
  - intros n. split; [apply min_max_clamp|].
    by rewrite elapsed_over_total.
  - intros n. exists (Qceiling ((e - n) / 86400000)).
    split; [reflexivity | apply Qceiling_bounds].
Qed.

(** The window of [constants.ts] read as UTC, and noon of 1 April 2026. *)
Lemma timeProgress_spec_witness :
  percentage
    (timeProgress (Fin 1771804800000) (Fin 1782345600000)
       (Fin 1775044800000))
  ≡ clamp ((Fin 1775044800000 - Fin 1771804800000)
           / (Fin 1782345600000 - Fin 1771804800000) * Fin 100)%num
      (Fin 0) (Fin 100).
Proof.
  refine (proj1 (proj1 (proj2 (proj2 (proj2
    (timeProgress_spec 1771804800000%Q 1782345600000%Q _))))
    1775044800000%Q)).
  reflexivity.
Defined.

(** ** Strings *)

Lemma eqb_true (s t : jsstring) : Str.eqb s t = true ↔ s = t.
Proof. unfold Str.eqb. apply bool_decide_eq_true. Qed.

Lemma eqb_false (s t : jsstring) : Str.eqb s t = false ↔ s ≠ t.
Proof. unfold Str.eqb. apply bool_decide_eq_false. Qed.

Lemma stripPrefix_spec (p s r : jsstring) :
  Str.stripPrefix p s = Some r ↔ s = p ++ r.
Proof.
  revert s. induction p as [|a p IH]; intros s; simpl.
  - split; [by intros [= ->] | by intros ->].
  - destruct s as [|b s]; [done|].
    destruct (N.eqb_spec a b) as [->|Hne].
    + rewrite IH. split; [by intros -> | by intros [= ->]].
    + split; [done | by intros [= -> ->]].
Qed.

Lemma includes_unfold (s p : jsstring) :
  Str.includes s p =
  match Str.stripPrefix p s with
  | Some _ => true
  | None => match s with _ :: s' => Str.includes s' p | [] => false end
  end.
Proof. by destruct s. Qed.

(** [includes] decides the substring relation. *)
Lemma includes_spec (s p : jsstring) :
  Str.includes s p = true ↔ occursIn p s.
Proof.
  split.
  - induction s as [|c s IH]; rewrite includes_unfold.
    + destruct (Str.stripPrefix p []) as [r|] eqn:E; [|done].
      intros _. apply stripPrefix_spec in E. by exists [], r.
    + destruct (Str.stripPrefix p (c :: s)) as [r|] eqn:E.
      * intros _. apply stripPrefix_spec in E. by exists [], r.
      * intros H. destruct (IH H) as (pre & post & ->).
        by exists (c :: pre), post.
  - intros (pre & post & ->). induction pre as [|c pre IH].
    + rewrite includes_unfold. simpl app.
      by rewrite (proj2 (stripPrefix_spec p (p ++ post) post) eq_refl).
    + rewrite includes_unfold. simpl app.
      by destruct (Str.stripPrefix p (c :: pre ++ p ++ post)).
Qed.

Lemma includes_false (s p : jsstring) :
  Str.includes s p = false ↔ ¬ occursIn p s.
Proof.
  rewrite <- includes_spec. by destruct (Str.includes s p).
Qed.

(** A line on which every test of the chain is false has no anchor. *)
Lemma noAnchor_tested (line : jsstring) :
  forallb (fun a => negb (Str.includes line a)) Text.anchors = true →
  noAnchor line.
Proof.
  intros H. apply Forall_forall. intros a Ha.
  rewrite forallb_forall in H. apply includes_false.
  apply negb_true_iff, H. by apply list_elem_of_In.
Qed.

(** ** Text ingestion *)

Section TextIngestion.
Import App.

Lemma processLine_noAnchor (newGoals : list ref) (line : jsstring) :
  noAnchor line → Text.processLine newGoals line = mret tt.
Proof.
  intros H. unfold noAnchor, Text.anchors in H.
  repeat match goal with
         | H : Forall _ (_ :: _) |- _ =>
             let H1 := fresh in
             apply Forall_cons in H as [H1 H];
             apply includes_false in H1
         end.
  unfold Text.processLine.
  repeat match goal with
         | H : Str.includes _ _ = false |- _ => rewrite H; clear H
         end.
  done.
Qed.

Lemma forEach_skip {A} (f : A → M unit) (arr : list A) (st : State) :
  Forall (fun x => f x = mret tt) arr → forEach f arr st = (Ret tt, st).
Proof.
  induction 1 as [|x arr Hx Harr IH]; [done|].
  cbn [forEach]. unfold mbind, M_bind. rewrite Hx. exact IH.
Qed.

Lemma frame_refl (st : State) : frame st st.
Proof. by repeat split. Qed.

Lemma frame_trans (st1 st2 st3 : State) :
  frame st1 st2 → frame st2 st3 → frame st1 st3.
Proof.
  unfold frame. intros (?&?&?&?&?) (?&?&?&?&?). repeat split; congruence.
Qed.

Lemma assignCurrent_returns (r : ref) (v : number) (st : State) :
  ∃ st', assignCurrent r v st = (Ret tt, st') ∧ frame st st'.
Proof.
  cbv [assignCurrent mbind M_bind mret M_ret get].
  destruct (heap st !! r); eexists; (split; [reflexivity|]);
    by repeat split.
Qed.

Lemma update_returns (newGoals : list ref) (line : jsstring)
    (re : list Regex.atom) (goalId : jsstring) (parse : jsstring → number)
    (st : State) :
  ∃ st', Text.update newGoals line re goalId parse st = (Ret tt, st')
         ∧ frame st st'.
Proof.
  unfold Text.update. destruct (Regex.exec re line) as [m|].
  - cbv [mbind M_bind mret M_ret get findById].
    match goal with
    | |- context [List.find ?p newGoals] =>
        destruct (List.find p newGoals) as [r|]
    end.
    + apply assignCurrent_returns.
    + eexists. split; [reflexivity | apply frame_refl].
  - eexists. split; [reflexivity | apply frame_refl].
Qed.

Lemma processLine_returns (newGoals : list ref) (line : jsstring)
    (st : State) :
  ∃ st', Text.processLine newGoals line st = (Ret tt, st') ∧ frame st st'.
Proof.
  unfold Text.processLine.
  repeat match goal with
         | |- context [if Str.includes ?l ?a then _ else _] =>
             destruct (Str.includes l a); [apply update_returns|]
         end.
  eexists. split; [reflexivity | apply frame_refl].
Qed.

Lemma forEach_returns {A} (f : A → M unit) (arr : list A) (st : State) :
  (∀ x st, ∃ st', f x st = (Ret tt, st') ∧ frame st st') →
  ∃ st', forEach f arr st = (Ret tt, st') ∧ frame st st'.
Proof.
  intros Hf. revert st. induction arr as [|x arr IH]; intros st.
  - eexists. split; [reflexivity | apply frame_refl].
  - cbn [forEach]. unfold mbind, M_bind.
    destruct (Hf x st) as (st1 & -> & H1).
    destruct (IH st1) as (st2 & -> & H2).
    eexists. split; [reflexivity | by eapply frame_trans].
Qed.

(** The loop of [handleUpdate] never throws and touches the goal objects
    only. *)
Lemma parseLines_returns (st : State) :
  ∃ st', Text.parseLines st = (Ret (goals st), st') ∧ frame st st'.
Proof.
  unfold Text.parseLines, mbind, M_bind, get.
  destruct (forEach_returns (Text.processLine (goals st))
              (Str.splitLines (rawText st)) st
              (processLine_returns (goals st))) as (st' & -> & H).
  by exists st'.
Qed.

(** [handleUpdate] returns on every state: the [catch] clause is never
    entered, and the array committed holds the references it held. *)
Lemma handleUpdate_returns (st : State) :
  ∃ st', Text.handleUpdate st = (Ret tt, st')
         ∧ goals st' = goals st ∧ alerts st' = alerts st
         ∧ rawText st' = [] ∧ isUpdateModalOpen st' = false.
Proof.
  unfold Text.handleUpdate, tryCatch, mbind, M_bind.
  destruct (parseLines_returns st) as (st1 & -> & (Hg & _ & _ & _ & Ha)).
  cbn. eexists. split; [reflexivity|]. cbn. by rewrite Ha.
Qed.

End TextIngestion.

(** C4. On the seed list, whatever the current value [v] of ['running']
    before, the line "Running (1 Mile): 3/51" gives the list written out in
    [seedWith (Fin 3)]: the current value of the goal with id ['running'] is
    3, and every other goal and every other field is as in the list before,
    [seedWith v] (with 3 as the prior value, that list is the seed and the
    state the state at start-up); the operation succeeds without an alert.
    And a text none of whose lines contains an anchor leaves the goal list
    of any state as it was, and the operation succeeds without an alert. *)
Theorem text_ingestion (v : number) (st : App.State) (text : jsstring) :
  (let r := Text.ingest (Str.u "Running (1 Mile): 3/51")
              (seedWithRunning v) in
   App.view (seedWithRunning v) = seedWith v
   ∧ r.1 = App.Ret tt ∧ App.alerts r.2 = []
   ∧ App.view r.2 = seedWith (Fin 3)
   ∧ seedWith (Fin 3) = INITIAL_DATA
   ∧ seedWithRunning (Fin 3) = App.initial)
  ∧ (Forall noAnchor (Str.splitLines text) →
     let r := Text.ingest text st in
     r.1 = App.Ret tt ∧ App.alerts r.2 = App.alerts st
     ∧ App.view r.2 = App.view st).
Proof.
  split.
  - by vm_compute.
  - intros H.
    unfold Text.ingest, Text.handleUpdate, App.tryCatch, Text.parseLines.
    unfold mbind, App.M_bind, App.get; simpl.
    rewrite forEach_skip; [done|].
    eapply Forall_impl; [exact H|]. intros line. apply processLine_noAnchor.
Qed.

(** A text about a goal that has no anchor. *)
Lemma text_ingestion_witness :
  let r := Text.ingest (Str.u "Gym Sessions: 5/51") App.initial in
  r.1 = App.Ret tt ∧ App.alerts r.2 = App.alerts App.initial
  ∧ App.view r.2 = App.view App.initial.
Proof.
  refine (proj2 (text_ingestion (Fin 3) App.initial
                   (Str.u "Gym Sessions: 5/51")) _).
  change (Forall noAnchor [Str.u "Gym Sessions: 5/51"]).
  constructor; [|constructor]. apply noAnchor_tested. reflexivity.
Defined.


(** ** Tabular ingestion: one row *)

Lemma validRow_dec (r : Sheet.row) : {validRow r} + {¬ validRow r}.
Proof.
  unfold validRow. destruct (r !! 0%nat) as [name|].
  - destruct (decide (Str.trim name = [])) as [Ht|Ht].
    + right. by intros (? & [= <-] & ?).
    + left. by exists name.
  - right. by intros (? & ? & ?).
Qed.

(** A row without a name is skipped. *)
Lemma syncRow_skip (index : nat) (r : Sheet.row) (acc : list Goal.t * nat) :
  ¬ validRow r → Sheet.syncRow index r acc = acc.
Proof.
  intros H. unfold Sheet.syncRow. destruct acc as [synced n].
  destruct (r !! 0%nat) as [name|] eqn:E; [|done].
  destruct (decide (Str.trim name = [])) as [Ht|Ht].
  - cbn [from_option id]. rewrite Ht. cbn. by rewrite orb_true_r.
  - destruct H. by exists name.
Qed.

(** A row with a name pushes one goal: its id is built from the index, a
    current cell that does not parse gives 0, and a target cell that parses
    gives the parsed number. *)
Lemma syncRow_valid (index : nat) (r : Sheet.row) (acc : list Goal.t * nat) :
  validRow r →
  ∃ g, Sheet.syncRow index r acc = (acc.1 ++ [g], S acc.2)
       ∧ (∃ slug, Goal.id g = sheetGoalId index slug)
       ∧ (∀ cell, r !! 1%nat = Some cell →
            Parse.parseFloat (Str.removeCommas cell) = NaN →
            Goal.current g = Fin 0)
       ∧ (∀ cell v, r !! 2%nat = Some cell → cell ≠ [] →
            Parse.parseFloat (Str.removeCommas cell) = v → v ≠ NaN →
            Goal.target g = v).
Proof.
  intros (name & E & Ht). unfold Sheet.syncRow. destruct acc as [synced n].
  rewrite E.
  assert (Sheet.truthy (Some name) = true) as ->.
  { destruct name; [by destruct Ht | done]. }
  cbn [from_option id]. rewrite (proj2 (eqb_false _ _) Ht).
  cbn [negb orb]. cbv iota. eexists. split; [reflexivity|].
  split; [|split].
  - eexists. reflexivity.
  - intros cell E1 Hnan. rewrite E1. cbn [Goal.current from_option id].
    destruct (Sheet.truthy (Some cell)); [by rewrite Hnan | done].
  - intros cell v E2 Hne Hv Hnn. rewrite E2. cbn [Goal.target from_option id].
    assert (Sheet.truthy (Some cell) = true) as -> by by destruct cell.
    rewrite Hv. by destruct v.
Qed.

Lemma syncRow_cases (index : nat) (r : Sheet.row) (acc : list Goal.t * nat) :
  (¬ validRow r ∧ Sheet.syncRow index r acc = acc)
  ∨ (validRow r
     ∧ ∃ g slug, Sheet.syncRow index r acc = (acc.1 ++ [g], S acc.2)
                 ∧ Goal.id g = sheetGoalId index slug).
Proof.
  destruct (validRow_dec r) as [H|H].
  - right. split; [done|].
    destruct (syncRow_valid index r acc H) as (g & Hg & (slug & Hid) & _).
    by exists g, slug.
  - left. split; [done|]. by apply syncRow_skip.
Qed.

(** ** Tabular ingestion: the ids *)

(** The digits of a number followed by a hyphen determine the number. *)
Lemma digits_delimited (d d' : Decimal.uint) (rest rest' : jsstring) :
  Str.u (NilEmpty.string_of_uint d) ++ 45%N :: rest
  = Str.u (NilEmpty.string_of_uint d') ++ 45%N :: rest' →
  d = d'.
Proof.
  revert d'.
  induction d as [|d IH|d IH|d IH|d IH|d IH|d IH|d IH|d IH|d IH|d IH];
    intros [|d'|d'|d'|d'|d'|d'|d'|d'|d'|d']; cbn; intros H;
    try discriminate H; try reflexivity;
    injection H as H; f_equal; by apply IH.
Qed.

Lemma to_uint_nonnil (n : nat) : Nat.to_uint n ≠ Decimal.Nil.
Proof.
  rewrite <- (Unsigned.of_to n) at 1. rewrite Unsigned.to_of.
  unfold Decimal.unorm. by destruct (Decimal.nzhead (Nat.to_uint n)).
Qed.

Lemma ofIndex_delimited (i j : nat) (rest rest' : jsstring) :
  Parse.ofIndex i ++ 45%N :: rest = Parse.ofIndex j ++ 45%N :: rest' →
  i = j.
Proof.
  unfold Parse.ofIndex, NilZero.string_of_uint. intros H.
  apply Unsigned.to_uint_inj.
  pose proof (to_uint_nonnil i). pose proof (to_uint_nonnil j).
  destruct (Nat.to_uint i) eqn:Ei, (Nat.to_uint j) eqn:Ej; try done;
    rewrite <- Ei, <- Ej; rewrite <- Ei, <- Ej in H;
    by apply digits_delimited in H.
Qed.

(** Ids of different row indices differ, whatever the slugs. *)
Lemma sheetGoalId_inj (i j : nat) (s t : jsstring) :
  sheetGoalId i s = sheetGoalId j t → i = j.
Proof.
  unfold sheetGoalId. intros H. apply app_inv_head in H.
  by apply ofIndex_delimited in H.
Qed.

(** ** Tabular ingestion: the loop *)

Lemma forEachRow_spec (rows : list Sheet.row) (index : nat)
    (acc : list Goal.t * nat) :
  ∃ news,
    Sheet.forEachRow index rows acc
    = (acc.1 ++ news, (acc.2 + length news)%nat)
    ∧ Forall (fun g => ∃ i slug, (index ≤ i)%nat
                                 ∧ Goal.id g = sheetGoalId i slug) news
    ∧ NoDup (Goal.id <$> news)
    ∧ (news = [] ↔ ¬ Exists validRow rows).
Proof.
  revert index acc. induction rows as [|r rows IH]; intros index acc.
  - exists []. cbn [Sheet.forEachRow length]. rewrite app_nil_r, Nat.add_0_r.
    split; [by destruct acc|]. split; [constructor|].
    split; [constructor|]. split; [by inversion 2 | done].
  - cbn [Sheet.forEachRow].
    destruct (syncRow_cases index r acc)
      as [[Hr E] | [Hr (g & slug & E & Hid)]]; rewrite E.
    + destruct (IH (S index) acc) as (news & -> & Hids & Hnd & Hnil).
      exists news. split; [done|]. split; [|split; [done|]].
      * eapply Forall_impl; [done|]. intros g (i & slug & Hi & Hg).
        exists i, slug. split; [lia | done].
      * rewrite Hnil. split.
        -- intros Hn Hex. by inversion Hex; subst.
        -- intros Hn Hex. apply Hn. by right.
    + destruct (IH (S index) (acc.1 ++ [g], S acc.2))
        as (news & -> & Hids & Hnd & Hnil).
      exists (g :: news). cbn [fst snd length]. rewrite <- app_assoc.
      split; [f_equal; lia|]. split; [|split].
      * constructor; [by exists index, slug|].
        eapply Forall_impl; [done|]. intros g' (i & slug' & Hi & Hg).
        exists i, slug'. split; [lia | done].
      * rewrite fmap_cons. constructor; [|done].
        intros Hin. apply list_elem_of_fmap in Hin as (g' & Hg' & Hin).
        rewrite Forall_forall in Hids.
        destruct (Hids g' Hin) as (i & slug' & Hi & Hgi).
        rewrite Hid, Hgi in Hg'. apply sheetGoalId_inj in Hg'. lia.
      * split; [done|]. intros Hn. destruct Hn. by left.
Qed.

(** The loop from the first row: the ids are distinct, the count is the
    number of goals, and there is a goal exactly when some row has a
    name. *)
Lemma syncRows_spec (rows : list Sheet.row) :
  NoDup (Goal.id <$> (Sheet.syncRows rows).1)
  ∧ (Sheet.syncRows rows).2 = length (Sheet.syncRows rows).1
  ∧ ((Sheet.syncRows rows).1 = [] ↔ ¬ Exists validRow rows).
Proof.
  unfold Sheet.syncRows.
  destruct (forEachRow_spec rows 0 ([], 0%nat))
    as (news & -> & _ & Hnd & Hnil).
  done.
Qed.

(** C9. For every row grid, the goals produced by one run of the loop have
    pairwise distinct ids: the id of a goal starts with the index of its row
    followed by a hyphen. *)
Theorem sheet_ids_distinct (rows : list Sheet.row) :
  NoDup (Goal.id <$> (Sheet.syncRows rows).1)
  ∧ Forall (fun g => ∃ index slug, Goal.id g = sheetGoalId index slug)
      (Sheet.syncRows rows).1.
Proof.
  split; [apply syncRows_spec|].
  unfold Sheet.syncRows.
  destruct (forEachRow_spec rows 0 ([], 0%nat))
    as (news & -> & Hids & _ & _).
  cbn [fst app]. eapply Forall_impl; [done|].
  intros g (i & slug & _ & Hg). by exists i, slug.
Qed.

(** A row with a name whose target cell is absent, empty or does not parse
    gets the target 100. *)
Lemma syncRow_default_target (index : nat) (r : Sheet.row)
    (acc : list Goal.t * nat) :
  validRow r →
  (r !! 2%nat = None ∨ r !! 2%nat = Some []
   ∨ ∃ cell, r !! 2%nat = Some cell
             ∧ Parse.parseFloat (Str.removeCommas cell) = NaN) →
  ∃ g, Sheet.syncRow index r acc = (acc.1 ++ [g], S acc.2)
       ∧ Goal.target g = Fin 100.
Proof.
  intros (name & E & Ht) Hcell. unfold Sheet.syncRow.
  destruct acc as [synced n]. rewrite E.
  assert (Sheet.truthy (Some name) = true) as ->.
  { destruct name; [by destruct Ht | done]. }
  cbn [from_option id]. rewrite (proj2 (eqb_false _ _) Ht).
  cbn [negb orb]. cbv iota. eexists. split; [reflexivity|].
  cbn [Goal.target].
  destruct Hcell as [-> | [-> | (cell & -> & Hnan)]]; [done..|].
  cbn [from_option id]. rewrite Hnan. by destruct (Sheet.truthy (Some cell)).
Qed.

(** C5. The row ["Meditation", "10", "30", "Minutes", "mental"] at index 0
    gives the goal with id "sheet-0-meditation", current 10, target 30, unit
    "Minutes" and category "mental"; a row whose name cell is absent or
    blank after trimming is skipped, as is ["", "5", "10"]; and a current
    cell that does not parse as a number gives current 0, as in
    ["X", "abc", "50"]. *)
Theorem tabular_rows :
  Sheet.syncRows
    [[Str.u "Meditation"; Str.u "10"; Str.u "30"; Str.u "Minutes";
      Str.u "mental"]]
  = ([ Goal.mk (Str.u "sheet-0-meditation") (Str.u "Meditation")
         (Fin 10) (Fin 30) (Str.u "Minutes") (Str.u "mental") ], 1%nat)
  ∧ Sheet.syncRows [[Str.u ""; Str.u "5"; Str.u "10"]] = ([], 0%nat)
  ∧ Sheet.syncRows [[Str.u "X"; Str.u "abc"; Str.u "50"]]
    = ([ Goal.mk (Str.u "sheet-0-x") (Str.u "X") (Fin 0) (Fin 50)
           (Str.u "Units") (Str.u "physical") ], 1%nat)
  ∧ (∀ (index : nat) (r : Sheet.row) (acc : list Goal.t * nat),
       (r !! 0%nat = None
        ∨ ∃ name, r !! 0%nat = Some name ∧ Str.trim name = []) →
       Sheet.syncRow index r acc = acc)
  ∧ (∀ (index : nat) (r : Sheet.row) (acc : list Goal.t * nat)
       (cell : jsstring),
       validRow r → r !! 1%nat = Some cell →
       Parse.parseFloat (Str.removeCommas cell) = NaN →
       ∃ g, Sheet.syncRow index r acc = (acc.1 ++ [g], S acc.2)
            ∧ Goal.current g = Fin 0).
Proof.
  split; [by vm_compute|]. split; [by vm_compute|].
  split; [by vm_compute|]. split.
  - intros index r acc H. apply syncRow_skip.
    intros (name & E & Ht).
    destruct H as [H | (name' & H & Ht')]; rewrite E in H; [done|].
    injection H as ->. done.
  - intros index r acc cell Hv E Hnan.
    destruct (syncRow_valid index r acc Hv) as (g & Hg & _ & Hcur & _).
    exists g. split; [done|]. by eapply Hcur.
Qed.

(** A row with a blank name, and a row with the current cell "n/a". *)
Lemma tabular_rows_witness :
  Sheet.syncRow 3 [Str.u "   "; Str.u "5"] ([], 0%nat) = ([], 0%nat)
  ∧ ∃ g, Sheet.syncRow 3 [Str.u "Yoga"; Str.u "n/a"; Str.u "20"]
           ([], 0%nat) = ([] ++ [g], 1%nat)
         ∧ Goal.current g = Fin 0.
Proof.
  destruct tabular_rows as (_ & _ & _ & Hskip & Hcur). split.
  - apply Hskip. right. exists (Str.u "   "). split; reflexivity.
  - apply (Hcur 3%nat [Str.u "Yoga"; Str.u "n/a"; Str.u "20"] ([], 0%nat)
             (Str.u "n/a")).
    + exists (Str.u "Yoga"). split; [reflexivity | by vm_compute].
    + reflexivity.
    + reflexivity.
Defined.

(** C10. The row ["X", "5", "0"] is ingested as a goal with target 0, whose
    ratio current/target is a division by zero: the average of [stats] is
    then infinite.  The default target 100 is used when the target cell of
    a named row is absent, empty or does not parse; a cell that parses to a
    number, zero included, gives that number. *)
Theorem zero_target_ingested :
  (∃ g, Sheet.syncRows [[Str.u "X"; Str.u "5"; Str.u "0"]] = ([g], 1%nat)
        ∧ Goal.current g = Fin 5 ∧ Goal.target g = Fin 0
        ∧ ratio g = PosInf
        ∧ averageProgress (stats [g]) = PosInf
        ∧ Chart.progress <$> chartData [g] = [Fin 100])
  ∧ (∀ (index : nat) (r : Sheet.row) (acc : list Goal.t * nat)
       (cell : jsstring) (v : number),
       validRow r → r !! 2%nat = Some cell → cell ≠ [] →
       Parse.parseFloat (Str.removeCommas cell) = v → v ≠ NaN →
       ∃ g, Sheet.syncRow index r acc = (acc.1 ++ [g], S acc.2)
            ∧ Goal.target g = v)
  ∧ (∀ (index : nat) (r : Sheet.row) (acc : list Goal.t * nat),
       validRow r →
       (r !! 2%nat = None ∨ r !! 2%nat = Some []
        ∨ ∃ cell, r !! 2%nat = Some cell
                  ∧ Parse.parseFloat (Str.removeCommas cell) = NaN) →
       ∃ g, Sheet.syncRow index r acc = (acc.1 ++ [g], S acc.2)
            ∧ Goal.target g = Fin 100).
Proof.
  split; [|split].
  - eexists. split; [by vm_compute|]. by vm_compute.
  - intros index r acc cell v Hv E Hne Hp Hnn.
    destruct (syncRow_valid index r acc Hv) as (g & Hg & _ & _ & Htgt).
    exists g. split; [done|]. by eapply Htgt.
  - intros index r acc. apply syncRow_default_target.
Qed.

(** The row ["X", "5", "0"] in the general statement, and a row without a
    target cell. *)
Lemma zero_target_ingested_witness :
  (∃ g, Sheet.syncRow 0 [Str.u "X"; Str.u "5"; Str.u "0"] ([], 0%nat)
        = ([] ++ [g], 1%nat)
        ∧ Goal.target g = Fin 0)
  ∧ (∃ g, Sheet.syncRow 0 [Str.u "X"; Str.u "5"] ([], 0%nat)
          = ([] ++ [g], 1%nat)
          ∧ Goal.target g = Fin 100).
Proof.
  destruct zero_target_ingested as (_ & Hparsed & Hdefault). split.
  - apply (Hparsed 0%nat [Str.u "X"; Str.u "5"; Str.u "0"] ([], 0%nat)
             (Str.u "0") (Fin 0)).
    + exists (Str.u "X"). split; [reflexivity | by vm_compute].
    + reflexivity.
    + by vm_compute.
    + reflexivity.
    + discriminate.
  - apply (Hdefault 0%nat [Str.u "X"; Str.u "5"] ([], 0%nat)).
    + exists (Str.u "X"). split; [reflexivity | by vm_compute].
    + left. reflexivity.
Defined.

(** ** Tabular ingestion: the handler *)

Section SheetSync.
Import App.

Lemma validRow_Exists_dec (rows : list Sheet.row) :
  Exists validRow rows ∨ ¬ Exists validRow rows.
Proof.
  induction rows as [|r rows [IH|IH]].
  - right. by inversion 1.
  - left. by right.
  - destruct (validRow_dec r) as [Hr|Hr]; [left; by left|].
    right. by inversion 1.
Qed.

(** The objects allocated for a list of goals are read back through the
    references to them. *)
Lemma deref_fresh (h gs : list Goal.t) :
  deref (h ++ gs) (seq (length h) (length gs)) = gs.
Proof.
  unfold deref. revert h. induction gs as [|g gs IH]; intros h; [done|].
  cbn [length seq omap list_omap].
  rewrite lookup_app_r by lia. rewrite Nat.sub_diag. cbn.
  f_equal. specialize (IH (h ++ [g])).
  rewrite <- app_assoc, length_app in IH. cbn in IH.
  rewrite Nat.add_1_r in IH. exact IH.
Qed.

Lemma unchanged_view (st st' : State) :
  unchanged st st' → view st' = view st.
Proof. intros [Hh Hg]. unfold view. by rewrite Hh, Hg. Qed.

(** Every run of the handler returns and shows exactly one alert; after any
    alert but the success message the array and the objects are as they
    were; the success message comes with the whole list replaced. *)
Lemma sync_outcome (env : Sheet.Env) (fetch : jsstring → Sheet.Fetched)
    (st : State) :
  let r := Sheet.fetchFromGoogleSheets env fetch st in
  r.1 = Ret tt
  ∧ ∃ a, alerts r.2 = alerts st ++ [a]
         ∧ (isFailure a → unchanged st r.2)
         ∧ (∀ n, a = AlertSynced n →
              ∃ rows status msg,
                configured env
                ∧ fetch (requestOf env)
                  = Sheet.Response true status (Sheet.Json (Some rows) msg)
                ∧ (Sheet.syncRows rows).1 ≠ []
                ∧ n = (Sheet.syncRows rows).2
                ∧ view r.2 = (Sheet.syncRows rows).1).
Proof.
  unfold Sheet.fetchFromGoogleSheets, configured, requestOf.
  destruct (Sheet.truthy (Some (Sheet.sheetIdOf env))) eqn:E1;
    [|simpl; split; [done|]; eexists; split; [done|];
      split; [done | intros; done]].
  destruct (Sheet.truthy (Sheet.VITE_GOOGLE_API_KEY env)) eqn:E2;
    [|simpl; split; [done|]; eexists; split; [done|];
      split; [done | intros; done]].
  cbn [negb orb].
  unfold tryFinally, tryCatch, mbind, M_bind, Sheet.await; cbn.
  destruct (fetch _) as [|message|ok status body] eqn:Ef; cbn.
  1,2: split; [done|]; eexists; split; [done|];
       split; [done | intros; done].
  destruct ok; cbn.
  2: { destruct body as [m|values [[|c m]|]]; cbn;
       (split; [done|]; eexists; split; [done|];
        split; [done | intros; done]). }
  destruct body as [m|[[|r rows]|] msg]; cbn.
  1,2,4: split; [done|]; eexists; split; [done|];
         split; [done | intros; done].
  destruct (Sheet.syncRows (r :: rows)) as [synced n] eqn:Es.
  destruct synced as [|g synced]; cbn.
  - split; [done|]; eexists; split; [done|]; split; [done | intros; done].
  - split; [done|]. eexists; split; [done|]. split; [done|].
    intros n' [= <-]. exists (r :: rows), status, msg.
    rewrite Es. cbn [fst snd]. repeat split; try done.
    unfold view; cbn.
    change (S (length (heap st))
            :: seq (S (S (length (heap st)))) (length synced))
      with (seq (S (length (heap st))) (S (length synced))).
    pose proof (deref_fresh (heap st) (g :: synced)) as H.
    cbn in H. exact H.
Qed.

(** The run on a well-formed response of a configured handler. *)
Lemma sync_response (env : Sheet.Env) (fetch : jsstring → Sheet.Fetched)
    (st : State) (status : nat) (values : option (list Sheet.row))
    (msg : option jsstring) :
  configured env →
  fetch (requestOf env) = Sheet.Response true status (Sheet.Json values msg) →
  let rows := default [] values in
  let r := Sheet.fetchFromGoogleSheets env fetch st in
  match (Sheet.syncRows rows).1 with
  | [] => unchanged st r.2
          ∧ (alerts r.2 = alerts st ++ [AlertNoData]
             ∨ alerts r.2 = alerts st ++ [AlertNoValidData])
  | gs => view r.2 = gs
          ∧ alerts r.2 = alerts st ++ [AlertSynced (Sheet.syncRows rows).2]
  end.
Proof.
  intros [Hc1 Hc2] Hf. unfold requestOf in Hf.
  unfold Sheet.fetchFromGoogleSheets. rewrite Hc1, Hc2. cbn [negb orb].
  unfold tryFinally, tryCatch, mbind, M_bind, Sheet.await; cbn.
  rewrite Hf. cbn.
  destruct values as [[|r rows]|]; cbn.
  1,3: by (split; [|left]).
  destruct (Sheet.syncRows (r :: rows)) as [synced n] eqn:Es.
  destruct synced as [|g synced]; cbn.
  - by (split; [|right]).
  - split; [|done]. unfold view; cbn.
    change (S (length (heap st))
            :: seq (S (S (length (heap st)))) (length synced))
      with (seq (S (length (heap st))) (S (length synced))).
    pose proof (deref_fresh (heap st) (g :: synced)) as H.
    cbn in H. exact H.
Qed.

End SheetSync.

(** C6. For every row grid fetched by a configured handler: when some row
    has a name, the goal list becomes the list of the goals of the rows,
    with the success message; when no row has one, the empty grid and the
    absent grid included, a failure is reported and neither the array nor
    any goal is changed; so the list is replaced if and only if at least
    one row produced a goal. *)
Theorem tabular_replace_iff (env : Sheet.Env) (fetch : jsstring → Sheet.Fetched)
    (st : App.State) (status : nat) (values : option (list Sheet.row))
    (msg : option jsstring) :
  configured env →
  fetch (requestOf env) = Sheet.Response true status (Sheet.Json values msg) →
  let rows := default [] values in
  let r := Sheet.fetchFromGoogleSheets env fetch st in
  (Exists validRow rows →
   App.view r.2 = (Sheet.syncRows rows).1
   ∧ (Sheet.syncRows rows).1 ≠ []
   ∧ App.alerts r.2
     = App.alerts st ++ [AlertSynced (length (Sheet.syncRows rows).1)])
  ∧ (¬ Exists validRow rows →
     unchanged st r.2 ∧ App.view r.2 = App.view st
     ∧ (App.alerts r.2 = App.alerts st ++ [AlertNoData]
        ∨ App.alerts r.2 = App.alerts st ++ [AlertNoValidData]))
  ∧ (Exists validRow rows
     ↔ ∃ n, App.alerts r.2 = App.alerts st ++ [AlertSynced n]).
Proof.
  intros Hc Hf. cbv zeta.
  pose proof (sync_response env fetch st status values msg Hc Hf) as H.
  cbv zeta in H.
  set (rows := default [] values) in *.
  set (r := Sheet.fetchFromGoogleSheets env fetch st) in *.
  destruct (syncRows_spec rows) as (_ & Hcount & Hnil).
  destruct ((Sheet.syncRows rows).1) as [|g gs] eqn:Es.
  - assert (¬ Exists validRow rows) as Hnone by by apply Hnil.
    destruct H as [Hu Ha]. split; [done|]. split.
    + intros _. split; [done|]. split; [by apply unchanged_view | done].
    + split; [done|]. intros [n Hn].
      destruct Ha as [Ha|Ha]; rewrite Ha in Hn;
        apply app_inv_head in Hn; discriminate Hn.
  - assert (Exists validRow rows) as Hsome.
    { destruct (validRow_Exists_dec rows) as [He|He]; [done|].
      apply Hnil in He. discriminate He. }
    destruct H as [Hv Ha]. rewrite Hcount in Ha.
    split; [done|]. split; [intros Hn; by destruct Hn|].
    split; [intros _; by eexists | done].
Qed.

(** A configured handler that receives one row. *)
Lemma tabular_replace_iff_witness :
  let env := Sheet.mkEnv (Some (Str.u "1AbC-dEf_42")) (Some (Str.u "k3y")) in
  let rows := [[Str.u "Meditation"; Str.u "10"; Str.u "30";
                Str.u "Minutes"; Str.u "mental"]] in
  let fetch := fun _ : jsstring =>
    Sheet.Response true 200 (Sheet.Json (Some rows) None) in
  App.view (Sheet.fetchFromGoogleSheets env fetch App.initial).2
  = (Sheet.syncRows rows).1.
Proof.
  intros env rows fetch.
  refine (proj1 (proj1
    (tabular_replace_iff env fetch App.initial 200 (Some rows) None _ _) _)).
  - split; reflexivity.
  - reflexivity.
  - left. exists (Str.u "Meditation"). split; [reflexivity | by vm_compute].
Defined.

(** The failures of the two ingestion paths.  Text ingestion returns on
    every text and every state and shows no alert: no statement of its
    [try] block throws, so the assignments made in place are never left
    behind by a failure.  Every run of tabular ingestion returns and shows
    one alert; and after any alert of tabular ingestion but the success
    message (missing configuration, timeout, transport or HTTP error, no
    data, no valid data) the goal list is the list before the run: neither
    the array nor any goal object has changed. *)
Lemma ingestion_failure :
  (∀ (text : jsstring) (st : App.State),
     (Text.ingest text st).1 = App.Ret tt
     ∧ App.alerts (Text.ingest text st).2 = App.alerts st)
  ∧ (∀ (env : Sheet.Env) (fetch : jsstring → Sheet.Fetched) (st : App.State),
       (Sheet.fetchFromGoogleSheets env fetch st).1 = App.Ret tt
       ∧ ∃ a, App.alerts (Sheet.fetchFromGoogleSheets env fetch st).2
              = App.alerts st ++ [a])
  ∧ (∀ (env : Sheet.Env) (fetch : jsstring → Sheet.Fetched) (st : App.State)
       (a : Alert),
       App.alerts (Sheet.fetchFromGoogleSheets env fetch st).2
       = App.alerts st ++ [a] →
       isFailure a →
       App.view (Sheet.fetchFromGoogleSheets env fetch st).2 = App.view st
       ∧ unchanged st (Sheet.fetchFromGoogleSheets env fetch st).2).
Proof.
  split; [|split].
  - intros text st. unfold Text.ingest.
    destruct (handleUpdate_returns (Text.paste text st))
      as (st' & -> & _ & Ha & _).
    by split.
  - intros env fetch st.
    destruct (sync_outcome env fetch st) as (Hr & a & Ha & _).
    split; [done | by exists a].
  - intros env fetch st a Ha Hfail.
    destruct (sync_outcome env fetch st) as (_ & a' & Ha' & Hu & _).
    rewrite Ha in Ha'. apply app_inv_head in Ha'. injection Ha' as <-.
    split; [apply unchanged_view|]; by apply Hu.
Qed.

(** ** Text ingestion: the loop as a function of the lines *)

Section TextLoop.
Import App.

Lemma withHeap_id (st : State) : withHeap (heap st) st = st.
Proof. by destruct st. Qed.

(** The assignment [goal.current = v] on an object of the heap, as [alter]. *)
Lemma insert_alter (h : list Goal.t) (r : ref) (g : Goal.t)
    (f : Goal.t → Goal.t) :
  h !! r = Some g → <[r := f g]> h = alter f r h.
Proof.
  intros H. apply list_eq. intros i.
  destruct (decide (i = r)) as [->|Hne].
  - rewrite list_lookup_alter_eq, H.
    rewrite list_lookup_insert_eq; [done|]. by eapply lookup_lt_Some.
  - rewrite list_lookup_insert_ne by done. by rewrite list_lookup_alter_ne.
Qed.

Lemma alter_None (h : list Goal.t) (r : ref) (f : Goal.t → Goal.t) :
  h !! r = None → alter f r h = h.
Proof.
  intros H. apply list_eq. intros i.
  destruct (decide (i = r)) as [->|Hne].
  - by rewrite list_lookup_alter_eq, H.
  - by rewrite list_lookup_alter_ne.
Qed.

(** One branch of the chain: it returns, and the heap after it is the heap
    after the assignment that the match and the search give, if they give
    one. *)
Lemma update_pure (arr : list ref) (line : jsstring) (re : list Regex.atom)
    (goalId : jsstring) (parse : jsstring → number) (st : State) :
  Text.update arr line re goalId parse st
  = (Ret tt,
     withHeap
       (applyOp ('(i, v) ← ((fun m => (goalId, parse (Regex.group1 m)))
                             <$> Regex.exec re line);
                 r ← refOf arr (heap st) i; Some (r, v))
          (heap st)) st).
Proof.
  unfold Text.update.
  destruct (Regex.exec re line) as [m|];
    cbn [fmap option_fmap option_map mbind option_bind].
  - cbv [mbind M_bind mret M_ret get findById].
    fold (refOf arr (heap st) goalId).
    destruct (refOf arr (heap st) goalId) as [r|] eqn:E; cbn.
    + cbv [assignCurrent mbind M_bind mret M_ret get].
      destruct (heap st !! r) as [g|] eqn:Eg.
      * cbn. unfold withHeap. by rewrite (insert_alter _ _ _ _ Eg).
      * cbn. rewrite alter_None by done. by rewrite withHeap_id.
    + by rewrite withHeap_id.
  - cbn. by rewrite withHeap_id.
Qed.

(** The callback of the loop returns, with the heap after the assignment of
    the line. *)
Lemma processLine_pure (arr : list ref) (line : jsstring) (st : State) :
  Text.processLine arr line st
  = (Ret tt, withHeap (applyOp (resolve arr (heap st) line) (heap st)) st).
Proof.
  unfold Text.processLine, resolve, lineUpdate.
  repeat match goal with
         | |- context [if Str.includes ?l ?a then _ else _] =>
             destruct (Str.includes l a); [apply update_pure|]
         end.
  cbn. by rewrite withHeap_id.
Qed.

(** The loop returns, with the heap after the lines. *)
Lemma forEach_pure (arr : list ref) (lines : list jsstring) (st : State) :
  forEach (Text.processLine arr) lines st
  = (Ret tt, withHeap (runLines arr lines (heap st)) st).
Proof.
  revert st. induction lines as [|line lines IH]; intros st.
  - cbn. by rewrite withHeap_id.
  - cbn [forEach runLines]. unfold mbind, M_bind at 1.
    rewrite processLine_pure. rewrite IH. by destruct st.
Qed.

(** The handler as a function of the state: it returns; the heap is the heap
    after the lines of the text, the array is the same, the text is
    cleared and the dialog is closed. *)
Lemma handleUpdate_pure (st : State) :
  Text.handleUpdate st
  = (Ret tt,
     mkState (runLines (goals st) (Str.splitLines (rawText st)) (heap st))
       (goals st) [] false (isSyncing st) (alerts st)).
Proof.
  unfold Text.handleUpdate, tryCatch, Text.parseLines.
  cbv [mbind M_bind get]. rewrite forEach_pure. by destruct st.
Qed.

Lemma sameButCurrent_refl (g : Goal.t) : sameButCurrent g g.
Proof. by destruct g. Qed.

Lemma sameButCurrent_trans (g1 g2 g3 : Goal.t) :
  sameButCurrent g1 g2 → sameButCurrent g2 g3 → sameButCurrent g1 g3.
Proof.
  unfold sameButCurrent. destruct g1, g2, g3; cbn.
  intros [= -> -> -> -> ->] [= -> -> -> -> ->].
  done.
Qed.

Lemma sameButCurrent_set (v : number) (g : Goal.t) :
  sameButCurrent g (Goal.setCurrent v g).
Proof. by destruct g. Qed.

Lemma sameButCurrent_id (g g' : Goal.t) :
  sameButCurrent g g' → Goal.id g' = Goal.id g.
Proof. intros ->. by destruct g. Qed.

Lemma Forall2_sameButCurrent_refl (h : list Goal.t) :
  Forall2 sameButCurrent h h.
Proof. induction h; constructor; auto using sameButCurrent_refl. Qed.

Lemma Forall2_sameButCurrent_trans (h1 h2 h3 : list Goal.t) :
  Forall2 sameButCurrent h1 h2 → Forall2 sameButCurrent h2 h3 →
  Forall2 sameButCurrent h1 h3.
Proof.
  intros H. revert h3. induction H; inversion 1; subst; constructor;
    eauto using sameButCurrent_trans.
Qed.

(** An assignment changes current values only. *)
Lemma applyOp_sameButCurrent (op : option (ref * number)) (h : list Goal.t) :
  Forall2 sameButCurrent h (applyOp op h).
Proof.
  destruct op as [[r v]|]; [|apply Forall2_sameButCurrent_refl].
  cbn. apply Forall2_same_length_lookup. split; [by rewrite length_alter|].
  intros i g g' Hg Hg'. destruct (decide (i = r)) as [->|Hne].
  - rewrite list_lookup_alter_eq, Hg in Hg'. injection Hg' as <-.
    apply sameButCurrent_set.
  - rewrite list_lookup_alter_ne, Hg in Hg' by done. injection Hg' as <-.
    apply sameButCurrent_refl.
Qed.

(** The loop changes current values only. *)
Lemma runLines_sameButCurrent (arr : list ref) (lines : list jsstring)
    (h : list Goal.t) :
  Forall2 sameButCurrent h (runLines arr lines h).
Proof.
  revert h. induction lines as [|line lines IH]; intros h; cbn.
  - apply Forall2_sameButCurrent_refl.
  - eapply Forall2_sameButCurrent_trans;
      [apply applyOp_sameButCurrent | apply IH].
Qed.

(** So does the list observed through an array. *)
Lemma deref_sameButCurrent (h h' : list Goal.t) (rs : list ref) :
  Forall2 sameButCurrent h h' →
  Forall2 sameButCurrent (deref h rs) (deref h' rs).
Proof.
  intros H. unfold deref. induction rs as [|r rs IH]; cbn; [constructor|].
  destruct (h !! r) as [g|] eqn:E.
  - destruct (Forall2_lookup_l _ _ _ _ _ H E) as (g' & -> & Hg). cbn.
    by constructor.
  - assert (h' !! r = None) as ->; [|done].
    apply lookup_ge_None. rewrite <- (Forall2_length _ _ _ H).
    by apply lookup_ge_None.
Qed.

(** The search by id does not depend on the current values. *)
Lemma refOf_stable (arr : list ref) (h h' : list Goal.t) (goalId : jsstring) :
  Forall2 sameButCurrent h h' → refOf arr h' goalId = refOf arr h goalId.
Proof.
  intros H. unfold refOf. induction arr as [|r arr IH]; cbn; [done|].
  rewrite IH.
  destruct (h !! r) as [g|] eqn:E.
  - destruct (Forall2_lookup_l _ _ _ _ _ H E) as (g' & -> & Hg).
    by rewrite (sameButCurrent_id _ _ Hg).
  - assert (h' !! r = None) as ->; [|done].
    apply lookup_ge_None. rewrite <- (Forall2_length _ _ _ H).
    by apply lookup_ge_None.
Qed.

Lemma resolve_stable (arr : list ref) (h h' : list Goal.t) (line : jsstring) :
  Forall2 sameButCurrent h h' → resolve arr h' line = resolve arr h line.
Proof.
  intros H. unfold resolve. destruct (lineUpdate line) as [[i v]|]; [|done].
  cbn. by rewrite (refOf_stable _ _ _ _ H).
Qed.

(** The loop makes the assignments that the lines resolve to on the prior
    heap: no line changes what a later line finds. *)
Lemma runLines_applyOps (arr : list ref) (lines : list jsstring)
    (h : list Goal.t) :
  runLines arr lines h = applyOps (resolve arr h <$> lines) h.
Proof.
  assert (∀ h0, Forall2 sameButCurrent h0 h →
            runLines arr lines h = applyOps (resolve arr h0 <$> lines) h) as G.
  { revert h. induction lines as [|line lines IH]; intros h h0 H; [done|].
    rewrite fmap_cons. cbn [runLines applyOps fold_left].
    rewrite <- (resolve_stable arr h0 h line H).
    apply IH. eapply Forall2_sameButCurrent_trans; [done|].
    apply applyOp_sameButCurrent. }
  apply G, Forall2_sameButCurrent_refl.
Qed.

(** An object after a list of assignments has the number of the last
    assignment to it. *)
Lemma lookup_applyOps (ops : list (option (ref * number)))
    (h : list Goal.t) (r : ref) :
  applyOps ops h !! r = setLast (lastFor r ops) <$> h !! r.
Proof.
  revert h. induction ops as [|op ops IH]; intros h.
  - cbn. by destruct (h !! r).
  - cbn [applyOps fold_left lastFor]. fold (applyOps ops (applyOp op h)).
    rewrite IH. destruct op as [[r' v]|]; cbn [applyOp].
    + destruct (decide (r' = r)) as [->|Hne].
      * rewrite list_lookup_alter_eq. destruct (h !! r) as [g|]; [|done].
        cbn. by destruct (lastFor r ops), g.
      * rewrite list_lookup_alter_ne by done. by destruct (lastFor r ops).
    + by destruct (lastFor r ops).
Qed.

(** Making the assignments twice is making them once. *)
Lemma applyOps_idem (ops : list (option (ref * number))) (h : list Goal.t) :
  applyOps ops (applyOps ops h) = applyOps ops h.
Proof.
  apply list_eq. intros r. rewrite !lookup_applyOps.
  destruct (h !! r) as [g|]; [|done]. cbn.
  by destruct (lastFor r ops), g.
Qed.

Lemma runLines_idem (arr : list ref) (lines : list jsstring) (h : list Goal.t) :
  runLines arr lines (runLines arr lines h) = runLines arr lines h.
Proof.
  rewrite (runLines_applyOps arr lines (runLines arr lines h)).
  assert (resolve arr (runLines arr lines h) <$> lines
          = resolve arr h <$> lines) as ->.
  { apply list_fmap_ext. intros i line _.
    apply resolve_stable, runLines_sameButCurrent. }
  rewrite (runLines_applyOps arr lines h). apply applyOps_idem.
Qed.

(** The loop over two lists of lines. *)
Lemma runLines_app (arr : list ref) (l1 l2 : list jsstring) (h : list Goal.t) :
  runLines arr (l1 ++ l2) h = runLines arr l2 (runLines arr l1 h).
Proof. revert h. induction l1; intros h; cbn; auto. Qed.

Lemma splitLines_nonempty (s : jsstring) : Str.splitLines s ≠ [].
Proof.
  induction s as [|c s IH]; cbn; [done|].
  destruct (c =? 10)%N; [done|]. by destruct (Str.splitLines s).
Qed.

(** The lines of two texts joined by a newline. *)
Lemma splitLines_app (a b : jsstring) :
  Str.splitLines (a ++ 10%N :: b) = Str.splitLines a ++ Str.splitLines b.
Proof.
  induction a as [|c a IH]; [done|].
  cbn [app Str.splitLines]. rewrite IH.
  destruct (c =? 10)%N; [done|].
  pose proof (splitLines_nonempty a). by destruct (Str.splitLines a).
Qed.

(** A text without a newline is one line. *)
Lemma splitLines_one (line : jsstring) :
  10%N ∉ line → Str.splitLines line = [line].
Proof.
  induction line as [|c line IH]; intros H; [done|].
  cbn [Str.splitLines]. destruct (N.eqb_spec c 10) as [->|Hc].
  - destruct H. apply list_elem_of_here.
  - rewrite IH; [done|]. intros Hin. apply H. by apply list_elem_of_further.
Qed.

(** What [sameButCurrent] keeps, field by field. *)
Lemma sameButCurrent_fields (g g' : Goal.t) :
  sameButCurrent g g' →
  Goal.id g' = Goal.id g ∧ Goal.name g' = Goal.name g
  ∧ Goal.target g' = Goal.target g ∧ Goal.unit g' = Goal.unit g
  ∧ Goal.category g' = Goal.category g.
Proof. intros ->. by destruct g. Qed.

End TextLoop.

(** ** The groups of a match *)

(** The repetition of [Regex.matchHere] is [repFrom]. *)
Lemma matchHere_rep (cls : N → bool) (least : nat) (rest : list Regex.atom)
    (s : jsstring) :
  Regex.matchHere (Regex.Rep cls least :: rest) s
  = repFrom (Regex.matchHere rest) cls least [] s.
Proof. reflexivity. Qed.

(** The text of a repetition that matched: characters of the class, at
    least [least] of them. *)
Lemma repFrom_group k cls least (taken s : jsstring) (m : list jsstring) :
  repFrom k cls least taken s = Some m →
  ∃ more, hd [] m = rev taken ++ more
          ∧ Forall (fun c => cls c = true) more
          ∧ (least ≤ length taken + length more)%nat.
Proof.
  revert taken. induction s as [|c s IH]; intros taken; cbn.
  - destruct (least <=? length taken)%nat eqn:E; [|done].
    destruct (k []) as [caps|]; [|done]. intros [= <-].
    exists []. rewrite app_nil_r. cbn. apply Nat.leb_le in E.
    repeat split; [constructor | lia].
  - assert (stop : (if (least <=? length taken)%nat
                    then cons (rev taken) <$> k (c :: s) else None) = Some m →
              ∃ more, hd [] m = rev taken ++ more
                      ∧ Forall (fun c => cls c = true) more
                      ∧ (least ≤ length taken + length more)%nat).
    { destruct (least <=? length taken)%nat eqn:E; [|done].
      destruct (k (c :: s)) as [caps|]; [|done]. intros [= <-].
      exists []. rewrite app_nil_r. cbn. apply Nat.leb_le in E.
      repeat split; [constructor | lia]. }
    destruct (cls c) eqn:Ec; [|exact stop].
    destruct (repFrom k cls least (c :: taken) s) as [r|] eqn:Er; [|exact stop].
    intros [= <-]. destruct (IH _ Er) as (more & Hhd & Hall & Hlen).
    exists (c :: more). cbn in Hhd, Hlen. rewrite <- app_assoc in Hhd.
    repeat split; [done | by constructor | cbn; lia].
Qed.

(** A match is a match at some position. *)
Lemma exec_matchHere (atoms : list Regex.atom) (s : jsstring)
    (m : list jsstring) :
  Regex.exec atoms s = Some m → ∃ s', Regex.matchHere atoms s' = Some m.
Proof.
  induction s as [|c s IH]; cbn.
  - destruct (Regex.matchHere atoms []) eqn:E; [|done]. intros [= <-]. eauto.
  - destruct (Regex.matchHere atoms (c :: s)) eqn:E;
      [intros [= <-]; eauto | exact IH].
Qed.

(** The first group of a pattern that starts with [c+]. *)
Lemma exec_group1 (cls : N → bool) (rest : list Regex.atom) (s : jsstring)
    (m : list jsstring) :
  Regex.exec (Regex.Rep cls 1 :: rest) s = Some m →
  Regex.group1 m ≠ [] ∧ Forall (fun c => cls c = true) (Regex.group1 m).
Proof.
  intros H. apply exec_matchHere in H as (s' & H). rewrite matchHere_rep in H.
  apply repFrom_group in H as (more & Hhd & Hall & Hlen).
  unfold Regex.group1. rewrite Hhd. cbn in *. split; [|done].
  destruct more; [cbn in Hlen; lia | done].
Qed.

(** What the repetition consumed, and where the rest of the pattern went on. *)
Lemma repFrom_split k cls least (taken s : jsstring) (m : list jsstring) :
  repFrom k cls least taken s = Some m →
  ∃ more rest tl, s = more ++ rest
    ∧ Forall (fun c => cls c = true) more
    ∧ (least ≤ length taken + length more)%nat
    ∧ k rest = Some tl ∧ m = (rev taken ++ more) :: tl.
Proof.
  revert taken. induction s as [|c s IH]; intros taken; cbn.
  - destruct (least <=? length taken)%nat eqn:E; [|done].
    destruct (k []) as [tl|] eqn:Ek; [|done]. intros [= <-].
    exists [], [], tl. rewrite !app_nil_r. cbn. apply Nat.leb_le in E.
    split_and!; [done | constructor | lia | done | done].
  - assert (stop : (if (least <=? length taken)%nat
                    then cons (rev taken) <$> k (c :: s) else None) = Some m →
              ∃ more rest tl, c :: s = more ++ rest
                ∧ Forall (fun c => cls c = true) more
                ∧ (least ≤ length taken + length more)%nat
                ∧ k rest = Some tl ∧ m = (rev taken ++ more) :: tl).
    { destruct (least <=? length taken)%nat eqn:E; [|done].
      destruct (k (c :: s)) as [tl|] eqn:Ek; [|done]. intros [= <-].
      exists [], (c :: s), tl. rewrite !app_nil_r. cbn. apply Nat.leb_le in E.
      split_and!; [done | constructor | lia | done | done]. }
    destruct (cls c) eqn:Ec; [|exact stop].
    destruct (repFrom k cls least (c :: taken) s) as [r|] eqn:Er;
      [|exact stop].
    intros [= <-].
    apply IH in Er as (more & rest & tl & -> & Hall & Hlen & Hk & ->).
    exists (c :: more), rest, tl. cbn [rev length] in *.
    rewrite <- app_assoc. cbn.
    split_and!; [done | by constructor | lia | done | done].
Qed.

(** The repetition is greedy: it takes the whole run of characters of the
    class when the rest of the pattern matches behind it. *)
Lemma repFrom_greedy k cls least (taken xs rest : jsstring)
    (tl : list jsstring) :
  Forall (fun c => cls c = true) xs →
  (rest = [] ∨ ∃ c t, rest = c :: t ∧ cls c = false) →
  (least ≤ length taken + length xs)%nat →
  k rest = Some tl →
  repFrom k cls least taken (xs ++ rest) = Some ((rev taken ++ xs) :: tl).
Proof.
  intros Hall Hrest. revert taken.
  induction Hall as [|x xs Hx _ IH]; intros taken Hlen Hk.
  - cbn [app length] in *. rewrite app_nil_r, Nat.add_0_r in *.
    apply Nat.leb_le in Hlen.
    destruct Hrest as [-> | (c & t & -> & Hc)]; cbn;
      rewrite ?Hc, Hlen, Hk; done.
  - cbn [app]. change (repFrom k cls least taken (x :: xs ++ rest))
      with (let stop := if (least <=? length taken)%nat
                        then cons (rev taken) <$> k (x :: xs ++ rest)
                        else None in
            if cls x
            then match repFrom k cls least (x :: taken) (xs ++ rest) with
                 | Some r => Some r
                 | None => stop
                 end
            else stop).
    cbv zeta. rewrite Hx, IH; [|cbn [length] in *; lia | done].
    cbn [rev]. by rewrite <- app_assoc.
Qed.


Lemma exec_unfold (atoms : list Regex.atom) (s : jsstring) :
  Regex.exec atoms s
  = match Regex.matchHere atoms s with
    | Some r => Some r
    | None => match s with
              | _ :: s' => Regex.exec atoms s'
              | [] => None
              end
    end.
Proof. by destruct s. Qed.

Lemma matchHere_lit (l : jsstring) (rest : list Regex.atom) (s : jsstring) :
  Regex.matchHere (Regex.Lit l :: rest) s
  = match Str.stripPrefix l s with
    | Some s' => cons l <$> Regex.matchHere rest s'
    | None => None
    end.
Proof. reflexivity. Qed.

Lemma exec_skip (atoms : list Regex.atom) (c : N) (s : jsstring) :
  Regex.matchHere atoms (c :: s) = None →
  Regex.exec atoms (c :: s) = Regex.exec atoms s.
Proof. intros H. rewrite exec_unfold. by rewrite H. Qed.

Lemma reFraction_digits (ds ds2 : jsstring) :
  ds ≠ [] → Forall (fun c => Str.isDigit c = true) ds →
  ds2 ≠ [] → Forall (fun c => Str.isDigit c = true) ds2 →
  Regex.matchHere Regex.reFraction (ds ++ Str.u "/" ++ ds2)
  = Some [ds; Str.u "/"; ds2].
Proof.
  intros Hne Hd Hne2 Hd2. unfold Regex.reFraction. rewrite matchHere_rep.
  assert (Regex.matchHere [Regex.Lit (Str.u "/"); Regex.Rep Regex.digit 1]
            (Str.u "/" ++ ds2) = Some [Str.u "/"; ds2]) as Hk.
  { rewrite matchHere_lit.
    rewrite (proj2 (stripPrefix_spec _ _ ds2) eq_refl).
    rewrite matchHere_rep.
    rewrite <- (app_nil_r ds2) at 1.
    rewrite (repFrom_greedy _ _ _ [] ds2 [] []); [done|done|by left| |done].
    destruct ds2; [done | cbn; lia]. }
  rewrite (repFrom_greedy _ _ _ [] ds (Str.u "/" ++ ds2)
             [Str.u "/"; ds2] Hd); [done| | |exact Hk].
  - right. by exists 47%N, ds2.
  - destruct ds; [done | cbn; lia].
Qed.

(** ** Numbers written with digits *)

(** The ten digits. *)
Lemma isDigit_cases (c : N) :
  Str.isDigit c = true →
  c = 48%N ∨ c = 49%N ∨ c = 50%N ∨ c = 51%N ∨ c = 52%N ∨ c = 53%N
  ∨ c = 54%N ∨ c = 55%N ∨ c = 56%N ∨ c = 57%N.
Proof.
  unfold Str.isDigit. rewrite andb_true_iff, !N.leb_le. lia.
Qed.

(** [Parse.span] on a string of characters of the class. *)
Lemma span_all (cls : N → bool) (ds : jsstring) :
  Forall (fun c => cls c = true) ds → Parse.span cls ds = (ds, []).
Proof.
  induction 1 as [|c ds Hc Hds IH]; cbn; [done|]. by rewrite Hc, IH.
Qed.

Lemma hexValue_digit (c : N) :
  Str.isDigit c = true → ∃ z, Parse.hexValue c = Some z ∧ 0 <= z.
Proof.
  intros H. apply isDigit_cases in H; split_digit H; eexists;
    (split; [reflexivity | lia]).
Qed.

Lemma digitsValue_nonneg (ds : jsstring) :
  Forall (fun c => Str.isDigit c = true) ds → 0 <= Parse.digitsValue 10 ds.
Proof.
  unfold Parse.digitsValue. intros H.
  assert (∀ acc, 0 <= acc →
            0 <= fold_left
                   (fun acc c => acc * 10 + default 0 (Parse.hexValue c))
                   ds acc) as G.
  { induction H as [|c ds Hc Hds IH]; intros acc Hacc; cbn [fold_left]; [done|].
    apply IH. destruct (hexValue_digit c Hc) as (z & -> & Hz). cbn. lia. }
  by apply G.
Qed.

(** [parseInt] of a non-empty string of digits is the integer it writes. *)
Lemma parseInt_digits (ds : jsstring) :
  ds ≠ [] → Forall (fun c => Str.isDigit c = true) ds →
  Parse.parseInt ds = Num.of_Z (Parse.digitsValue 10 ds)
  ∧ 0 <= Parse.digitsValue 10 ds.
Proof.
  intros Hne Hall. split; [|by apply digitsValue_nonneg].
  destruct ds as [|c ds]; [done|]. inversion Hall as [|? ? Hc Hds]; subst.
  destruct ds as [|d ds].
  - apply isDigit_cases in Hc; split_digit Hc; reflexivity.
  - inversion Hds as [|? ? Hd Hds']; subst.
    pose proof (span_all _ _ Hds') as Hspan.
    apply isDigit_cases in Hc; split_digit Hc;
    apply isDigit_cases in Hd; split_digit Hd;
      cbn -[Parse.span Parse.digitsValue Num.of_Z];
      cbn [Parse.span Str.isDigit N.leb N.compare Pos.compare
           Pos.compare_cont andb];
      rewrite Hspan; reflexivity.
Qed.

(** Digits and commas without the commas are digits. *)
Lemma removeCommas_digits (g : jsstring) :
  Forall (fun c => Regex.digitOrComma c = true) g →
  Forall (fun c => Str.isDigit c = true) (Str.removeCommas g).
Proof.
  unfold Str.removeCommas. induction 1 as [|c g Hc Hg IH]; cbn; [constructor|].
  unfold Regex.digitOrComma in Hc.
  destruct (c =? 44)%N eqn:E; cbn; [done|].
  rewrite orb_false_r in Hc. by constructor.
Qed.

Lemma written_parseInt_digits (ds : jsstring) :
  Forall (fun c => Str.isDigit c = true) ds → written (Parse.parseInt ds).
Proof.
  intros H. destruct ds as [|c ds]; [by left|].
  destruct (parseInt_digits (c :: ds) ltac:(done) H) as [-> Hn].
  right; right. eexists. split; [reflexivity|].
  change 0%Q with (inject_Z 0). by rewrite <- Zle_Qle.
Qed.

(** [Parse.span] splits the text at the first character outside the
    class. *)
Lemma span_spec (cls : N → bool) (s a b : jsstring) :
  Parse.span cls s = (a, b) →
  s = a ++ b ∧ Forall (fun c => cls c = true) a
  ∧ (b = [] ∨ ∃ c b', b = c :: b' ∧ cls c = false).
Proof.
  revert a b. induction s as [|c s IH]; intros a b; cbn.
  - intros [= <- <-]. repeat split; [constructor | by left].
  - destruct (cls c) eqn:Ec.
    + destruct (Parse.span cls s) as [a' b'] eqn:E. intros [= <- <-].
      destruct (IH a' b' eq_refl) as (-> & Ha & Hb).
      repeat split; [by constructor | done].
    + intros [= <- <-]. repeat split; [constructor | right; eauto].
Qed.

Lemma digitOrDot_cases (c : N) :
  Regex.digitOrDot c = true → Str.isDigit c = true ∨ c = 46%N.
Proof.
  unfold Regex.digitOrDot. rewrite orb_true_iff, N.eqb_eq. tauto.
Qed.

Lemma dots_rest (s : jsstring) :
  Forall (fun c => Regex.digitOrDot c = true) s →
  (s = [] ∨ ∃ c b', s = c :: b' ∧ Str.isDigit c = false) →
  s = [] ∨ ∃ t, s = 46%N :: t.
Proof.
  intros Hall [->|(c & b0 & -> & Hc)]; [by left|]. right.
  inversion Hall as [|? ? Hd _]; subst.
  apply digitOrDot_cases in Hd as [Hd | ->]; [congruence | eauto].
Qed.

(** [parseFloat] of a string of digits and dots is [NaN] or a number that
    is not negative. *)
Lemma written_parseFloat_digitsDots (g : jsstring) :
  Forall (fun c => Regex.digitOrDot c = true) g →
  written (Parse.parseFloat g).
Proof.
  intros Hall. destruct g as [|c g]; [by left|].
  assert (Str.trimStart (c :: g) = c :: g
          ∧ Parse.sign (c :: g) = (false, c :: g)
          ∧ Str.stripPrefix (Str.u "Infinity") (c :: g) = None)
    as (Ht & Hs & Hi).
  { inversion Hall as [|? ? Hc _]; subst.
    apply digitOrDot_cases in Hc as [Hc | ->];
      [apply isDigit_cases in Hc; split_digit Hc|]; by vm_compute. }
  unfold Parse.parseFloat. rewrite Ht, Hs, Hi.
  destruct (Parse.span Str.isDigit (c :: g)) as [ip s2] eqn:E1.
  apply span_spec in E1 as (Eg & Hip & Hs2).
  rewrite Eg in Hall. apply Forall_app in Hall as [_ Hall2].
  apply (dots_rest _ Hall2) in Hs2.
  assert (∃ fp s3,
            match s2 with
            | 46%N :: t => Parse.span Str.isDigit t
            | _ => ([], s2)
            end = (fp, s3)
            ∧ Forall (fun c => Str.isDigit c = true) fp
            ∧ Parse.exponent s3 = 0) as (fp & s3 & -> & Hfp & He).
  { destruct Hs2 as [->|(t & ->)].
    - exists [], []. by repeat split.
    - destruct (Parse.span Str.isDigit t) as [fp s3] eqn:E2.
      exists fp, s3. apply span_spec in E2 as (Et & Hfp & Hs3).
      split; [done|]. split; [done|].
      inversion Hall2 as [|? ? _ Hall3]; subst.
      apply Forall_app in Hall3 as [_ Hall3].
      apply (dots_rest _ Hall3) in Hs3 as [-> | (t0 & ->)]; reflexivity. }
  destruct (ip ++ fp) as [|d ds] eqn:Ed; [by left|].
  right; right. eexists. split; [reflexivity|].
  rewrite Qred_correct. apply Qmult_le_0_compat.
  - change 0%Q with (inject_Z 0). rewrite <- Zle_Qle. cbn [Parse.signed].
    apply digitsValue_nonneg. rewrite <- Ed. by apply Forall_app.
  - apply Qpower_0_le. done.
Qed.

Lemma wholeOrInfinite_written (v : number) : wholeOrInfinite v → written v.
Proof.
  intros [-> | (n & Hn & ->)]; [right; by left|].
  right; right. eexists. split; [reflexivity|].
  change 0%Q with (inject_Z 0). by rewrite <- Zle_Qle.
Qed.

Lemma branch_digits (re : list Regex.atom) (line : jsstring)
    (m : list jsstring) :
  Regex.exec (Regex.Rep Regex.digit 1 :: re) line = Some m →
  wholeOrInfinite (Parse.parseInt (Regex.group1 m)).
Proof.
  intros H. apply exec_group1 in H as [Hne Hall].
  destruct (parseInt_digits _ Hne Hall) as [-> Hn]. right. by eexists.
Qed.

(** decimal digits *)
Lemma uint_digits (d : Decimal.uint) :
  Forall (fun c => Str.isDigit c = true) (Str.u (NilEmpty.string_of_uint d)).
Proof.
  induction d; cbn; [constructor|..]; by constructor.
Qed.

Lemma uint_value (d : Decimal.uint) (acc : nat) :
  fold_left (fun acc c => acc * 10 + default 0 (Parse.hexValue c))
    (Str.u (NilEmpty.string_of_uint d)) (Z.of_nat acc)
  = Z.of_nat (Nat.of_uint_acc d acc).
Proof.
  revert acc. induction d; intros acc; cbn [NilEmpty.string_of_uint];
    [done|..];
    change (Str.u (String ?a ?s)) with (N_of_ascii a :: Str.u s);
    cbn [fold_left Nat.of_uint_acc]; rewrite <- IHd; f_equal;
    rewrite ?Nat.tail_mul_spec; cbn [N_of_ascii Parse.hexValue];
    vm_compute (default 0 _); lia.
Qed.

Lemma ofIndex_digits (n : nat) :
  Parse.ofIndex n ≠ []
  ∧ Forall (fun c => Str.isDigit c = true) (Parse.ofIndex n)
  ∧ Parse.digitsValue 10 (Parse.ofIndex n) = Z.of_nat n.
Proof.
  unfold Parse.ofIndex, Parse.digitsValue.
  pose proof (to_uint_nonnil n) as Hn.
  assert (NilZero.string_of_uint (Nat.to_uint n)
          = NilEmpty.string_of_uint (Nat.to_uint n)) as ->.
  { unfold NilZero.string_of_uint. by destruct (Nat.to_uint n). }
  split; [by destruct (Nat.to_uint n)|]. split; [apply uint_digits|].
  pose proof (uint_value (Nat.to_uint n) 0) as Hf.
  change (Nat.of_uint_acc (Nat.to_uint n) 0) with (Nat.of_uint (Nat.to_uint n))
    in Hf.
  by rewrite Unsigned.of_to in Hf.
Qed.

Lemma parseInt_ofIndex (n : nat) : Parse.parseInt (Parse.ofIndex n) = Num.of_nat n.
Proof.
  destruct (ofIndex_digits n) as (Hne & Hd & Hv).
  destruct (parseInt_digits _ Hne Hd) as [-> _]. by rewrite Hv.
Qed.

Lemma Qred_inject_Z (z : Z) : Qred (inject_Z z * 1) = inject_Z z.
Proof.
  assert (inject_Z z * 1 == inject_Z z)%Q as H by ring.
  apply Qred_complete in H. rewrite H. unfold Qred, inject_Z.
  pose proof (Z.ggcd_gcd z 1) as Hg.
  pose proof (Z.ggcd_correct_divisors z 1) as Hd.
  destruct (Z.ggcd z 1) as [g [a b]]. cbn [fst snd] in *.
  rewrite Z.gcd_1_r in Hg. subst g. destruct Hd as [Ha Hb].
  assert (a = z) as -> by lia. assert (b = 1) as -> by lia. reflexivity.
Qed.

Lemma parseFloat_digits (ds : jsstring) :
  ds ≠ [] → Forall (fun c => Str.isDigit c = true) ds →
  Parse.parseFloat ds = Num.of_Z (Parse.digitsValue 10 ds).
Proof.
  intros Hne Hall. destruct ds as [|c ds]; [done|].
  assert (Str.trimStart (c :: ds) = c :: ds
          ∧ Parse.sign (c :: ds) = (false, c :: ds)
          ∧ Str.stripPrefix (Str.u "Infinity") (c :: ds) = None)
    as (Ht & Hs & Hi).
  { inversion Hall as [|? ? Hc _]; subst.
    apply isDigit_cases in Hc; split_digit Hc; by vm_compute. }
  unfold Parse.parseFloat. rewrite Ht, Hs, Hi.
  rewrite (span_all _ _ Hall). rewrite app_nil_r.
  cbn [Parse.exponent length Parse.signed].
  change (0 - Z.of_nat 0) with 0. change (inject_Z 10 ^ 0)%Q with 1%Q.
  by rewrite Qred_inject_Z.
Qed.

Lemma removeCommas_id (ds : jsstring) :
  Forall (fun c => Str.isDigit c = true) ds → Str.removeCommas ds = ds.
Proof.
  unfold Str.removeCommas. induction 1 as [|c ds Hc _ IH]; [done|].
  cbn [List.filter]. rewrite IH.
  apply isDigit_cases in Hc; split_digit Hc; reflexivity.
Qed.

Lemma digits_no_newline (ds : jsstring) :
  Forall (fun c => Str.isDigit c = true) ds → 10%N ∉ ds.
Proof.
  intros H Hin. apply (proj1 (Forall_forall _ _) H) in Hin. done.
Qed.

(** ** Text ingestion: what a line assigns *)

Section TextLines.
Import App.

(** What a line can assign: the id is one of the eight, the number is what
    the parser can write, and a whole number on all branches but two. *)
Lemma lineUpdate_spec (line : jsstring) (i : jsstring) (v : number) :
  lineUpdate line = Some (i, v) →
  i ∈ updatableIds
  ∧ written v
  ∧ (i ≠ Str.u "jump-ropes" → i ≠ Str.u "shir-sasan" → wholeOrInfinite v).
Proof.
  unfold lineUpdate.
  repeat match goal with
         | |- context [if Str.includes ?l ?a then _ else _] =>
             destruct (Str.includes l a)
         end; try done;
  match goal with
  | |- context [Regex.exec ?re line] =>
      destruct (Regex.exec re line) as [m|] eqn:E; [|done]
  end; cbn; intros [= <- <-];
  (split; [unfold updatableIds;
           repeat first [apply list_elem_of_here
                        | apply list_elem_of_further]|]).
  all: try (apply branch_digits in E;
            split; [by apply wholeOrInfinite_written | done]).
  - apply exec_group1 in E as [_ Hall]. split; [|done].
    apply written_parseInt_digits, removeCommas_digits, Hall.
  - apply exec_group1 in E as [_ Hall]. split; [|done].
    by apply written_parseFloat_digitsDots.
Qed.

(** The reference found is in the array, and its object has the id. *)
Lemma refOf_Some (arr : list ref) (h : list Goal.t) (i : jsstring) (r : ref) :
  refOf arr h i = Some r →
  r ∈ arr ∧ ∃ g, h !! r = Some g ∧ Goal.id g = i.
Proof.
  unfold refOf. intros H. apply find_some in H as [Hin Hp].
  split; [by apply list_elem_of_In|].
  destruct (h !! r) as [g|]; [|done]. exists g. split; [done|].
  by apply bool_decide_eq_true in Hp.
Qed.

Lemma lastFor_Some (r : ref) (ops : list (option (ref * number))) (v : number) :
  lastFor r ops = Some v → Some (r, v) ∈ ops.
Proof.
  induction ops as [|op ops IH]; cbn; [done|].
  destruct (lastFor r ops) as [v'|].
  - intros [= ->]. right. by apply IH.
  - destruct op as [[r' v']|]; [|done].
    destruct (decide (r' = r)) as [->|]; [|done]. intros [= ->]. by left.
Qed.

(** Every object after the loop: the prior object, or the prior object with
    the number of a line that names its id. *)
Lemma runLines_lookup (arr : list ref) (lines : list jsstring)
    (h : list Goal.t) (r : ref) (g' : Goal.t) :
  runLines arr lines h !! r = Some g' →
  ∃ g, h !! r = Some g
       ∧ (g' = g
          ∨ ∃ line v, line ∈ lines
                      ∧ lineUpdate line = Some (Goal.id g, v)
                      ∧ r ∈ arr
                      ∧ g' = Goal.setCurrent v g).
Proof.
  rewrite runLines_applyOps, lookup_applyOps.
  destruct (h !! r) as [g|] eqn:Eg; [|done]. cbn. intros [= <-].
  exists g. split; [done|].
  destruct (lastFor r _) as [v|] eqn:El; [|by left]. right.
  apply lastFor_Some in El. apply list_elem_of_fmap in El as (line & Hop & Hin).
  symmetry in Hop. unfold resolve in Hop.
  destruct (lineUpdate line) as [[i v']|] eqn:Eu; [|done]. cbn in Hop.
  destruct (refOf arr h i) as [r'|] eqn:Er; [|done]. cbn in Hop.
  injection Hop as -> ->.
  apply refOf_Some in Er as (Hin' & g0 & Hg0 & <-).
  rewrite Eg in Hg0. injection Hg0 as <-.
  by exists line, v.
Qed.

(** The goals of the seed have finite values, with positive targets. *)
Lemma seed_targets :
  Forall (fun g => ∃ c t : Q, Goal.current g = Fin c ∧ (0 <= c)%Q
                              ∧ Goal.target g = Fin t ∧ (0 < t)%Q)
    INITIAL_DATA.
Proof.
  repeat (constructor;
          [eexists _, _; split; [reflexivity|]; split; [by vm_compute|];
           split; [reflexivity | by vm_compute]|]).
  constructor.
Qed.

Lemma seed_positiveTarget : Forall positiveTarget INITIAL_DATA.
Proof.
  eapply Forall_impl; [apply seed_targets|].
  intros g (c & t & _ & _ & Et & Hpos). by exists t.
Qed.

(** What an event keeps, and what it can write. *)
Lemma textStep_inv (st st' : State) :
  textStep st st' →
  goals st' = goals st
  ∧ Forall2 sameButCurrent (heap st) (heap st')
  ∧ (∀ r g', heap st' !! r = Some g' →
       ∃ g, heap st !! r = Some g
            ∧ (Goal.current g' = Goal.current g ∨ written (Goal.current g')))
  ∧ alerts st' = alerts st ∧ isSyncing st' = isSyncing st.
Proof.
  destruct 1 as [b st|text st|st]; cbn.
  1,2: split; [done|]; split; [apply Forall2_sameButCurrent_refl|];
       split; [|done]; intros r g' Hr; exists g'; split; [done | by left].
  rewrite handleUpdate_pure. cbn. split; [done|].
  split; [apply runLines_sameButCurrent|]. split; [|done].
  intros r g' Hr. apply runLines_lookup in Hr as (g & Hg & Hcase).
  exists g. split; [done|].
  destruct Hcase as [->|(line & v & _ & Hu & _ & ->)]; [by left|]. right.
  apply lineUpdate_spec in Hu as (_ & Hw & _). by destruct g.
Qed.

(** The heap of a state of the revision with the text update: the objects of
    the seed up to their current values, which the parser can write. *)
Lemma textReachable_heap (st : State) :
  textReachable st →
  goals st = seq 0 (length INITIAL_DATA)
  ∧ Forall2 sameButCurrent INITIAL_DATA (heap st)
  ∧ Forall (fun g => written (Goal.current g)) (heap st)
  ∧ alerts st = [] ∧ isSyncing st = false.
Proof.
  induction 1 as [|st st' Hst (Hg & Hh & Hw & Ha & Hs) Hstep].
  - split; [done|]. split; [apply Forall2_sameButCurrent_refl|].
    split; [|done].
    eapply Forall_impl; [apply seed_targets|].
    intros g (c & t & -> & Hc & _). right; right. by exists c.
  - destruct (textStep_inv st st' Hstep) as (Hg' & Hh' & Hv' & Ha' & Hs').
    split; [congruence|]. split; [by eapply Forall2_sameButCurrent_trans|].
    split; [|split; congruence].
    apply Forall_lookup. intros r g' Hr.
    destruct (Hv' r g' Hr) as (g & Hgr & [He|Hwr]); [|done].
    rewrite He. by eapply (proj1 (Forall_lookup _ _) Hw).
Qed.

(** The array of all references shows the heap. *)
Lemma deref_all (h : list Goal.t) : deref h (seq 0 (length h)) = h.
Proof. apply (deref_fresh [] h). Qed.

Lemma textReachable_view (st : State) :
  textReachable st →
  view st = heap st ∧ length (heap st) = length INITIAL_DATA.
Proof.
  intros H. destruct (textReachable_heap st H) as (Hg & Hh & _).
  apply Forall2_length in Hh. split; [|done].
  unfold view. rewrite Hg, Hh. apply deref_all.
Qed.

(** The pie depends on the categories only. *)
Lemma categoryFocus_sameButCurrent (gs gs' : list Goal.t) :
  Forall2 sameButCurrent gs gs' → categoryFocus gs' = categoryFocus gs.
Proof.
  intros H. unfold categoryFocus.
  assert (∀ c, length (List.filter (fun g => Str.eqb (Goal.category g) c) gs')
               = length (List.filter (fun g => Str.eqb (Goal.category g) c) gs))
    as E.
  { intros c. induction H as [|g g' gs gs' Hg _ IH]; [done|].
    cbn [List.filter].
    destruct (sameButCurrent_fields g g' Hg) as (_ & _ & _ & _ & ->).
    destruct (Str.eqb (Goal.category g) c); cbn [length]; by rewrite IH. }
  by rewrite !E.
Qed.

(** The chart entries of goals with positive targets and current values that
    the parser can write. *)
Lemma chartData_written (gs gs' : list Goal.t) :
  Forall2 sameButCurrent gs gs' →
  Forall positiveTarget gs →
  Forall (fun g => written (Goal.current g)) gs' →
  Forall (fun e => Chart.progress e = NaN ∨ chartClaim e) (chartData gs').
Proof.
  intros H. induction H as [|g g' gs gs' Hg _ IH]; intros Ht Hw; [constructor|].
  inversion Ht as [|? ? Htg Hts]; subst. inversion Hw as [|? ? Hwg Hws]; subst.
  cbn [chartData List.map]. constructor; [|by apply IH].
  destruct (sameButCurrent_fields g g' Hg) as (_ & _ & Et & _).
  destruct Htg as (t & Etg & Hpos). rewrite Etg in Et.
  destruct Hwg as [Hn | [Hi | (c & Hc & Hc0)]].
  - left. cbn [Chart.progress]. by rewrite Hn.
  - right. apply (chart_entry g'). unfold ratio. rewrite Hi, Et.
    unfold Num.le. cbn [Num.div].
    destruct (Qle_bool 0 t) eqn:E; qbool; [done | lra].
  - right. apply (chart_entry g'). unfold ratio. rewrite Hc, Et.
    unfold Num.le. cbn [Num.div].
    destruct (Qeq_bool t 0) eqn:E; qbool; [lra|]. cbn [Num.leb].
    apply Qle_bool_iff, Qle_shift_div_l; lra.
Qed.

Lemma exec_runningLine (n m : nat) :
  Regex.exec Regex.reFraction (runningLine n m)
  = Some [Parse.ofIndex n; Str.u "/"; Parse.ofIndex m].
Proof.
  unfold runningLine.
  let K := eval vm_compute in (Str.u "Running (1 Mile): ") in
  change (Str.u "Running (1 Mile): ") with K.
  cbn [app]. rewrite !exec_skip by reflexivity.
  destruct (ofIndex_digits n) as (Hn & Hdn & _).
  destruct (ofIndex_digits m) as (Hm & Hdm & _).
  rewrite exec_unfold. by rewrite reFraction_digits.
Qed.

Lemma lineUpdate_runningLine (n m : nat) :
  lineUpdate (runningLine n m) = Some (Str.u "running", Num.of_nat n).
Proof.
  unfold lineUpdate.
  assert (Str.includes (runningLine n m) (Str.u "Running") = true) as ->.
  { apply includes_spec.
    exists [], (Str.u " (1 Mile): " ++ Parse.ofIndex n ++ Str.u "/"
                ++ Parse.ofIndex m).
    reflexivity. }
  rewrite exec_runningLine. cbn [fmap option_fmap option_map Regex.group1 hd].
  by rewrite parseInt_ofIndex.
Qed.

Lemma runningLine_one (n m : nat) :
  Str.splitLines (runningLine n m) = [runningLine n m].
Proof.
  apply splitLines_one. unfold runningLine.
  destruct (ofIndex_digits n) as (_ & Hdn & _).
  destruct (ofIndex_digits m) as (_ & Hdm & _).
  rewrite !not_elem_of_app. split_and!.
  - apply (bool_decide_unpack _). by vm_compute.
  - by apply digits_no_newline.
  - apply (bool_decide_unpack _). by vm_compute.
  - by apply digits_no_newline.
Qed.

(** In a list that is the seed up to the current values, the goal with id
    ['running'] is the first one, with the fields of the seed. *)
Lemma running_first (h : list Goal.t) :
  Forall2 sameButCurrent INITIAL_DATA h →
  refOf (seq 0 (length INITIAL_DATA)) h (Str.u "running") = Some 0%nat
  ∧ ∃ c, h !! 0%nat
         = Some (Goal.mk (Str.u "running") (Str.u "Running (1 Mile)")
                   c (Fin 51) (Str.u "Miles") (Str.u "physical")).
Proof.
  intros H. unfold INITIAL_DATA in H.
  apply Forall2_cons_inv_l in H as (g & rest & Hg & _ & ->).
  split.
  - apply sameButCurrent_fields in Hg as (Hg & _).
    unfold refOf. change (length INITIAL_DATA) with 8%nat.
    cbn [seq List.find lookup list_lookup].
    by rewrite Hg, (proj2 (eqb_true _ _) eq_refl).
  - exists (Goal.current g). cbn [lookup list_lookup]. f_equal.
    apply sameButCurrent_fields in Hg as (H1 & H2 & H3 & H4 & H5).
    destruct g. cbn in *. by subst.
Qed.

End TextLines.

(** ** Tabular ingestion: rows and goals *)

Section SheetRows.
Import App.

(** A row adds its goal, if it has one, and counts it. *)
Lemma syncRow_acc (index : nat) (r : Sheet.row) (acc : list Goal.t * nat) :
  Sheet.syncRow index r acc
  = match rowGoal index r with
    | Some g => (acc.1 ++ [g], S acc.2)
    | None => acc
    end.
Proof.
  unfold rowGoal, Sheet.syncRow. destruct acc as [synced n].
  destruct (negb _ || _); [done|]. done.
Qed.

(** The goal of a row is named by the trimmed name cell. *)
Lemma rowGoal_name (index : nat) (r : Sheet.row) :
  Goal.name <$> rowGoal index r = rowName r.
Proof.
  unfold rowGoal, rowName, Sheet.syncRow.
  destruct (r !! 0%nat) as [name|] eqn:E; [|done].
  cbn [from_option id mbind option_bind].
  destruct (decide (Str.trim name = [])) as [Ht|Ht].
  - rewrite Ht. cbn. by rewrite orb_true_r.
  - assert (Sheet.truthy (Some name) = true) as ->.
    { destruct name; [by destruct Ht | done]. }
    rewrite (proj2 (eqb_false _ _) Ht). done.
Qed.

Lemma forEachRow_imap (rows : list Sheet.row) (index : nat)
    (acc : list Goal.t * nat) :
  Sheet.forEachRow index rows acc
  = (acc.1 ++ omap id (imap (fun i => rowGoal (index + i)) rows),
     (acc.2 + length (omap id (imap (fun i => rowGoal (index + i)) rows)))%nat).
Proof.
  revert index acc. induction rows as [|r rows IH]; intros index acc.
  - cbn. rewrite app_nil_r, Nat.add_0_r. by destruct acc.
  - cbn [Sheet.forEachRow imap]. rewrite IH, syncRow_acc. rewrite Nat.add_0_r.
    assert (imap ((fun i => rowGoal (index + i)) ∘ S) rows
            = imap (fun i => rowGoal (S index + i)) rows) as ->.
    { apply imap_ext. intros i x _. cbn. f_equal. lia. }
    destruct (rowGoal index r) as [g|]; cbn [omap list_omap id fst snd length].
    + rewrite <- app_assoc. cbn. f_equal. lia.
    + done.
Qed.

(** The loop over the rows gives the goals of the rows, in order, and their
    number. *)
Lemma syncRows_imap (rows : list Sheet.row) :
  Sheet.syncRows rows
  = (omap id (imap rowGoal rows), length (omap id (imap rowGoal rows))).
Proof. unfold Sheet.syncRows. by rewrite forEachRow_imap. Qed.

(** [trimStart] removes white space from the start, up to a character that
    is not white space. *)
Lemma trimStart_spec (s : jsstring) :
  ∃ ws, s = ws ++ Str.trimStart s
        ∧ Forall (fun c => Str.isWhiteSpace c = true) ws
        ∧ startsNonBlank (Str.trimStart s).
Proof.
  induction s as [|c s (ws & Hs & Hws & Hn)]; cbn.
  - by exists [].
  - destruct (Str.isWhiteSpace c) eqn:E.
    + exists (c :: ws). cbn. split; [by f_equal|].
      split; [by constructor | done].
    + exists []. by repeat split.
Qed.

Lemma trimStart_id (s : jsstring) : startsNonBlank s → Str.trimStart s = s.
Proof. destruct s as [|c s]; cbn; [done|]. by intros ->. Qed.

(** A trimmed string has nothing to trim. *)
Lemma trim_idempotent (s : jsstring) : Str.trim (Str.trim s) = Str.trim s.
Proof.
  unfold Str.trim.
  destruct (trimStart_spec s) as (_ & _ & _ & Ht).
  set (t := Str.trimStart s) in *. unfold Str.trimEnd.
  destruct (trimStart_spec (rev t)) as (ws & Hrev & _ & Hw).
  set (w := Str.trimStart (rev t)) in *.
  assert (t = rev w ++ rev ws) as Et.
  { rewrite <- rev_app_distr, <- Hrev. by rewrite rev_involutive. }
  assert (startsNonBlank (rev w)) as Hu.
  { destruct (rev w) as [|c u'] eqn:Eu; [done|]. rewrite Et in Ht. exact Ht. }
  rewrite (trimStart_id _ Hu). rewrite rev_involutive.
  by rewrite (trimStart_id _ Hw).
Qed.

(** The goal of a row is well-formed. *)
Lemma rowGoal_ingested (index : nat) (r : Sheet.row) (g : Goal.t) :
  rowGoal index r = Some g → ingestedGoal g.
Proof.
  unfold rowGoal, Sheet.syncRow.
  destruct (negb _ || _) eqn:E; [done|]. cbn [app]. intros [= <-].
  apply orb_false_iff in E as [_ E]. apply eqb_false in E.
  unfold ingestedGoal. cbn [Goal.name Goal.category Goal.current Goal.target].
  split; [done|]. split; [apply trim_idempotent|]. split.
  - match goal with
    | |- context [Str.eqb ?raw (Str.u "physical")] => generalize raw
    end.
    intros raw. unfold Sheet.knownCategories.
    destruct (Str.eqb raw (Str.u "physical")) eqn:E1;
      [apply eqb_true in E1 as ->; apply list_elem_of_here|].
    destruct (Str.eqb raw (Str.u "mental")) eqn:E2;
      [apply eqb_true in E2 as ->;
       apply list_elem_of_further, list_elem_of_here|].
    destruct (Str.eqb raw (Str.u "other")) eqn:E3;
      [apply eqb_true in E3 as ->;
       apply list_elem_of_further, list_elem_of_further, list_elem_of_here|].
    apply list_elem_of_here.
  - split;
      match goal with
      | |- Num.isNaN (if Num.isNaN ?v then _ else _) = false => by destruct v
      end.
Qed.

Lemma omap_imap_Forall {A B} (P : B → Prop) (f : nat → A → option B)
    (l : list A) :
  (∀ i x y, f i x = Some y → P y) → Forall P (omap id (imap f l)).
Proof.
  intros H. revert f H.
  induction l as [|x l IH]; intros f H; cbn; [constructor|].
  destruct (f 0%nat x) as [y|] eqn:E; cbn.
  - constructor; [by eapply H|]. apply IH. intros i x' y'. apply H.
  - apply IH. intros i x' y'. apply H.
Qed.

Lemma names_in_order (rows : list Sheet.row) (f : nat → nat) :
  Goal.name <$> omap id (imap (fun i => rowGoal (f i)) rows)
  = omap rowName rows.
Proof.
  revert f. induction rows as [|r rows IH]; intros f; [done|].
  cbn [imap omap list_omap]. rewrite <- (rowGoal_name (f 0%nat) r).
  specialize (IH (f ∘ S)).
  destruct (rowGoal (f 0%nat) r) as [g|]; cbn; [f_equal|]; exact IH.
Qed.

Lemma syncRows_ingested (rows : list Sheet.row) :
  Forall ingestedGoal (Sheet.syncRows rows).1.
Proof.
  rewrite syncRows_imap. cbn [fst]. apply omap_imap_Forall.
  intros i r g. apply rowGoal_ingested.
Qed.

(** So are the goals of the seed, whose ids are pairwise distinct. *)
Lemma seed_ingested : Forall ingestedGoal INITIAL_DATA.
Proof.
  repeat (constructor;
          [split; [discriminate|]; split; [reflexivity|];
           split; [repeat first [apply list_elem_of_here
                                | apply list_elem_of_further]|];
           split; reflexivity|]).
  constructor.
Qed.

Lemma seed_ids : NoDup (Goal.id <$> INITIAL_DATA).
Proof. apply (bool_decide_unpack _). by vm_compute. Qed.

Lemma rowGoal_decimal (index n m : nat) (name : jsstring)
    (cells : list jsstring) :
  Str.trim name ≠ [] →
  ∃ g, rowGoal index (name :: Parse.ofIndex n :: Parse.ofIndex m :: cells)
       = Some g
       ∧ Goal.id g
         = sheetGoalId index (Str.toLowerCase (Str.hyphenate (Str.trim name)))
       ∧ Goal.name g = Str.trim name
       ∧ Goal.current g = Num.of_nat n
       ∧ Goal.target g = Num.of_nat m.
Proof.
  intros Ht. unfold rowGoal, Sheet.syncRow.
  cbn [lookup list_lookup from_option id].
  assert (Sheet.truthy (Some name) = true) as ->.
  { destruct name; [by destruct Ht | done]. }
  rewrite (proj2 (eqb_false _ _) Ht). cbn [negb orb]. cbv iota.
  destruct (ofIndex_digits n) as (Hn & Hdn & Hvn).
  destruct (ofIndex_digits m) as (Hm & Hdm & Hvm).
  assert (Sheet.truthy (Some (Parse.ofIndex n)) = true) as ->
    by (by destruct (Parse.ofIndex n)).
  assert (Sheet.truthy (Some (Parse.ofIndex m)) = true) as ->
    by (by destruct (Parse.ofIndex m)).
  rewrite !removeCommas_id by done.
  rewrite !parseFloat_digits by done. rewrite Hvn, Hvm.
  cbn [Num.isNaN Num.of_Z app]. eexists. split; [reflexivity|].
  by cbn [Goal.id Goal.name Goal.current Goal.target].
Qed.

End SheetRows.

(** ** Tabular ingestion: the sheet id *)

(** A match of the pattern starts with [/d/], followed by the group: a
    non-empty run of id characters. *)
Lemma reSheetId_match (s : jsstring) (m : list jsstring) :
  Regex.matchHere Sheet.reSheetId s = Some m →
  ∃ id rest, s = Str.u "/d/" ++ id ++ rest ∧ m = [Str.u "/d/"; id]
             ∧ id ≠ [] ∧ Forall (fun c => Sheet.idChar c = true) id.
Proof.
  unfold Sheet.reSheetId. rewrite matchHere_lit.
  destruct (Str.stripPrefix (Str.u "/d/") s) as [s'|] eqn:E; [|done].
  apply stripPrefix_spec in E as ->. rewrite matchHere_rep.
  destruct (repFrom _ _ _ _ s') as [m'|] eqn:Er; [|done].
  intros [= <-].
  apply repFrom_split in Er as (more & rest & tl & -> & Hall & Hlen & Hk & ->).
  cbn in Hk. injection Hk as <-. cbn [rev app length] in *.
  exists more, rest. repeat split; [|done]. intros ->. cbn in Hlen. lia.
Qed.

(** The pattern matches at a [/d/] that a run of id characters follows, and
    the group is the whole run. *)
Lemma reSheetId_here (id rest : jsstring) :
  id ≠ [] → Forall (fun c => Sheet.idChar c = true) id →
  (rest = [] ∨ ∃ c t, rest = c :: t ∧ Sheet.idChar c = false) →
  Regex.matchHere Sheet.reSheetId (Str.u "/d/" ++ id ++ rest)
  = Some [Str.u "/d/"; id].
Proof.
  intros Hne Hall Hrest. unfold Sheet.reSheetId. rewrite matchHere_lit.
  rewrite (proj2 (stripPrefix_spec _ _ (id ++ rest)) eq_refl).
  rewrite matchHere_rep.
  rewrite (repFrom_greedy _ _ _ [] id rest []); [done|done|done| |done].
  destruct id; [done | cbn; lia].
Qed.

(** No match starts where the text does not begin with [/d/]. *)
Lemma reSheetId_skip (c : N) (s : jsstring) :
  (∀ t, c :: s ≠ Str.u "/d/" ++ t) →
  Regex.exec Sheet.reSheetId (c :: s) = Regex.exec Sheet.reSheetId s.
Proof.
  intros H. rewrite exec_unfold.
  destruct (Regex.matchHere Sheet.reSheetId (c :: s)) as [m|] eqn:E; [|done].
  apply reSheetId_match in E as (id & rest & E & _). by apply H in E.
Qed.

Lemma sub_occursIn (p pre s : jsstring) :
  ¬ occursIn p (pre ++ s) → ¬ occursIn p s.
Proof.
  intros H (a & b & ->). apply H. exists (pre ++ a), b.
  by rewrite <- app_assoc.
Qed.

(** The match is not in front of the marker, when no [/d/] is in the
    text there. *)
Lemma reSheetId_before_mark (pre tail : jsstring) :
  ¬ occursIn (Str.u "/d/") pre →
  Regex.exec Sheet.reSheetId (pre ++ sheetUrlMark ++ tail)
  = Regex.exec Sheet.reSheetId (sheetUrlMark ++ tail).
Proof.
  induction pre as [|c pre IH]; intros Hno; [done|].
  cbn [app]. rewrite reSheetId_skip.
  - apply IH. by apply (sub_occursIn _ [c]).
  - intros t E. change (Str.u "/d/") with [47; 100; 47]%N in *.
    change sheetUrlMark
      with ([100; 111]%N ++ Str.u "cs.google.com/spreadsheets/d/") in E.
    cbn [app] in E. injection E as -> E.
    destruct pre as [|c2 [|c3 pre]]; cbn [app] in E.
    + discriminate.
    + discriminate.
    + injection E as -> -> _. apply Hno. by exists [], pre.
Qed.

(** Nor inside the marker, in front of its own [/d/]. *)
Lemma reSheetId_at_mark (tail : jsstring) :
  Regex.exec Sheet.reSheetId (sheetUrlMark ++ tail)
  = Regex.exec Sheet.reSheetId (Str.u "/d/" ++ tail).
Proof.
  let K := eval vm_compute in sheetUrlMark in change sheetUrlMark with K.
  change (Str.u "/d/") with [47; 100; 47]%N.
  cbn [app].
  repeat (rewrite reSheetId_skip;
          [|intros t; change (Str.u "/d/") with [47; 100; 47]%N;
            cbn [app]; discriminate]).
  done.
Qed.




(** ** Tabular ingestion: the alerts and the states reached *)

Section SheetAlerts.
Import App.

(** The early return of a handler without configuration. *)
Lemma sync_unconfigured (env : Sheet.Env) (fetch : jsstring → Sheet.Fetched)
    (st : State) :
  ¬ configured env →
  Sheet.fetchFromGoogleSheets env fetch st
  = (Ret tt, mkState (heap st) (goals st) (rawText st) (isUpdateModalOpen st)
               (isSyncing st) (alerts st ++ [AlertConfigMissing])).
Proof.
  unfold configured, Sheet.fetchFromGoogleSheets. intros H.
  destruct (Sheet.truthy (Some (Sheet.sheetIdOf env))); [|done].
  destruct (Sheet.truthy (Sheet.VITE_GOOGLE_API_KEY env)); [|done].
  by destruct H.
Qed.

(** A handler with a configuration: the [finally] block resets the flag on
    every path, and each failure has its own alert. *)
Lemma sync_configured (env : Sheet.Env) (fetch : jsstring → Sheet.Fetched)
    (st : State) :
  configured env →
  let st' := (Sheet.fetchFromGoogleSheets env fetch st).2 in
  isSyncing st' = false
  ∧ rawText st' = rawText st
  ∧ isUpdateModalOpen st' = isUpdateModalOpen st
  ∧ match fetch (requestOf env) with
    | Sheet.Aborted => alerts st' = alerts st ++ [AlertTimedOut]
    | Sheet.Rejected message =>
        alerts st' = alerts st ++ [AlertSyncFailed message]
    | Sheet.Response false status body =>
        alerts st'
        = alerts st ++ [AlertSyncFailed (httpErrorMessage status body)]
    | Sheet.Response true _ (Sheet.Malformed message) =>
        alerts st' = alerts st ++ [AlertSyncFailed message]
    | Sheet.Response true _ (Sheet.Json _ _) => True
    end.
Proof.
  intros [Hc1 Hc2]. unfold requestOf, Sheet.fetchFromGoogleSheets.
  rewrite Hc1, Hc2. cbn [negb orb].
  unfold tryFinally, tryCatch, mbind, M_bind, Sheet.await; cbn.
  destruct (fetch _) as [|message|ok status body]; cbn; [done..|].
  destruct ok; cbn.
  2: { by destruct body as [m|values [[|c m]|]]. }
  destruct body as [m|[[|r rows]|] msg]; cbn; [done..| |done].
  destruct (Sheet.syncRows (r :: rows)) as [[|g synced] n]; by cbn.
Qed.

Lemma configured_dec (env : Sheet.Env) : configured env ∨ ¬ configured env.
Proof.
  unfold configured.
  destruct (Sheet.truthy (Some (Sheet.sheetIdOf env)));
    destruct (Sheet.truthy (Sheet.VITE_GOOGLE_API_KEY env));
    [by left | right; by intros [? ?]..].
Qed.

(** No run leaves the flag set. *)
Lemma sync_isSyncing (env : Sheet.Env) (fetch : jsstring → Sheet.Fetched)
    (st : State) :
  isSyncing st = false →
  isSyncing (Sheet.fetchFromGoogleSheets env fetch st).2 = false.
Proof.
  intros H. destruct (configured_dec env) as [Hc|Hc].
  - apply (sync_configured env fetch st Hc).
  - by rewrite sync_unconfigured.
Qed.

(** The list of a state of the revision with the sync is the seed, or the
    whole list of a grid; the flag is set exactly while a request is
    pending. *)
Lemma syncReachable_view (pending : bool) (st : State) :
  syncReachable pending st →
  (view st = INITIAL_DATA
   ∨ ∃ rows, view st = (Sheet.syncRows rows).1 ∧ (Sheet.syncRows rows).1 ≠ [])
  ∧ isSyncing st = pending.
Proof.
  induction 1 as [|env st Hst [IHv IHs] Hc|env fetch st Hst [IHv IHs]].
  - split; [by left | done].
  - split; [exact IHv | done].
  - split; [|by apply sync_isSyncing].
    destruct (sync_outcome env fetch st) as (_ & a & _ & Hfail & Hs).
    destruct a as [| | |n| | |m];
      try (rewrite (unchanged_view st _ (Hfail I)); exact IHv).
    destruct (Hs n eq_refl) as (rows & _ & _ & _ & _ & Hne & _ & Hv).
    right. by exists rows.
Qed.

(** A run that starts while a request is pending ends as the run that
    started before it: the handler sets the flag itself. *)
Lemma sync_from_pending (env : Sheet.Env) (fetch : jsstring → Sheet.Fetched)
    (st : State) :
  configured env →
  Sheet.fetchFromGoogleSheets env fetch (setIsSyncing true st).2
  = Sheet.fetchFromGoogleSheets env fetch st.
Proof.
  intros [Hc1 Hc2]. unfold Sheet.fetchFromGoogleSheets.
  rewrite Hc1, Hc2. cbn [negb orb]. reflexivity.
Qed.

End SheetAlerts.

(** ** Milestones, cards and the average *)

Lemma length_filter_cons {A} (p : A → bool) (x : A) (l : list A) :
  length (List.filter p (x :: l)) = (b2n (p x) + length (List.filter p l))%nat.
Proof. cbn. by destruct (p x). Qed.

(** The rows count the goals one by one. *)
Lemma milestoneTotal_cons (g : Goal.t) (goals : list Goal.t) :
  milestoneTotal (g :: goals) = (rowsHolding g + milestoneTotal goals)%nat.
Proof.
  unfold milestoneTotal, milestones, rowsHolding.
  cbn [foldr Milestone.count]. rewrite !length_filter_cons. lia.
Qed.

(** A current value of zero gives the ratio zero, or [NaN]. *)
Lemma ratio_of_zero (g : Goal.t) :
  Milestone.notStarted g = true →
  (Goal.current g / Goal.target g)%num = NaN
  ∨ ∃ q, (Goal.current g / Goal.target g)%num = Fin q ∧ (q == 0)%Q.
Proof.
  unfold Milestone.notStarted.
  destruct (Goal.current g) as [c| | |], (Goal.target g) as [t| | |];
    cbn [Num.strict_eq Num.div]; try discriminate; intros E; qbool.
  - destruct (Qeq_bool t 0) eqn:Et.
    + left. unfold Num.inf_times. rewrite (proj1 (Qeq_alt _ _) E). done.
    + right. exists (c / t)%Q. split; [done|]. rewrite E. unfold Qdiv. lra.
  - right. by exists 0%Q.
  - right. by exists 0%Q.
  - by left.
Qed.

(** The four rows with a test on the ratio are about disjoint ranges. *)
Lemma ratio_rows_le_1 (r : number) :
  (b2n (r >=? Fin 1)%num
   + b2n ((r >=? Fin (3 # 4))%num && Num.ltb r (Fin 1))
   + b2n ((r >=? Fin (1 # 2))%num && Num.ltb r (Fin (3 # 4)))
   + b2n (Num.ltb (Fin 0) r && Num.ltb r (Fin (1 # 2))) ≤ 1)%nat.
Proof.
  destruct r as [q| | |]; unfold Num.geb; cbn [Num.leb Num.ltb]; try (cbn; lia).
  repeat match goal with
         | |- context [Qle_bool ?a ?b] =>
             let E := fresh "E" in destruct (Qle_bool a b) eqn:E
         end; cbn [b2n andb negb Nat.add]; try lia; qbool; lra.
Qed.

(** No goal is counted twice. *)
Lemma rowsHolding_le_1 (g : Goal.t) : (rowsHolding g ≤ 1)%nat.
Proof.
  unfold rowsHolding.
  destruct (Milestone.notStarted g) eqn:E0; cbn [b2n].
  - unfold Milestone.completed, Milestone.advanced, Milestone.steady,
      Milestone.starting.
    destruct (ratio_of_zero g E0) as [-> | (q & -> & Hq)];
      unfold Num.geb; cbn [Num.leb Num.ltb]; [cbn; lia|].
    repeat match goal with
           | |- context [Qle_bool ?a ?b] =>
               let E := fresh "E" in destruct (Qle_bool a b) eqn:E
           end; cbn [b2n andb negb Nat.add]; try lia; qbool; lra.
  - pose proof (ratio_rows_le_1 (Goal.current g / Goal.target g)%num) as H.
    unfold Milestone.completed, Milestone.advanced, Milestone.steady,
      Milestone.starting. lia.
Qed.

(** A ratio above 0 is in the range of exactly one of the four rows with a
    test on the ratio, and any other ratio in none. *)
Lemma ratio_rows_counted (r : number) :
  (b2n (r >=? Fin 1)%num
   + b2n ((r >=? Fin (3 # 4))%num && Num.ltb r (Fin 1))
   + b2n ((r >=? Fin (1 # 2))%num && Num.ltb r (Fin (3 # 4)))
   + b2n (Num.ltb (Fin 0) r && Num.ltb r (Fin (1 # 2))))%nat
  = b2n (Num.ltb (Fin 0) r).
Proof.
  destruct r as [q| | |]; unfold Num.geb; cbn [Num.leb Num.ltb];
    try reflexivity.
  repeat match goal with
         | |- context [Qle_bool ?a ?b] =>
             let E := fresh "E" in destruct (Qle_bool a b) eqn:E
         end; cbn [b2n andb negb Nat.add]; try reflexivity; qbool; lra.
Qed.

(** A goal is counted by one row when its current value is 0 or its ratio
    is above 0, and by no row otherwise. *)
Lemma rowsHolding_counted (g : Goal.t) : rowsHolding g = b2n (counted g).
Proof.
  unfold rowsHolding, counted.
  pose proof (ratio_rows_counted (Goal.current g / Goal.target g)%num) as H.
  unfold Milestone.completed, Milestone.advanced, Milestone.steady,
    Milestone.starting. rewrite H. clear H.
  destruct (Milestone.notStarted g) eqn:E0.
  - change (Num.strict_eq (Goal.current g) (Fin 0)) with (Milestone.notStarted g).
    rewrite E0.
    destruct (ratio_of_zero g E0) as [-> | (q & -> & Hq)]; cbn [Num.ltb];
      [reflexivity|].
    destruct (Qle_bool q 0) eqn:E; [reflexivity|]. qbool. lra.
  - change (Num.strict_eq (Goal.current g) (Fin 0)) with (Milestone.notStarted g).
    rewrite E0. cbn [orb b2n]. lia.
Qed.

(** With a positive target, [current / target >= 1] is
    [current >= target]. *)
Lemma completed_geb (g : Goal.t) :
  positiveTarget g →
  Milestone.completed g = (Goal.current g >=? Goal.target g)%num.
Proof.
  intros (t & Et & Ht). unfold Milestone.completed. rewrite Et.
  destruct (Goal.current g) as [c| | |]; unfold Num.geb;
    cbn [Num.div Num.leb]; try done.
  - destruct (Qeq_bool t 0) eqn:E; qbool; [lra|]. cbn [Num.leb].
    apply eq_true_iff_eq. rewrite !Qle_bool_iff. split; intros H.
    + assert (Hm : (c / t * t == c)%Q) by (field; lra).
      rewrite <- Hm. rewrite <- (Qmult_1_l t) at 1.
      apply Qmult_le_compat_r; lra.
    + apply Qle_shift_div_l; lra.
  - destruct (Qle_bool 0 t) eqn:E; qbool; [done | lra].
  - destruct (Qle_bool 0 t) eqn:E; qbool; [done | lra].
Qed.

(** [current / target * 100 >= 100] is [current / target >= 1]. *)
Lemma emerald_completed (g : Goal.t) :
  Card.emerald500 g = Milestone.completed g.
Proof.
  unfold Card.emerald500, Card.progress, Milestone.completed.
  destruct (Goal.current g / Goal.target g)%num as [r| | |];
    unfold Num.geb; cbn [Num.mul Num.leb Num.inf_times]; try done.
  apply eq_true_iff_eq. rewrite !Qle_bool_iff. split; intros H; lra.
Qed.

(** The bar is full exactly from 100 percent on. *)
Lemma width_full (g : Goal.t) :
  Card.width g ≡ Fin 100 ↔ Card.emerald500 g = true.
Proof.
  unfold Card.width, Card.emerald500.
  destruct (Card.progress g) as [p| | |]; unfold Num.geb;
    cbn [Num.min Num.leb]; unfold equiv, number_equiv.
  - destruct (Qle_bool p 100) eqn:E; cbn [Num.eqv];
      rewrite Qle_bool_iff; qbool; split; intros H; lra.
  - cbn [Num.eqv]. split; [done|]. intros _. reflexivity.
  - cbn [Num.eqv]. split; [done | discriminate].
  - cbn [Num.eqv]. split; [done | discriminate].
Qed.

Lemma filter_ext_Forall {A} (P : A → Prop) (p q : A → bool) (l : list A) :
  (∀ x, P x → p x = q x) → Forall P l → List.filter p l = List.filter q l.
Proof.
  intros Hpq. induction 1 as [|x l Hx _ IH]; [done|].
  cbn [List.filter]. by rewrite (Hpq x Hx), IH.
Qed.

Lemma progressing_wellFormed (g : Goal.t) : progressing g → wellFormed g.
Proof. intros (c & t & Hc & Ht & _ & Hpos). by exists c, t. Qed.

Lemma qratio_nonneg (g : Goal.t) : progressing g → (0 <= qratio g)%Q.
Proof.
  intros (c & t & Hc & Ht & H0 & Hpos). unfold qratio. rewrite Hc, Ht.
  apply Qle_shift_div_l; lra.
Qed.

Lemma Qsum_nonneg (rs : list Q) :
  Forall (fun r => (0 <= r)%Q) rs → (0 <= Qsum rs)%Q.
Proof. induction 1 as [|r rs Hr _ IH]; simpl in *; lra. Qed.

Lemma length_filter_le {A} (p : A → bool) (l : list A) :
  (length (List.filter p l) ≤ length l)%nat.
Proof.
  induction l as [|x l IH]; [done|]. cbn [List.filter].
  destruct (p x); cbn [length]; lia.
Qed.

(** A count out of [n], in percent. *)
Lemma width_range (k n : nat) :
  (k ≤ n)%nat → (0 < n)%nat →
  ∃ w : Q, (Num.of_nat k / Num.of_nat n * Fin 100)%num = Fin w
           ∧ (0 <= w)%Q ∧ (w <= 100)%Q.
Proof.
  intros Hk Hn. unfold Num.of_nat, Num.of_Z. cbn [Num.div].
  assert (H0 : (0 < inject_Z (Z.of_nat n))%Q).
  { change 0%Q with (inject_Z 0). rewrite <- Zlt_Qlt. lia. }
  assert (Hk0 : (0 <= inject_Z (Z.of_nat k))%Q).
  { change 0%Q with (inject_Z 0). rewrite <- Zle_Qle. lia. }
  assert (Hkn : (inject_Z (Z.of_nat k) <= inject_Z (Z.of_nat n))%Q).
  { rewrite <- Zle_Qle. lia. }
  destruct (Qeq_bool (inject_Z (Z.of_nat n)) 0) eqn:E; qbool; [lra|].
  cbn [Num.mul]. eexists. split; [reflexivity|].
  assert (0 <= inject_Z (Z.of_nat k) / inject_Z (Z.of_nat n))%Q
    by (apply Qle_shift_div_l; lra).
  assert (inject_Z (Z.of_nat k) / inject_Z (Z.of_nat n) <= 1)%Q
    by (apply Qle_shift_div_r; lra).
  split; lra.
Qed.

(** ** Day counts and the category filter *)

(** The two day counts at finite timestamps. *)
Lemma day_counts (s e n : Q) :
  daysElapsed (timeProgress (Fin s) (Fin e) (Fin n))
    = Num.of_Z (Qfloor ((n - s) / dayLength))
  ∧ daysLeft (timeProgress (Fin s) (Fin e) (Fin n))
    = Num.of_Z (Qceiling ((e - n) / dayLength)).
Proof.
  unfold timeProgress, msPerDay, Num.of_Z. cbn [daysElapsed daysLeft].
  unfold Num.sub. cbn [Num.neg Num.add Num.div].
  change (Qeq_bool (inject_Z (1000 * 60 * 60 * 24)) 0) with false.
  cbn [Num.floor Num.ceil]. unfold Num.of_Z, dayLength.
  split; reflexivity.
Qed.

Lemma Zlt_inject (a b : Z) : (inject_Z a < inject_Z b)%Q → a < b.
Proof. intros H. rewrite Zlt_Qlt. exact H. Qed.

(** [filter] keeps the order. *)
Lemma filter_sublist {A} (p : A → bool) (l : list A) :
  sublist (List.filter p l) l.
Proof.
  induction l as [|x l IH]; cbn [List.filter]; [constructor|].
  destruct (p x); by constructor.
Qed.

(** * Properties of the handlers and of the rendered values *)

(** ** Text ingestion *)

Section TextProperties.
Import App.

Lemma ids_sameButCurrent (gs gs' : list Goal.t) :
  Forall2 sameButCurrent gs gs' → Goal.id <$> gs' = Goal.id <$> gs.
Proof.
  induction 1 as [|g g' gs gs' Hg _ IH]; [done|]. rewrite !fmap_cons.
  destruct (sameButCurrent_fields g g' Hg) as (-> & _). by rewrite IH.
Qed.

Lemma filteredGoals_ids (selected : option jsstring) (goals : list Goal.t) :
  NoDup (Goal.id <$> goals) →
  NoDup (Goal.id <$> filteredGoals selected goals).
Proof.
  destruct selected as [c|]; [|done]. cbn [filteredGoals].
  intros H. eapply sublist_NoDup; [exact H|].
  apply (fmap_sublist Goal.id), filter_sublist.
Qed.

(** X1. For every text and every state, the text update returns normally;
    it keeps the array, the sync flag and the alerts; every goal object, and
    every goal of the observed list, keeps its id, name, target, unit and
    category, so that only [current] can change; the text is cleared and
    the dialog is closed. *)
Theorem ingest_frame (text : jsstring) (st : State) :
  let st' := (Text.ingest text st).2 in
  (Text.ingest text st).1 = Ret tt
  ∧ goals st' = goals st
  ∧ Forall2 sameButCurrent (heap st) (heap st')
  ∧ Forall2 sameButCurrent (view st) (view st')
  ∧ rawText st' = [] ∧ isUpdateModalOpen st' = false
  ∧ isSyncing st' = isSyncing st ∧ alerts st' = alerts st.
Proof.
  unfold Text.ingest. rewrite handleUpdate_pure. cbn.
  split; [done|]. split; [done|].
  split; [apply runLines_sameButCurrent|]. split; [|done].
  apply deref_sameButCurrent, runLines_sameButCurrent.
Qed.

(** X2. The text update leaves an object as it is when its id is none of the
    eight ids that the parser looks for, or when the array does not refer to
    it: whatever the text, the goal ['gym'] of the seed is never updated. *)
Theorem ingest_untouched (text : jsstring) (st : State) (r : ref) (g : Goal.t) :
  heap st !! r = Some g →
  (Goal.id g ∉ updatableIds ∨ r ∉ goals st) →
  heap (Text.ingest text st).2 !! r = Some g.
Proof.
  intros Hg Hid. unfold Text.ingest. rewrite handleUpdate_pure. cbn.
  destruct (runLines (goals st) (Str.splitLines text) (heap st) !! r)
    as [g'|] eqn:E.
  - apply runLines_lookup in E as (g0 & Hg0 & Hcase).
    rewrite Hg in Hg0. injection Hg0 as <-.
    destruct Hcase as [->|(line & v & _ & Hu & Hin & _)]; [done|].
    apply lineUpdate_spec in Hu as (Hu & _). by destruct Hid.
  - apply lookup_ge_None in E.
    pose proof (runLines_sameButCurrent (goals st) (Str.splitLines text)
                  (heap st)) as H.
    apply Forall2_length in H. apply lookup_lt_Some in Hg. lia.
Qed.

Lemma ingest_untouched_witness :
  let gym := Goal.mk (Str.u "gym") (Str.u "Gym Sessions") (Fin 2) (Fin 51)
               (Str.u "Sessions") (Str.u "physical") in
  heap (Text.ingest (Str.u "Gym Sessions: 9/51") initial).2 !! 1%nat
  = Some gym.
Proof.
  intros gym.
  apply (ingest_untouched (Str.u "Gym Sessions: 9/51") initial 1%nat gym);
    [reflexivity|].
  left. apply (bool_decide_unpack _). by vm_compute.
Defined.

(** X3. Every goal object after the text update is the prior object up to
    [current], and its [current] is the prior one or a value the parser
    wrote: [NaN], [Infinity] or a finite number that is not negative, and
    [Infinity] or a whole number unless the goal is ['jump-ropes'] (whose
    digits may be all commas, which gives [NaN]) or ['shir-sasan'] (which is
    read by [parseFloat]). *)
Theorem ingest_values (text : jsstring) (st : State) (r : ref) (g' : Goal.t) :
  heap (Text.ingest text st).2 !! r = Some g' →
  ∃ g, heap st !! r = Some g
       ∧ sameButCurrent g g'
       ∧ (Goal.current g' = Goal.current g
          ∨ written (Goal.current g')
            ∧ (Goal.id g ≠ Str.u "jump-ropes" →
               Goal.id g ≠ Str.u "shir-sasan" →
               wholeOrInfinite (Goal.current g'))).
Proof.
  unfold Text.ingest. rewrite handleUpdate_pure. cbn. intros E.
  apply runLines_lookup in E as (g & Hg & Hcase). exists g. split; [done|].
  destruct Hcase as [->|(line & v & _ & Hu & _ & ->)].
  - split; [apply sameButCurrent_refl | by left].
  - split; [apply sameButCurrent_set|]. right.
    apply lineUpdate_spec in Hu as (_ & Hw & Hn). by destruct g.
Qed.

Lemma ingest_values_witness :
  let text := Str.u "Running (1 Mile): 7/51" in
  let g' := Goal.mk (Str.u "running") (Str.u "Running (1 Mile)") (Fin 7)
              (Fin 51) (Str.u "Miles") (Str.u "physical") in
  ∃ g, heap initial !! 0%nat = Some g
       ∧ sameButCurrent g g'
       ∧ (Goal.current g' = Goal.current g
          ∨ written (Goal.current g')
            ∧ (Goal.id g ≠ Str.u "jump-ropes" →
               Goal.id g ≠ Str.u "shir-sasan" →
               wholeOrInfinite (Goal.current g'))).
Proof.
  intros text g'. apply (ingest_values text initial 0%nat g').
  by vm_compute.
Defined.

(** X4. Pasting the same text again changes nothing: the second update gives
    the result and the state of the first. *)
Theorem ingest_idempotent (text : jsstring) (st : State) :
  Text.ingest text (Text.ingest text st).2 = Text.ingest text st.
Proof.
  unfold Text.ingest. rewrite !handleUpdate_pure. cbn.
  by rewrite runLines_idem.
Qed.

(** X5. Pasting two texts joined by a newline is pasting the first and then
    the second: the lines are processed one by one, in order, each on the
    goals as the lines before it left them. *)
Theorem ingest_sequence (t1 t2 : jsstring) (st : State) :
  Text.ingest (t1 ++ 10%N :: t2) st = Text.ingest t2 (Text.ingest t1 st).2.
Proof.
  unfold Text.ingest. rewrite !handleUpdate_pure. cbn.
  by rewrite splitLines_app, runLines_app.
Qed.

(** X6. A text of one line updates at most one goal object: there is a
    reference such that every other object is as before. *)
Theorem line_updates_one_goal (line : jsstring) (st : State) :
  10%N ∉ line →
  ∃ r, ∀ r', r' ≠ r →
    heap (Text.ingest line st).2 !! r' = heap st !! r'.
Proof.
  intros H. unfold Text.ingest. rewrite handleUpdate_pure. cbn.
  rewrite (splitLines_one line H). cbn [runLines].
  destruct (resolve (goals st) (heap st) line) as [[r v]|]; cbn [applyOp].
  - exists r. intros r' Hr. by apply list_lookup_alter_ne.
  - by exists 0%nat.
Qed.

Lemma line_updates_one_goal_witness :
  ∃ r, ∀ r', r' ≠ r →
    heap (Text.ingest (Str.u "Running (1 Mile): 7/51") initial).2 !! r'
    = heap initial !! r'.
Proof.
  apply (line_updates_one_goal (Str.u "Running (1 Mile): 7/51") initial).
  apply (bool_decide_unpack _). by vm_compute.
Defined.

(** X7. In every state of the revision with the text update, a line in the
    documented format [Running (1 Mile): n/m] with [n] below 2^53 (the
    integers that [parseInt] reads without rounding) and any [m] makes the
    first goal of the list the goal ['running'] of the seed with [n] as its
    current value, written out here field by field, and leaves every other
    goal of the list as it was. *)
Theorem running_round_trip (n m : nat) (st : State) :
  textReachable st → Z.of_nat n < 2 ^ 53 →
  let st' := (Text.ingest (runningLine n m) st).2 in
  view st' !! 0%nat
  = Some (Goal.mk (Str.u "running") (Str.u "Running (1 Mile)")
            (Num.of_nat n) (Fin 51) (Str.u "Miles") (Str.u "physical"))
  ∧ ∀ i, i ≠ 0%nat → view st' !! i = view st !! i.
Proof.
  intros H _. destruct (textReachable_view st H) as [Hv Hlen].
  destruct (textReachable_heap st H) as (Hg & Hh & _).
  destruct (running_first (heap st) Hh) as [Hr [c Hc]].
  assert (view (Text.ingest (runningLine n m) st).2
          = alter (Goal.setCurrent (Num.of_nat n)) 0%nat (heap st)) as E.
  { unfold Text.ingest. rewrite handleUpdate_pure. unfold Text.paste, view.
    cbn [snd heap goals rawText].
    rewrite runningLine_one. cbn [runLines]. unfold resolve.
    rewrite lineUpdate_runningLine. cbn [mbind option_bind].
    rewrite Hg, Hr. cbn [mbind option_bind applyOp].
    rewrite <- Hlen.
    rewrite <- (length_alter (Goal.setCurrent (Num.of_nat n)) (heap st) 0).
    apply deref_all. }
  cbv zeta. rewrite E, Hv. split.
  - by rewrite list_lookup_alter_eq, Hc.
  - intros i Hi. by rewrite list_lookup_alter_ne.
Qed.

Lemma running_round_trip_witness :
  let st' := (Text.ingest (runningLine 7 51) initial).2 in
  view st' !! 0%nat
  = Some (Goal.mk (Str.u "running") (Str.u "Running (1 Mile)")
            (Num.of_nat 7) (Fin 51) (Str.u "Miles") (Str.u "physical"))
  ∧ ∀ i, i ≠ 0%nat → view st' !! i = view initial !! i.
Proof.
  apply (running_round_trip 7 51 initial);
    [apply textReachable_initial | reflexivity].
Defined.

(** X8. In every state of the revision with the text update, whatever was
    pasted before: the list has the eight goals of the seed, in their order
    and with their ids, names, targets, units and categories, so that the
    total is 8; every current value is [NaN], [Infinity] or a finite number
    that is not negative; every chart entry has progress [NaN], or progress
    in [[0, 100]] and progress and remaining summing to 100; the category
    pie is that of the seed; the ids of the cards shown under any filter are
    pairwise distinct; and no alert was ever shown, so the alert of the
    [catch] block is unreachable. *)
Theorem textReachable_spec (st : State) :
  textReachable st →
  Forall2 sameButCurrent INITIAL_DATA (view st)
  ∧ totalGoals (stats (view st)) = 8%nat
  ∧ Forall (fun g => written (Goal.current g)) (view st)
  ∧ Forall (fun e => Chart.progress e = NaN ∨ chartClaim e)
      (chartData (view st))
  ∧ categoryFocus (view st) = categoryFocus INITIAL_DATA
  ∧ (∀ selected, NoDup (Goal.id <$> filteredGoals selected (view st)))
  ∧ alerts st = [].
Proof.
  intros H. destruct (textReachable_view st H) as [-> Hlen].
  destruct (textReachable_heap st H) as (_ & Hh & Hw & Ha & _).
  split; [done|]. split; [by cbn|]. split; [done|].
  split; [by apply (chartData_written INITIAL_DATA), Hw;
            [|apply seed_positiveTarget]|].
  split; [by apply categoryFocus_sameButCurrent|]. split; [|done].
  intros selected. apply filteredGoals_ids.
  rewrite (ids_sameButCurrent _ _ Hh). apply seed_ids.
Qed.

Lemma textReachable_spec_witness :
  let st := (Text.handleUpdate
               (setRawText (Str.u "Running (1 Mile): 7/51")
                  (setIsUpdateModalOpen true initial).2).2).2 in
  Forall2 sameButCurrent INITIAL_DATA (view st)
  ∧ totalGoals (stats (view st)) = 8%nat
  ∧ Forall (fun g => written (Goal.current g)) (view st)
  ∧ Forall (fun e => Chart.progress e = NaN ∨ chartClaim e)
      (chartData (view st))
  ∧ categoryFocus (view st) = categoryFocus INITIAL_DATA
  ∧ (∀ selected, NoDup (Goal.id <$> filteredGoals selected (view st)))
  ∧ alerts st = [].
Proof.
  intros st. apply (textReachable_spec st). unfold st.
  eapply textReachable_step; [|apply textStep_update].
  eapply textReachable_step; [|apply textStep_type].
  eapply textReachable_step; [|apply textStep_open].
  apply textReachable_initial.
Defined.

End TextProperties.

(** ** Tabular ingestion *)

Section SheetProperties.
Import App.

(** X9. The goals read from a grid are those of the rows whose name cell is
    present and not blank, one goal per such row and in the order of the
    rows, named by the trimmed cell; the count reported is their number. *)
Theorem ingested_names (rows : list Sheet.row) :
  Goal.name <$> (Sheet.syncRows rows).1 = omap rowName rows
  ∧ (Sheet.syncRows rows).2 = length (omap rowName rows).
Proof.
  rewrite syncRows_imap. cbn [fst snd].
  pose proof (names_in_order rows id) as H. split; [exact H|].
  by rewrite <- H, length_fmap.
Qed.

(** X10. Every goal read from a grid has a name that is not empty and has no
    white space at its ends, a category among ['physical'], ['mental'] and
    ['other'], and a current value and a target that are not [NaN]. *)
Theorem ingested_goals (rows : list Sheet.row) :
  Forall ingestedGoal (Sheet.syncRows rows).1.
Proof. apply syncRows_ingested. Qed.

(** X11. A row with a name and with the decimal digits of [n] and [m] in its
    current and target cells, both below 2^53 (the integers that
    [parseFloat] reads without rounding), is ingested as a goal with
    exactly these numbers (a target of 0 included), named by the trimmed
    name cell, with an id that starts with the index of the row. *)
Theorem row_round_trip (rows : list Sheet.row) (index n m : nat)
    (name : jsstring) (cells : list jsstring) :
  rows !! index
  = Some (name :: Parse.ofIndex n :: Parse.ofIndex m :: cells) →
  Str.trim name ≠ [] →
  Z.of_nat n < 2 ^ 53 → Z.of_nat m < 2 ^ 53 →
  ∃ g, g ∈ (Sheet.syncRows rows).1
       ∧ (∃ slug, Goal.id g = sheetGoalId index slug)
       ∧ Goal.name g = Str.trim name
       ∧ Goal.current g = Num.of_nat n
       ∧ Goal.target g = Num.of_nat m.
Proof.
  intros Hr Ht _ _.
  destruct (rowGoal_decimal index n m name cells Ht)
    as (g & Hg & Hid & Hname & Hc & Htg).
  exists g. split; [|split; [by eexists | done]].
  rewrite syncRows_imap. cbn [fst]. apply list_elem_of_omap.
  exists (Some g). split; [|done].
  apply list_elem_of_lookup. exists index.
  rewrite list_lookup_imap, Hr. cbn. by rewrite Hg.
Qed.

Lemma row_round_trip_witness :
  let name := Str.u " Evening Walk " in
  ∃ g, g ∈ (Sheet.syncRows
              [[Str.u "Notes"]; [name; Parse.ofIndex 12; Parse.ofIndex 0]]).1
       ∧ (∃ slug, Goal.id g = sheetGoalId 1 slug)
       ∧ Goal.name g = Str.trim name
       ∧ Goal.current g = Num.of_nat 12
       ∧ Goal.target g = Num.of_nat 0.
Proof.
  intros name.
  apply (row_round_trip
           [[Str.u "Notes"]; [name; Parse.ofIndex 12; Parse.ofIndex 0]]
           1 12 0 name []); [reflexivity| |reflexivity|reflexivity].
  by vm_compute.
Defined.

(** X12. From a pasted URL the handler takes the sheet id: when the text in
    front of [docs.google.com/spreadsheets/d/] has no [/d/], and the id is a
    non-empty run of letters, digits, hyphens and underscores that ends the
    URL or is followed by another character, [sheetIdOf] is that id. *)
Theorem sheetIdOf_url (pre id rest : jsstring) (key : option jsstring) :
  ¬ occursIn (Str.u "/d/") pre →
  id ≠ [] → Forall (fun c => Sheet.idChar c = true) id →
  (rest = [] ∨ ∃ c t, rest = c :: t ∧ Sheet.idChar c = false) →
  Sheet.sheetIdOf
    (Sheet.mkEnv (Some (pre ++ Str.u "docs.google.com/spreadsheets/d/"
                        ++ id ++ rest)) key)
  = id.
Proof.
  intros Hpre Hne Hall Hrest. unfold Sheet.sheetIdOf.
  cbn [Sheet.VITE_GOOGLE_SHEET_ID default].
  rewrite (proj2 (includes_spec _ _)) by (by exists pre, (id ++ rest)).
  fold sheetUrlMark. unfold Datatypes.id.
  rewrite reSheetId_before_mark, reSheetId_at_mark by done.
  rewrite exec_unfold, reSheetId_here by done. done.
Qed.

Lemma sheetIdOf_url_witness :
  Sheet.sheetIdOf
    (Sheet.mkEnv
       (Some (Str.u "https://" ++ Str.u "docs.google.com/spreadsheets/d/"
              ++ Str.u "1AbC-dEf_42" ++ Str.u "/edit#gid=0")) None)
  = Str.u "1AbC-dEf_42".
Proof.
  apply (sheetIdOf_url (Str.u "https://") (Str.u "1AbC-dEf_42")
           (Str.u "/edit#gid=0") None).
  - apply includes_false. reflexivity.
  - discriminate.
  - repeat constructor.
  - right. by exists 47%N, (Str.u "edit#gid=0").
Defined.


(** X14. With a configuration, every run of the handler ends with the sync
    flag reset, whatever the response, and reports a failure by its own
    message: the timeout alert after an abort, the message of the rejection
    after a transport error, the message of the error body (or the status
    line, when the body has none) after a response that is not ok, and the
    message of the parser after a malformed body. *)
Theorem sync_reports (env : Sheet.Env) (fetch : jsstring → Sheet.Fetched)
    (st : State) :
  configured env →
  let st' := (Sheet.fetchFromGoogleSheets env fetch st).2 in
  isSyncing st' = false
  ∧ rawText st' = rawText st
  ∧ isUpdateModalOpen st' = isUpdateModalOpen st
  ∧ match fetch (requestOf env) with
    | Sheet.Aborted => alerts st' = alerts st ++ [AlertTimedOut]
    | Sheet.Rejected message =>
        alerts st' = alerts st ++ [AlertSyncFailed message]
    | Sheet.Response false status body =>
        alerts st'
        = alerts st ++ [AlertSyncFailed (httpErrorMessage status body)]
    | Sheet.Response true _ (Sheet.Malformed message) =>
        alerts st' = alerts st ++ [AlertSyncFailed message]
    | Sheet.Response true _ (Sheet.Json _ _) => True
    end.
Proof. apply sync_configured. Qed.

Lemma sync_reports_witness :
  let env := Sheet.mkEnv (Some (Str.u "1AbC-dEf_42")) (Some (Str.u "k3y")) in
  let fetch := fun _ : jsstring =>
    Sheet.Response false 403 (Sheet.Json None None) in
  let st' := (Sheet.fetchFromGoogleSheets env fetch initial).2 in
  isSyncing st' = false
  ∧ rawText st' = rawText initial
  ∧ isUpdateModalOpen st' = isUpdateModalOpen initial
  ∧ alerts st'
    = alerts initial
      ++ [AlertSyncFailed
            (httpErrorMessage 403 (Sheet.Json None None))].
Proof.
  intros env fetch.
  apply (sync_reports env fetch initial). split; reflexivity.
Defined.

(** X15. When the handler announces that it loaded [n] goals, the list shown
    has exactly [n] goals, with [n] at least 1; their ids are pairwise
    distinct, each is a well-formed ingested goal, and the sync flag is
    reset. *)
Theorem sync_success (env : Sheet.Env) (fetch : jsstring → Sheet.Fetched)
    (st : State) (n : nat) :
  let st' := (Sheet.fetchFromGoogleSheets env fetch st).2 in
  alerts st' = alerts st ++ [AlertSynced n] →
  n = length (view st') ∧ (1 ≤ n)%nat
  ∧ totalGoals (stats (view st')) = n
  ∧ NoDup (Goal.id <$> view st')
  ∧ Forall ingestedGoal (view st')
  ∧ isSyncing st' = false.
Proof.
  intros st' Ha. subst st'.
  destruct (sync_outcome env fetch st) as (_ & a & Ha' & _ & Hs).
  rewrite Ha in Ha'. apply app_inv_head in Ha'. injection Ha' as <-.
  destruct (Hs n eq_refl) as (rows & status & msg & Hc & Hf & Hne & -> & Hv).
  rewrite Hv. destruct (syncRows_spec rows) as (Hnd & Hlen & _).
  split; [done|]. split.
  { rewrite Hlen. destruct ((Sheet.syncRows rows).1); [done | cbn; lia]. }
  split; [by cbn|]. split; [done|]. split; [apply syncRows_ingested|].
  apply (sync_configured env fetch st Hc).
Qed.

Lemma sync_success_witness :
  let env := Sheet.mkEnv (Some (Str.u "1AbC-dEf_42")) (Some (Str.u "k3y")) in
  let fetch := fun _ : jsstring =>
    Sheet.Response true 200
      (Sheet.Json (Some [[Str.u "Walk"; Str.u "3"; Str.u "10"]]) None) in
  let st' := (Sheet.fetchFromGoogleSheets env fetch initial).2 in
  1%nat = length (view st') ∧ (1 ≤ 1)%nat
  ∧ totalGoals (stats (view st')) = 1%nat
  ∧ NoDup (Goal.id <$> view st')
  ∧ Forall ingestedGoal (view st')
  ∧ isSyncing st' = false.
Proof.
  intros env fetch.
  apply (sync_success env fetch initial 1%nat). reflexivity.
Defined.

(** X16. In every state that the revision with the spreadsheet sync renders,
    at rest or while a request is pending, whatever the configurations and
    the responses of the runs before: the list shown is the seed or the
    whole list of goals of one grid, never a mixture; it is not empty, so
    that no average or width divides by zero goals; the ids, also those of
    the cards shown under any filter, are pairwise distinct; every goal has
    a name that is not empty and is trimmed, one of the three categories,
    and a current value and a target that are not [NaN]; and the sync flag
    is set exactly while a request is pending, so that the button is
    disabled then and enabled at rest. *)
Theorem syncReachable_spec (pending : bool) (st : State) :
  syncReachable pending st →
  (view st = INITIAL_DATA
   ∨ ∃ rows, view st = (Sheet.syncRows rows).1)
  ∧ view st ≠ []
  ∧ NoDup (Goal.id <$> view st)
  ∧ (∀ selected, NoDup (Goal.id <$> filteredGoals selected (view st)))
  ∧ Forall ingestedGoal (view st)
  ∧ isSyncing st = pending.
Proof.
  intros H.
  destruct (syncReachable_view pending st H)
    as [[Hv | (rows & Hv & Hne)] Hs]; rewrite Hv.
  - split; [by left|]. split; [done|]. split; [apply seed_ids|].
    split; [intros selected; apply filteredGoals_ids, seed_ids|].
    split; [apply seed_ingested | done].
  - split; [right; by exists rows|]. split; [done|].
    split; [apply syncRows_spec|].
    split; [intros selected; apply filteredGoals_ids, syncRows_spec|].
    split; [apply syncRows_ingested | done].
Qed.

(** The state while the second request is pending, after a first run that
    loaded one goal. *)
Lemma syncReachable_spec_witness :
  let env := Sheet.mkEnv (Some (Str.u "1AbC-dEf_42")) (Some (Str.u "k3y")) in
  let fetch := fun _ : jsstring =>
    Sheet.Response true 200
      (Sheet.Json (Some [[Str.u "Walk"; Str.u "3"; Str.u "10"]]) None) in
  let st :=
    (setIsSyncing true (Sheet.fetchFromGoogleSheets env fetch initial).2).2 in
  (view st = INITIAL_DATA
   ∨ ∃ rows, view st = (Sheet.syncRows rows).1)
  ∧ view st ≠ []
  ∧ NoDup (Goal.id <$> view st)
  ∧ (∀ selected, NoDup (Goal.id <$> filteredGoals selected (view st)))
  ∧ Forall ingestedGoal (view st)
  ∧ isSyncing st = true.
Proof.
  intros env fetch st. apply (syncReachable_spec true st). unfold st.
  apply (syncReachable_request env); [|split; reflexivity].
  apply syncReachable_settle, syncReachable_initial.
Defined.

End SheetProperties.

(** ** The rendered values *)

(** X17. No goal is counted by two rows of the "Milestone Breakdown": the
    counts of the five rows add up to at most the number of goals. *)
Theorem milestone_rows_disjoint (goals : list Goal.t) :
  (milestoneTotal goals ≤ length goals)%nat.
Proof.
  induction goals as [|g goals IH]; [done|].
  rewrite milestoneTotal_cons. pose proof (rowsHolding_le_1 g).
  cbn [length]. lia.
Qed.

(** X18. A goal is counted by exactly one row of the "Milestone Breakdown"
    when its current value is 0 or its ratio current/target, as the rows
    compute it, is above 0, and by no row otherwise (a ratio that is
    negative, or that is 0 or [NaN] with a current value other than 0): the
    counts of the five rows add up to the number of the goals of the first
    kind. *)
Theorem milestone_rows_cover (goals : list Goal.t) :
  Forall (fun g => rowsHolding g = if counted g then 1%nat else 0%nat) goals
  ∧ milestoneTotal goals = length (List.filter counted goals).
Proof.
  split.
  - apply Forall_forall. intros g _. apply rowsHolding_counted.
  - induction goals as [|g goals IH]; [done|].
    rewrite milestoneTotal_cons, rowsHolding_counted, IH.
    cbn [List.filter]. by destruct (counted g).
Qed.

(** X19. For a list that is not empty, the width of the bar of every row of
    the "Milestone Breakdown" is a number from 0 to 100. *)
Theorem milestone_widths (goals : list Goal.t) :
  goals ≠ [] →
  Forall (fun item => ∃ w : Q, milestoneWidth goals item = Fin w
                               ∧ (0 <= w)%Q ∧ (w <= 100)%Q)
    (milestones goals).
Proof.
  intros Hne.
  assert (0 < length goals)%nat by (destruct goals; [done | cbn; lia]).
  unfold milestones, milestoneWidth.
  repeat (constructor; [cbn [Milestone.count];
                        apply width_range; [apply length_filter_le | done]|]).
  constructor.
Qed.

Lemma milestone_widths_witness :
  Forall (fun item => ∃ w : Q, milestoneWidth INITIAL_DATA item = Fin w
                               ∧ (0 <= w)%Q ∧ (w <= 100)%Q)
    (milestones INITIAL_DATA).
Proof. apply (milestone_widths INITIAL_DATA). discriminate. Defined.

(** X20. For goals with finite positive targets the three tests of
    completion agree: the ratio test of the "Completed" row and the
    [progress >= 100] test of the card hold exactly when
    [current >= target], and the count of the "Completed" row is
    [completedGoals]. *)
Theorem completed_tests_agree (goals : list Goal.t) :
  Forall positiveTarget goals →
  Forall (fun g =>
            Milestone.completed g = (Goal.current g >=? Goal.target g)%num
            ∧ Card.emerald500 g = (Goal.current g >=? Goal.target g)%num)
    goals
  ∧ (Milestone.count <$> head (milestones goals))
    = Some (completedGoals (stats goals)).
Proof.
  intros H. split.
  - eapply Forall_impl; [exact H|]. intros g Hg. cbv beta.
    rewrite emerald_completed. split; by apply completed_geb.
  - cbn. f_equal. f_equal.
    by apply (filter_ext_Forall positiveTarget), H; apply completed_geb.
Qed.

Lemma completed_tests_agree_witness :
  Forall (fun g =>
            Milestone.completed g = (Goal.current g >=? Goal.target g)%num
            ∧ Card.emerald500 g = (Goal.current g >=? Goal.target g)%num)
    INITIAL_DATA
  ∧ (Milestone.count <$> head (milestones INITIAL_DATA))
    = Some (completedGoals (stats INITIAL_DATA)).
Proof.
  apply (completed_tests_agree INITIAL_DATA).
  repeat (constructor; [eexists; split; [reflexivity | by vm_compute]|]).
  constructor.
Defined.

(** X21. For every goal, the bar of its card is full (width 100) exactly when
    it is drawn in the colour of a completed goal, and that is exactly when
    the "Completed" row counts the goal. *)
Theorem card_full_iff_emerald (g : Goal.t) :
  (Card.width g ≡ Fin 100 ↔ Card.emerald500 g = true)
  ∧ Card.emerald500 g = Milestone.completed g.
Proof. split; [apply width_full | apply emerald_completed]. Qed.

(** X22. For a list that is not empty, of goals with finite current values
    that are not negative and finite positive targets, [averageProgress] is
    a finite number that is not negative; and it is at most 100 when no
    goal exceeds its target.  (In exact arithmetic.) *)
Theorem average_range (goals : list Goal.t) :
  goals ≠ [] → Forall progressing goals →
  ∃ a : Q, averageProgress (stats goals) = Fin a ∧ (0 <= a)%Q
    ∧ (Forall (fun g => (Goal.current g <= Goal.target g)%num) goals →
       (a <= 100)%Q).
Proof.
  intros Hne Hp.
  assert (Hwf : Forall wellFormed goals).
  { eapply Forall_impl; [exact Hp | apply progressing_wellFormed]. }
  pose proof (average_wellFormed goals Hne Hwf) as Ha.
  destruct (averageProgress (stats goals)) as [a| | |]; try done.
  unfold equiv, number_equiv in Ha; cbn [Num.eqv] in Ha.
  assert (Hn : (0 < count (length goals))%Q).
  { apply count_pos. destruct goals; [done | cbn [length]; lia]. }
  assert (H0 : (0 <= Qsum (qratio <$> goals))%Q).
  { apply Qsum_nonneg, Forall_fmap. eapply Forall_impl; [exact Hp|].
    intros g Hg. by apply qratio_nonneg. }
  exists a. split; [done|]. split.
  - rewrite Ha. assert (0 <= Qsum (qratio <$> goals) / count (length goals))%Q;
      [apply Qle_shift_div_l; lra | lra].
  - intros Hle. rewrite Ha.
    assert (Hs : (Qsum (qratio <$> goals)
                  <= count (length (qratio <$> goals)))%Q).
    { apply Qsum_le_count.
      apply (Forall_qratio (fun g => (Goal.current g <= Goal.target g)%num));
        [|done|done].
      intros g Hg. by apply qratio_le_1. }
    rewrite length_fmap in Hs.
    assert (Qsum (qratio <$> goals) / count (length goals) <= 1)%Q;
      [apply Qle_shift_div_r; lra | lra].
Qed.

Lemma average_range_witness :
  ∃ a : Q, averageProgress (stats INITIAL_DATA) = Fin a ∧ (0 <= a)%Q
    ∧ (Forall (fun g => (Goal.current g <= Goal.target g)%num) INITIAL_DATA →
       (a <= 100)%Q).
Proof.
  apply (average_range INITIAL_DATA); [discriminate|].
  repeat (constructor;
          [eexists _, _; split; [reflexivity|]; split; [reflexivity|];
           split; by vm_compute|]).
  constructor.
Defined.

(** X23. For all timestamps, [daysElapsed] is the whole number of days from
    the start to now, rounded down (so it is negative before the start), and
    [daysLeft] is at least 1 exactly while now is before the end; the two
    add up to the length of the window in days, rounded down or up, so to
    that length when the window is a whole number of days.  (In exact
    arithmetic.) *)
Theorem day_counts_spec (s e n : Q) :
  ∃ left elapsed : Z,
    daysLeft (timeProgress (Fin s) (Fin e) (Fin n)) = Num.of_Z left
    ∧ daysElapsed (timeProgress (Fin s) (Fin e) (Fin n)) = Num.of_Z elapsed
    ∧ (s + inject_Z elapsed * dayLength <= n)%Q
    ∧ (n < s + inject_Z (elapsed + 1) * dayLength)%Q
    ∧ (0 <= elapsed ↔ (s <= n)%Q)
    ∧ (1 <= left ↔ (n < e)%Q)
    ∧ Qfloor ((e - s) / dayLength) <= left + elapsed
    ∧ left + elapsed <= Qceiling ((e - s) / dayLength).
Proof.
  destruct (day_counts s e n) as [He Hl].
  exists (Qceiling ((e - n) / dayLength)), (Qfloor ((n - s) / dayLength)).
  split; [done|]. split; [done|].
  assert (Hd : (0 < dayLength)%Q) by (by vm_compute).
  assert (Hx : ((n - s) / dayLength * dayLength == n - s)%Q)
    by (field; lra).
  assert (Hy : ((e - n) / dayLength * dayLength == e - n)%Q)
    by (field; lra).
  assert (Hw : ((e - s) / dayLength
                == (e - n) / dayLength + (n - s) / dayLength)%Q)
    by (field; lra).
  pose proof (Qfloor_le ((n - s) / dayLength)) as F1.
  pose proof (Qlt_floor ((n - s) / dayLength)) as F2.
  pose proof (Qle_ceiling ((e - n) / dayLength)) as C1.
  pose proof (Qceiling_lt ((e - n) / dayLength)) as C2.
  pose proof (Qfloor_le ((e - s) / dayLength)) as W1.
  pose proof (Qle_ceiling ((e - s) / dayLength)) as W2.
  set (x := ((n - s) / dayLength)%Q) in *.
  set (y := ((e - n) / dayLength)%Q) in *.
  set (w := ((e - s) / dayLength)%Q) in *.
  set (ke := Qfloor x) in *. set (kl := Qceiling y) in *.
  rewrite inject_Z_plus in F2. unfold Z.sub in C2.
  rewrite inject_Z_plus, inject_Z_opp in C2.
  change (inject_Z 1) with 1%Q in *.
  repeat split.
  - assert (inject_Z ke * dayLength <= x * dayLength)%Q
      by (apply Qmult_le_compat_r; lra). lra.
  - rewrite inject_Z_plus. change (inject_Z 1) with 1%Q.
    assert (x * dayLength < (inject_Z ke + 1) * dayLength)%Q
      by (apply Qmult_lt_compat_r; lra). lra.
  - intros H. assert (0 <= x)%Q; [|].
    { apply Qle_trans with (inject_Z ke); [|done].
      change 0%Q with (inject_Z 0). rewrite <- Zle_Qle. exact H. }
    assert (0 * dayLength <= x * dayLength)%Q
      by (apply Qmult_le_compat_r; lra). lra.
  - intros H. assert (0 <= x)%Q by (apply Qle_shift_div_l; lra).
    assert (inject_Z (-1) < inject_Z ke)%Q; [|apply Zlt_inject in H1; lia].
    change (inject_Z (-1)) with (-1)%Q. lra.
  - intros H. assert (0 < y)%Q.
    { assert (inject_Z 1 <= inject_Z kl)%Q by (rewrite <- Zle_Qle; exact H).
      change (inject_Z 1) with 1%Q in *. lra. }
    assert (0 * dayLength < y * dayLength)%Q
      by (apply Qmult_lt_compat_r; lra). lra.
  - intros H. assert (0 < y)%Q by (apply Qlt_shift_div_l; lra).
    assert (inject_Z 0 < inject_Z kl)%Q; [|apply Zlt_inject in H1; lia].
    change (inject_Z 0) with 0%Q. lra.
  - assert (inject_Z (Qfloor w) < inject_Z (kl + ke + 1))%Q;
      [|apply Zlt_inject in H; lia].
    rewrite !inject_Z_plus. change (inject_Z 1) with 1%Q. lra.
  - assert (inject_Z (kl + ke - 1) < inject_Z (Qceiling w))%Q;
      [|apply Zlt_inject in H; lia].
    unfold Z.sub. rewrite !inject_Z_plus, inject_Z_opp.
    change (inject_Z 1) with 1%Q. lra.
Qed.

